(** * git-weekly-report: the weekly report generator, embedded and verified

    A shallow embedding of [git-weekly-report.py].  Python [str] values are
    lists of Unicode code points, [dict]s are insertion-ordered association
    lists, and every function that talks to the outside (the [git]
    subprocess, the HTTP API, the environment, the clock) runs in a state
    and exception monad over an abstract world.  [int] has the limit of
    CPython on the digits it reads.  The [print] diagnostics inside the
    methods are not part of the model; [main] keeps its own prints, over a
    terminal of its own. *)

From Stdlib Require Import List NArith ZArith QArith Bool Lia.
From Stdlib Require Strings.String Strings.Ascii.
From Stdlib Require Import Sorting.Sorted Sorting.Permutation.
From Stdlib Require Decimal DecimalPos DecimalN.
Import ListNotations.
Import String.StringSyntax.

Local Open Scope string_scope.
Local Open Scope N_scope.
Local Open Scope list_scope.

(** ** Text *)

Module Text.

(** A code point, and a Python [str]. *)
Definition char := N.
Definition str := list char.

(** Literals of the script are UTF-8 in its file; [lit] decodes one. *)
Fixpoint utf8_decode (bs : list N) : str :=
  match bs with
  | [] => []
  | b0 :: r0 =>
    if b0 <? 128 then b0 :: utf8_decode r0
    else match r0 with
    | [] => []
    | b1 :: r1 =>
      if b0 <? 224 then ((b0 - 192) * 64 + (b1 - 128)) :: utf8_decode r1
      else match r1 with
      | [] => []
      | b2 :: r2 =>
        if b0 <? 240
        then ((b0 - 224) * 4096 + (b1 - 128) * 64 + (b2 - 128)) :: utf8_decode r2
        else match r2 with
        | [] => []
        | b3 :: r3 =>
          ((b0 - 240) * 262144 + (b1 - 128) * 4096 + (b2 - 128) * 64 + (b3 - 128))
            :: utf8_decode r3
        end
      end
    end
  end.

Definition lit (s : String.string) : str :=
  utf8_decode (map Ascii.N_of_ascii (String.list_ascii_of_string s)).

Definition NL : char := 10.
Definition PIPE : char := 124.
Definition HASH : char := 35.

(** [a == b] on [str]. *)
Fixpoint str_eqb (a b : str) : bool :=
  match a, b with
  | [], [] => true
  | x :: a', y :: b' => (x =? y) && str_eqb a' b'
  | _, _ => false
  end.

(** [a < b] on [str]: lexicographic on code points. *)
Fixpoint str_ltb (a b : str) : bool :=
  match a, b with
  | _, [] => false
  | [], _ :: _ => true
  | x :: a', y :: b' => (x <? y) || ((x =? y) && str_ltb a' b')
  end.

(** [s.startswith(p)]. *)
Fixpoint startswith (p s : str) : bool :=
  match p, s with
  | [], _ => true
  | _ :: _, [] => false
  | x :: p', y :: s' => (x =? y) && startswith p' s'
  end.

(** [needle in hay]. *)
Fixpoint contains (needle hay : str) : bool :=
  startswith needle hay ||
  match hay with
  | [] => false
  | _ :: hay' => contains needle hay'
  end.

(** [any(keyword in message for keyword in keywords)]. *)
Definition any_in (keywords : list str) (message : str) : bool :=
  existsb (fun keyword => contains keyword message) keywords.

Definition cons_head (c : char) (parts : list str) : list str :=
  match parts with
  | [] => [[c]]
  | h :: r => (c :: h) :: r
  end.

(** [s.split(sep)] for a one-character separator. *)
Fixpoint split (sep : char) (s : str) : list str :=
  match s with
  | [] => [[]]
  | c :: s' => if c =? sep then [] :: split sep s' else cons_head c (split sep s')
  end.

(** [s.split(sep, maxsplit)] for a one-character separator. *)
Fixpoint split_max (sep : char) (s : str) (maxsplit : nat) : list str :=
  match s with
  | [] => [[]]
  | c :: s' =>
    match maxsplit with
    | O => [s]
    | S m =>
      if c =? sep then [] :: split_max sep s' m
      else cons_head c (split_max sep s' maxsplit)
    end
  end.

(** [sep.join(parts)]. *)
Fixpoint join (sep : str) (parts : list str) : str :=
  match parts with
  | [] => []
  | [p] => p
  | p :: rest => p ++ sep ++ join sep rest
  end.

(** [bool(s)] for an [Optional[str]]: [None] and [''] are false. *)
Definition truthy (o : option str) : bool :=
  match o with
  | Some (_ :: _) => true
  | _ => false
  end.

(** [str(n)] for an [int]. *)
Fixpoint uint_chars (d : Decimal.uint) : str :=
  match d with
  | Decimal.Nil => []
  | Decimal.D0 d => 48 :: uint_chars d
  | Decimal.D1 d => 49 :: uint_chars d
  | Decimal.D2 d => 50 :: uint_chars d
  | Decimal.D3 d => 51 :: uint_chars d
  | Decimal.D4 d => 52 :: uint_chars d
  | Decimal.D5 d => 53 :: uint_chars d
  | Decimal.D6 d => 54 :: uint_chars d
  | Decimal.D7 d => 55 :: uint_chars d
  | Decimal.D8 d => 56 :: uint_chars d
  | Decimal.D9 d => 57 :: uint_chars d
  end.

Definition str_of_N (n : N) : str := uint_chars (N.to_uint n).

Definition str_of_Z (z : Z) : str :=
  match z with
  | Z0 => str_of_N 0
  | Zpos p => str_of_N (Npos p)
  | Zneg p => 45 :: str_of_N (Npos p)
  end.

Definition str_of_nat (n : nat) : str := str_of_N (N.of_nat n).

(** The Unicode tables behind [str.lower], [str.strip] and the [\s] class,
    and the decimal digits behind [\d] and [int]. *)
Class Unicode := {
  lower : str -> str;
  isspace : char -> bool;
  digit_value : char -> option N
}.

(** The tables restricted to ASCII. *)
Definition ascii_lower_char (c : char) : char :=
  if (65 <=? c) && (c <=? 90) then c + 32 else c.

Definition ascii_isspace (c : char) : bool :=
  ((9 <=? c) && (c <=? 13)) || ((28 <=? c) && (c <=? 32)).

Definition ascii_digit_value (c : char) : option N :=
  if (48 <=? c) && (c <=? 57) then Some (c - 48) else None.

Definition ascii_tables : Unicode := {|
  lower := map ascii_lower_char;
  isspace := ascii_isspace;
  digit_value := ascii_digit_value
|}.

End Text.
Import Text.

(** ** Exceptions, and computations that touch the outside *)

Module Effect.

(** The exception classes the script can meet; each derives from
    [Exception].  [OtherException] stands for what a library call may raise
    besides (a connection error, a timeout, an OS error). *)
Inductive exn :=
| CalledProcessError
| FileNotFoundError
| ValueError
| KeyError
| TypeError
| IndexError
| AttributeError
| JSONDecodeError
| OtherException.

Inductive result (A : Type) :=
| Ok (a : A)
| Raise (e : exn).
Arguments Ok {A} a.
Arguments Raise {A} e.

(** A computation over the world [W]: it returns or raises, and leaves a
    world behind. *)
Definition M (W A : Type) := W -> result A * W.

Definition ret {W A} (a : A) : M W A := fun w => (Ok a, w).

Definition raise {W A} (e : exn) : M W A := fun w => (Raise e, w).

Definition lift {W A} (r : result A) : M W A := fun w => (r, w).

Definition bind {W A B} (m : M W A) (k : A -> M W B) : M W B :=
  fun w =>
    match m w with
    | (Ok a, w') => k a w'
    | (Raise e, w') => (Raise e, w')
    end.

(** [try: body / except <classes>: handler]. *)
Definition try_except {W A} (body : M W A) (classes : exn -> bool)
    (handler : M W A) : M W A :=
  fun w =>
    match body w with
    | (Ok a, w') => (Ok a, w')
    | (Raise e, w') => if classes e then handler w' else (Raise e, w')
    end.

(** Sequencing of two steps that may raise and touch nothing. *)
Definition and_then {A B} (r : result A) (k : A -> result B) : result B :=
  match r with
  | Ok a => k a
  | Raise e => Raise e
  end.

(** [except Exception]. *)
Definition Exception (e : exn) : bool := true.

Definition is_CalledProcessError (e : exn) : bool :=
  match e with CalledProcessError => true | _ => false end.

Definition is_FileNotFoundError (e : exn) : bool :=
  match e with FileNotFoundError => true | _ => false end.

(** A [for] loop that threads an accumulator. *)
Fixpoint foldM {W A B} (f : A -> B -> M W A) (a : A) (l : list B) : M W A :=
  match l with
  | [] => ret a
  | x :: l' => bind (f a x) (fun a' => foldM f a' l')
  end.

(** A [for] loop that appends one result per element. *)
Fixpoint mapM {W A B} (f : A -> M W B) (l : list A) : M W (list B) :=
  match l with
  | [] => ret []
  | x :: l' => bind (f x) (fun y => bind (mapM f l') (fun ys => ret (y :: ys)))
  end.

(** The value a run returned, if it returned. *)
Definition returned {A} (r : result A) : option A :=
  match r with
  | Ok a => Some a
  | Raise _ => None
  end.

End Effect.
Import Effect.

Declare Scope eff_scope.
Delimit Scope eff_scope with eff.
Notation "x <- c ;; k" := (bind c (fun x => k))
  (at level 61, c at next level, right associativity) : eff_scope.
Notation "' p <- c ;; k" := (bind c (fun x => let p := x in k))
  (at level 61, p pattern, c at next level, right associativity) : eff_scope.
Local Open Scope eff_scope.

(** ** JSON values, as [response.json()] hands them over *)

Module Json.

#[warnings="-register-all"]
Inductive json :=
| JNull
| JBool (b : bool)
| JNumber (q : Q)
| JString (s : str)
| JArray (items : list json)
| JObject (members : list (str * json)).

Fixpoint lookup (key : str) (members : list (str * json)) : option json :=
  match members with
  | [] => None
  | (k, v) :: rest => if str_eqb key k then Some v else lookup key rest
  end.

(** [value[key]] for a string key. *)
Definition getitem (value : json) (key : str) : result json :=
  match value with
  | JObject members =>
    match lookup key members with
    | Some v => Ok v
    | None => Raise KeyError
    end
  | _ => Raise TypeError
  end.

(** [value[0]]. *)
Definition getitem0 (value : json) : result json :=
  match value with
  | JArray (v :: _) => Ok v
  | JArray [] => Raise IndexError
  | JString (c :: _) => Ok (JString [c])
  | JString [] => Raise IndexError
  | JObject _ => Raise KeyError
  | _ => Raise TypeError
  end.

End Json.
Import Json.

(** ** The outside: subprocesses, HTTP, environment, clock *)

Module Outside.

(** The keyword arguments of the one [requests.post] call shape the script
    uses: the JSON body carries the model, one user message, a temperature
    and a token cap. *)
Record request := {
  url : str;
  headers : list (str * str);
  json_model : str;
  json_content : str;
  json_temperature : Q;
  json_max_tokens : Z;
  timeout : Z
}.

(** A [requests.Response]: [json_body] is what [response.json()] returns,
    [None] when the body is no JSON and the call raises. *)
Record response := {
  status_code : Z;
  json_body : option json
}.

(** What the script asks of its host over the world [W]:
    - [subprocess_run cmd] is [subprocess.run(cmd, capture_output=True,
      text=True, check=True).stdout]; it raises [CalledProcessError] on a
      non-zero exit status and [FileNotFoundError] when there is no such
      program;
    - [requests_post] is [requests.post];
    - [os_getenv] is [os.getenv];
    - [week_ago] is [(datetime.now() - timedelta(days=7)).strftime('%Y-%m-%d')]. *)
Class Host (W : Type) := {
  subprocess_run : list str -> M W str;
  requests_post : request -> M W response;
  os_getenv : str -> W -> option str;
  week_ago : W -> str
}.

End Outside.
Import Outside.

(** ** The script *)

Section Script.

Context {U : Unicode} {W : Type} {host : Host W}.

(** *** Builtins that read the Unicode tables *)

Fixpoint lstrip (s : str) : str :=
  match s with
  | [] => []
  | c :: s' => if isspace c then lstrip s' else s
  end.

Definition rstrip (s : str) : str := rev (lstrip (rev s)).

(** [s.strip()]. *)
Definition strip (s : str) : str := rstrip (lstrip s).

Definition isdigit (c : char) : bool :=
  match digit_value c with
  | Some _ => true
  | None => false
  end.

(** [sys.get_int_max_str_digits()] as the interpreter starts: [int] raises
    [ValueError] on a text of more digits (CPython from 3.11 on, and the
    security releases of 3.7 to 3.10); the script never changes the
    limit. *)
Definition int_max_str_digits : N := 4300.

(** [int(s)] on a run of decimal digits; the other spellings [int] accepts
    (a sign, blanks, underscores) raise here, and so does the empty text. *)
Fixpoint int_digits (acc : Z) (s : str) : result Z :=
  match s with
  | [] => Ok acc
  | c :: s' =>
    match digit_value c with
    | Some d => int_digits (10 * acc + Z.of_N d) s'
    | None => Raise ValueError
    end
  end.

Definition int (s : str) : result Z :=
  match s with
  | [] => Raise ValueError
  | _ :: _ =>
    if int_max_str_digits <? N.of_nat (length s) then Raise ValueError
    else int_digits 0 s
  end.

(** [p+] and then [k], greedy and backtracking, anchored at the head of
    [s]: the text [p+] took, when the whole matched. *)
Fixpoint re_plus (p : char -> bool) (k : str -> bool) (s : str) : option str :=
  match s with
  | [] => None
  | c :: s' =>
    if p c then
      match re_plus p k s' with
      | Some g => Some (c :: g)
      | None => if k s' then Some [c] else None
      end
    else None
  end.

Definition is_some {A} (o : option A) : bool :=
  match o with
  | Some _ => true
  | None => false
  end.

(** [re.match(r'(\d+)\s+' + word, s)], as [group(1)]. *)
Definition re_match_count (word : str) (s : str) : option str :=
  re_plus isdigit (fun rest => is_some (re_plus isspace (startswith word) rest)) s.

(** [re.search(r'(\d+)\s+' + word, line)], as [group(1)]: the leftmost
    position where the pattern matches. *)
Fixpoint re_search_count (word : str) (line : str) : option str :=
  match re_match_count word line with
  | Some g => Some g
  | None =>
    match line with
    | [] => None
    | _ :: line' => re_search_count word line'
    end
  end.

(** [sorted(keys, reverse=True)]: descending, equal keys in their first
    order.  The keys sorted here are those of a [dict] and so distinct. *)
Fixpoint insert_desc (k : str) (sorted : list str) : list str :=
  match sorted with
  | [] => [k]
  | k' :: rest => if str_ltb k k' then k' :: insert_desc k rest else k :: sorted
  end.

Fixpoint sorted_reverse (keys : list str) : list str :=
  match keys with
  | [] => []
  | k :: rest => insert_desc k (sorted_reverse rest)
  end.

(** *** Records *)

(** A commit [dict]: the four keys [get_commits_last_week] sets, and
    ['original_message'] once [enhance_commit_messages] has added it. *)
Record CommitRecord := {
  hash : str;
  author : str;
  date : str;
  message : str;
  original_message : option str
}.

(** The [dict] [get_commit_stats] returns. *)
Record CommitStats := {
  files_changed : Z;
  insertions : Z;
  deletions : Z
}.

Record LLMEnhancer := {
  api_key : option str;
  model : str;
  base_url : str
}.

Record GitWeeklyReport := {
  repo_path : str;
  use_llm : bool;
  llm : option LLMEnhancer;
  report_author : option str
}.

(** [a or b] on two [Optional[str]]. *)
Definition or_else (a b : option str) : option str :=
  if truthy a then a else b.

(** [f'{o}'] for an [Optional[str]]. *)
Definition format_opt (o : option str) : str :=
  match o with
  | Some s => s
  | None => lit "None"
  end.

(** *** LLMEnhancer *)

Definition LLMEnhancer_init (key : option str) (model_name : str) : M W LLMEnhancer :=
  fun w =>
    (Ok {| api_key := or_else key (os_getenv (lit "OPENROUTER_API_KEY") w);
           model := model_name;
           base_url := lit "https://openrouter.ai/api/v1/chat/completions" |}, w).

Definition default_model : str := lit "openai/gpt-3.5-turbo".

Definition llm_headers (self : LLMEnhancer) : list (str * str) :=
  [ (lit "Authorization", lit "Bearer " ++ format_opt (api_key self));
    (lit "Content-Type", lit "application/json");
    (lit "HTTP-Referer", lit "https://github.com/user/git-weekly-report");
    (lit "X-Title", lit "Git Weekly Report Generator") ].

(** [response.json()['choices'][0]['message']['content'].strip()]. *)
Definition completion_text (r : response) : result str :=
  match json_body r with
  | None => Raise JSONDecodeError
  | Some result =>
    and_then (getitem result (lit "choices")) (fun choices =>
    and_then (getitem0 choices) (fun choice =>
    and_then (getitem choice (lit "message")) (fun msg =>
    and_then (getitem msg (lit "content")) (fun content =>
    match content with
    | JString text => Ok (strip text)
    | _ => Raise AttributeError
    end))))
  end.

Definition enhance_prompt (message : str) : str :=
  lit "请将以下 git commit 消息翻译成中文，并进行适当的润色，使其更符合中文表达习惯。保持技术术语的准确性，让描述更加清晰易懂。

原始消息: " ++ message ++ lit "

请直接返回翻译润色后的中文消息，不要添加任何解释。".

(** The call [enhance_commit_message] makes. *)
Definition enhance_request (self : LLMEnhancer) (message : str) : request :=
  {| url := base_url self;
     headers := llm_headers self;
     json_model := model self;
     json_content := enhance_prompt message;
     json_temperature := 3 # 10;
     json_max_tokens := 100;
     timeout := 10 |}.

Definition enhance_commit_message (self : LLMEnhancer) (message : str) : M W str :=
  if negb (truthy (api_key self)) then ret message
  else
    try_except
      (response <- requests_post (enhance_request self message) ;;
       if (status_code response =? 200)%Z
       then lift (completion_text response)
       else ret message)
      Exception
      (ret message).

Definition is_empty {A} (l : list A) : bool :=
  match l with
  | [] => true
  | _ :: _ => false
  end.

Definition summary_prompt (commits : list CommitRecord) : str :=
  let commit_texts :=
    map (fun commit => lit "- " ++ author commit ++ lit ": " ++ message commit)
        (firstn 10 commits) in
  lit "基于以下本周的 git commit 记录，请生成一段简洁的中文工作总结（50-100字），突出主要成果和进展：

" ++ join [NL] commit_texts ++ lit "

请直接返回总结内容，不要添加任何标题或解释。".

(** The call [generate_summary] makes. *)
Definition summary_request (self : LLMEnhancer) (commits : list CommitRecord) : request :=
  {| url := base_url self;
     headers := llm_headers self;
     json_model := model self;
     json_content := summary_prompt commits;
     json_temperature := 5 # 10;
     json_max_tokens := 150;
     timeout := 15 |}.

Definition generate_summary (self : LLMEnhancer) (commits : list CommitRecord) : M W str :=
  if negb (truthy (api_key self)) || is_empty commits then ret []
  else
    try_except
      (response <- requests_post (summary_request self commits) ;;
       if (status_code response =? 200)%Z
       then lift (completion_text response)
       else ret [])
      Exception
      (ret []).

(** *** GitWeeklyReport *)

Definition GitWeeklyReport_init (repo : str) (with_llm : bool)
    (key : option str) (author_name : option str) : M W GitWeeklyReport :=
  if with_llm then
    enhancer <- LLMEnhancer_init key default_model ;;
    ret {| repo_path := repo; use_llm := with_llm; llm := Some enhancer;
           report_author := author_name |}
  else
    ret {| repo_path := repo; use_llm := with_llm; llm := None;
           report_author := author_name |}.

Definition git_log_cmd (self : GitWeeklyReport) (since_date : str) : list str :=
  [ lit "git"; lit "-C"; repo_path self; lit "log";
    lit "--since=" ++ since_date;
    lit "--pretty=format:%H|%an|%ad|%s";
    lit "--date=short";
    lit "--no-merges" ]
  ++ (if truthy (report_author self)
      then [lit "--author=" ++ format_opt (report_author self)]
      else []).

(** The body of the loop over the log lines: what one line appends. *)
Definition parse_log_line (line : str) : list CommitRecord :=
  if is_empty line then []
  else
    match split_max PIPE line 3 with
    | [p0; p1; p2; p3] =>
      [ {| hash := p0; author := p1; date := p2; message := p3;
           original_message := None |} ]
    | _ => []
    end.

Definition parse_log_lines (lines : list str) : list CommitRecord :=
  flat_map parse_log_line lines.

Definition get_commits_last_week (self : GitWeeklyReport) : M W (list CommitRecord) :=
  fun w =>
    let since_date := week_ago w in
    try_except
      (stdout <- subprocess_run (git_log_cmd self since_date) ;;
       ret (parse_log_lines (split NL (strip stdout))))
      (fun e => is_CalledProcessError e || is_FileNotFoundError e)
      (ret [])
      w.

Definition git_show_cmd (self : GitWeeklyReport) (commit_hash : str) : list str :=
  [ lit "git"; lit "-C"; repo_path self; lit "show";
    lit "--stat"; lit "--format="; commit_hash ].

Definition zero_stats : CommitStats :=
  {| files_changed := 0; insertions := 0; deletions := 0 |}.

(** [match = re.search(...); if match: stats[key] = int(match.group(1))]. *)
Definition read_count (word line : str) (current : Z) : result Z :=
  match re_search_count word line with
  | Some group1 => int group1
  | None => Ok current
  end.

(** [' file' in line and 'changed' in line]. *)
Definition is_summary_line (line : str) : bool :=
  contains (lit " file") line && contains (lit "changed") line.

(** The body of the loop over the lines of [git show --stat]. *)
Definition scan_stat_line (stats : CommitStats) (line : str) : result CommitStats :=
  if is_summary_line line then
    and_then (read_count (lit "file") line (files_changed stats)) (fun files =>
    and_then (read_count (lit "insertion") line (insertions stats)) (fun ins =>
    and_then (read_count (lit "deletion") line (deletions stats)) (fun dels =>
    Ok {| files_changed := files; insertions := ins; deletions := dels |})))
  else Ok stats.

Fixpoint scan_stat_lines (stats : CommitStats) (lines : list str) : result CommitStats :=
  match lines with
  | [] => Ok stats
  | line :: rest =>
    and_then (scan_stat_line stats line) (fun stats' => scan_stat_lines stats' rest)
  end.

Definition get_commit_stats (self : GitWeeklyReport) (commit_hash : str) : M W CommitStats :=
  try_except
    (stdout <- subprocess_run (git_show_cmd self commit_hash) ;;
     lift (scan_stat_lines zero_stats (split NL (strip stdout))))
    is_CalledProcessError
    (ret zero_stats).

(** [enhanced_commit = commit.copy()] with its two assignments. *)
Definition enhanced (commit : CommitRecord) (new_message : str) : CommitRecord :=
  {| hash := hash commit; author := author commit; date := date commit;
     message := new_message;
     original_message := Some (message commit) |}.

Definition enhance_commit_messages (self : GitWeeklyReport) (commits : list CommitRecord)
    : M W (list CommitRecord) :=
  match use_llm self, llm self with
  | true, Some enhancer =>
    mapM (fun commit =>
            new_message <- enhance_commit_message enhancer (message commit) ;;
            ret (enhanced commit new_message))
         commits
  | _, _ => ret commits
  end.

(** The six labels, in the order of the [dict] literal. *)
Definition label_feature : str := lit "功能开发".
Definition label_bugfix : str := lit "Bug修复".
Definition label_docs : str := lit "文档更新".
Definition label_refactor : str := lit "代码优化".
Definition label_test : str := lit "测试相关".
Definition label_other : str := lit "其他".

Definition labels : list str :=
  [label_feature; label_bugfix; label_docs; label_refactor; label_test; label_other].

Definition feature_keywords : list str :=
  map lit ["feat"; "feature"; "add"; "新增"; "添加"; "implement"; "create"].
Definition bugfix_keywords : list str :=
  map lit ["fix"; "bug"; "修复"; "解决"; "patch"; "resolve"].
Definition docs_keywords : list str :=
  map lit ["doc"; "readme"; "文档"; "说明"; "update"; "changelog"].
Definition refactor_keywords : list str :=
  map lit ["refactor"; "optimize"; "优化"; "重构"; "improve"; "enhance"].
Definition test_keywords : list str :=
  map lit ["test"; "测试"; "spec"; "unit"; "coverage"].

(** A [dict] from labels to lists of commits, in insertion order. *)
Definition buckets := list (str * list CommitRecord).

Definition empty_categories : buckets := map (fun label => (label, [])) labels.

(** [d[key].append(commit)], for a key that [d] has. *)
Fixpoint append_to (key : str) (commit : CommitRecord) (d : buckets) : buckets :=
  match d with
  | [] => []
  | (k, commits) :: rest =>
    if str_eqb key k then (k, commits ++ [commit]) :: rest
    else (k, commits) :: append_to key commit rest
  end.

(** The [if]/[elif] chain of the loop body: the label a message gets. *)
Definition category_of (message : str) : str :=
  let message := lower message in
  if any_in feature_keywords message then label_feature
  else if any_in bugfix_keywords message then label_bugfix
  else if any_in docs_keywords message then label_docs
  else if any_in refactor_keywords message then label_refactor
  else if any_in test_keywords message then label_test
  else label_other.

Definition categorize_commits (commits : list CommitRecord) : buckets :=
  fold_left (fun categories commit =>
               append_to (category_of (message commit)) commit categories)
            commits empty_categories.

(** *** generate_report *)

(** The document for no commits at all. *)
Definition no_commits_report (self : GitWeeklyReport) : str :=
  if truthy (report_author self)
  then lit "# 本周工作周报 - " ++ format_opt (report_author self) ++ lit "

本周暂无代码提交记录。
"
  else lit "# 本周工作周报

本周暂无代码提交记录。
".

(** [if date not in commits_by_date: commits_by_date[date] = []] and then
    [commits_by_date[date].append(commit)]. *)
Fixpoint add_by_date (d : buckets) (commit : CommitRecord) : buckets :=
  match d with
  | [] => [(date commit, [commit])]
  | (k, commits) :: rest =>
    if str_eqb (date commit) k then (k, commits ++ [commit]) :: rest
    else (k, commits) :: add_by_date rest commit
  end.

Definition group_by_date (commits : list CommitRecord) : buckets :=
  fold_left add_by_date commits [].

(** [d[key]], for a key that [d] has. *)
Fixpoint get (d : buckets) (key : str) : list CommitRecord :=
  match d with
  | [] => []
  | (k, commits) :: rest => if str_eqb key k then commits else get rest key
  end.

(** The loop that sums the three counts over the commits, one
    [get_commit_stats] call each. *)
Definition total_stats (self : GitWeeklyReport) (commits : list CommitRecord)
    : M W (Z * Z * Z) :=
  foldM (fun totals commit =>
           let '(total_files, total_insertions, total_deletions) := totals in
           stats <- get_commit_stats self (hash commit) ;;
           ret ((total_files + files_changed stats,
                 total_insertions + insertions stats,
                 total_deletions + deletions stats))%Z)
        (0, 0, 0)%Z commits.

Definition title_line (self : GitWeeklyReport) : str :=
  if truthy (report_author self)
  then lit "# 本周工作周报 - " ++ format_opt (report_author self)
  else lit "# 本周工作周报".

(** [commits[0]['date']] and [commits[-1]['date']]. *)
Definition first_date (commits : list CommitRecord) : str := hd [] (map date commits).
Definition last_date (commits : list CommitRecord) : str := last (map date commits) [].

Definition heading_lines (self : GitWeeklyReport) (commits : list CommitRecord) : list str :=
  [ title_line self;
    [];
    lit "**统计时间**: " ++ first_date commits ++ lit " ~ " ++ last_date commits;
    [] ].

Definition summary_lines (self : GitWeeklyReport) (commits : list CommitRecord)
    : M W (list str) :=
  match use_llm self, llm self with
  | true, Some enhancer =>
    summary <- generate_summary enhancer commits ;;
    ret (if is_empty summary then []
         else [lit "## 🎯 本周总结"; []; summary; []])
  | _, _ => ret []
  end.

Definition overview_lines (total_commits : nat)
    (total_files total_insertions total_deletions : Z) : list str :=
  [ lit "## 📊 统计概览";
    [];
    lit "- **提交次数**: " ++ str_of_nat total_commits ++ lit " 次";
    lit "- **文件变更**: " ++ str_of_Z total_files ++ lit " 个文件";
    lit "- **代码新增**: +" ++ str_of_Z total_insertions ++ lit " 行";
    lit "- **代码删除**: -" ++ str_of_Z total_deletions ++ lit " 行";
    [] ].

(** The lines one commit gets under its category. *)
Definition category_commit_lines (self : GitWeeklyReport) (commit : CommitRecord) : list str :=
  if use_llm self && is_some (original_message commit) then
    [ lit "- **" ++ author commit ++ lit "**: " ++ message commit;
      lit "  *原始*: " ++ format_opt (original_message commit) ]
  else
    [ lit "- **" ++ author commit ++ lit "**: " ++ message commit ].

Definition category_heading (category : str) (category_commits : list CommitRecord) : str :=
  lit "### " ++ category ++ lit " (" ++ str_of_nat (length category_commits) ++ lit ")".

(** The body of the loop over [categorized.items()]. *)
Definition category_lines (self : GitWeeklyReport) (item : str * list CommitRecord) : list str :=
  let (category, category_commits) := item in
  if is_empty category_commits then []
  else
    category_heading category category_commits
      :: flat_map (category_commit_lines self) category_commits ++ [[]].

Definition category_section (self : GitWeeklyReport) (categorized : buckets) : list str :=
  [lit "## 📋 工作分类"; []] ++ flat_map (category_lines self) categorized.

Definition date_commit_line (commit : CommitRecord) (stats : CommitStats) : str :=
  let stats_str :=
    lit "(" ++ str_of_Z (files_changed stats) ++ lit " 文件, +"
      ++ str_of_Z (insertions stats) ++ lit "/-"
      ++ str_of_Z (deletions stats) ++ lit ")" in
  lit "- **" ++ author commit ++ lit "** " ++ stats_str ++ lit ": " ++ message commit.

(** The body of the loop over the sorted dates. *)
Definition date_lines (self : GitWeeklyReport) (commits_by_date : buckets) (date : str)
    : M W (list str) :=
  let date_commits := get commits_by_date date in
  lines <- mapM (fun commit =>
                   stats <- get_commit_stats self (hash commit) ;;
                   ret (date_commit_line commit stats))
                date_commits ;;
  ret ((lit "### " ++ date) :: lines ++ [[]]).

Definition date_section (self : GitWeeklyReport) (commits_by_date : buckets)
    : M W (list str) :=
  groups <- mapM (date_lines self commits_by_date)
                 (sorted_reverse (map fst commits_by_date)) ;;
  ret ([lit "## 📅 每日详情"; []] ++ concat groups).

Definition generate_report (self : GitWeeklyReport) (commits : list CommitRecord) : M W str :=
  if is_empty commits then ret (no_commits_report self)
  else
    commits <- (if use_llm self then enhance_commit_messages self commits
                else ret commits) ;;
    let commits_by_date := group_by_date commits in
    let categorized := categorize_commits commits in
    let total_commits := length commits in
    totals <- total_stats self commits ;;
    let '(total_files, total_insertions, total_deletions) := totals in
    let report := heading_lines self commits in
    summary <- summary_lines self commits ;;
    let report :=
      report ++ summary
        ++ overview_lines total_commits total_files total_insertions total_deletions
        ++ category_section self categorized in
    dates <- date_section self commits_by_date ;;
    ret (join [NL] (report ++ dates)).

End Script.

(** ** Notions the statements use *)

(** A log line is well formed when [split('|', 3)] gives four fields. *)
Definition well_formed_line (line : str) : bool :=
  Nat.eqb (length (split_max PIPE line 3)) 4.

(** How often a character occurs in a text. *)
Definition occurrences (c : char) (s : str) : nat :=
  length (filter (N.eqb c) s).

(** The digits a text starts with, and the longest run of digits it
    holds. *)
Fixpoint digit_run {U : Unicode} (s : str) : nat :=
  match s with
  | [] => 0
  | c :: s' => if isdigit c then S (digit_run s') else 0
  end.

Fixpoint longest_digit_run {U : Unicode} (s : str) : nat :=
  match s with
  | [] => 0
  | _ :: s' => Nat.max (digit_run s) (longest_digit_run s')
  end.

(** A text whose numbers [int] reads: no run of digits is longer than the
    limit. *)
Definition int_readable {U : Unicode} (s : str) : Prop :=
  N.of_nat (longest_digit_run s) <= int_max_str_digits.

(** A number [int] reads back from its decimal text: one of no more digits
    than the limit; and a part of the summary line with such a number, or
    none. *)
Definition int_reads (n : N) : bool :=
  N.of_nat (length (str_of_N n)) <=? int_max_str_digits.

Definition part_reads (count : option N) : bool :=
  match count with
  | Some k => int_reads k
  | None => true
  end.

(** The host runs [git]: a subprocess call completes, or the program exits
    with a failure status; the program is never missing.  And what [git
    show --stat] prints holds no number beyond the limit of [int]: it
    counts files and lines in machine integers, and shortens the paths. *)
Definition git_runs {U : Unicode} {W} {host : Host W} : Prop :=
  (forall cmd w e w', subprocess_run cmd w = (Raise e, w') -> e = CalledProcessError)
  /\ (forall self commit_hash w stdout w',
        subprocess_run (git_show_cmd self commit_hash) w = (Ok stdout, w') ->
        int_readable stdout).

(** The tables read ASCII as ASCII does: the ten digits have their values,
    and the blank is white space and no digit. *)
Definition reads_ascii {U : Unicode} : Prop :=
  (forall d, d < 10 -> digit_value (48 + d) = Some d)
  /\ isspace 32 = true
  /\ digit_value 32 = None.

(** The line [git] prints for a commit that only touches files: some
    blanks, the count, " file" or " files", " changed". *)
Definition files_only_line (indent : nat) (n : N) (plural : bool) : str :=
  repeat 32 indent ++ str_of_N n ++ lit " file"
    ++ (if plural then lit "s" else []) ++ lit " changed".

(** Counts are no negative numbers. *)
Definition non_negative (stats : CommitStats) : Prop :=
  (0 <= files_changed stats /\ 0 <= insertions stats /\ 0 <= deletions stats)%Z.

(** The headings that open the sections of a report with commits. *)
Definition section_headings : list str :=
  [ lit "## 🎯 本周总结"; lit "## 📊 统计概览"; lit "## 📋 工作分类"; lit "## 📅 每日详情" ].

(** The members of a bucket list that hold a commit. *)
Definition non_empty_buckets (d : buckets) : buckets :=
  filter (fun item => negb (is_empty (snd item))) d.

(** Strictly descending, as [str] compares. *)
Definition descending (keys : list str) : Prop :=
  StronglySorted (fun a b => str_ltb b a = true) keys.

(** Two commits that differ at most in their message fields. *)
Definition same_identity (c c' : CommitRecord) : Prop :=
  hash c' = hash c /\ author c' = author c /\ date c' = date c.

(** The sum of one count over a list of stat records. *)
Definition total (field : CommitStats -> Z) (stats : list CommitStats) : Z :=
  fold_right Z.add 0%Z (map field stats).

(** The lines of one date with its commits, each with the stats fetched
    for it. *)
Definition date_group_lines (group : str * list (CommitRecord * CommitStats)) : list str :=
  (lit "### " ++ fst group)
    :: map (fun entry => date_commit_line (fst entry) (snd entry)) (snd group) ++ [[]].

(** The lines of one category that holds commits. *)
Definition category_group_lines (self : GitWeeklyReport) (item : str * list CommitRecord)
    : list str :=
  category_heading (fst item) (snd item)
    :: flat_map (category_commit_lines self) (snd item) ++ [[]].

(** Reads the digit in the goal with the first clause of [reads_ascii]. *)
Ltac read_digit D :=
  match goal with
  | |- context [digit_value ?c] =>
    let v := eval vm_compute in (c - 48) in
    rewrite (D v eq_refl : digit_value c = Some v)
  end.

(** ** Hosts and commits to run the script on *)

Module Examples.

(** A machine with [git] and no network: every subprocess prints
    [stat_output], every HTTP call raises. *)
Definition offline_host (stat_output : str) : Host unit := {|
  subprocess_run := fun _ w => (Ok stat_output, w);
  requests_post := fun _ w => (Raise OtherException, w);
  os_getenv := fun _ _ => None;
  week_ago := fun _ => lit "2024-01-04"
|}.

(** A chat completion carrying [text]. *)
Definition chat_completion (text : str) : response := {|
  status_code := 200;
  json_body :=
    Some (JObject [(lit "choices",
            JArray [JObject [(lit "message",
              JObject [(lit "content", JString text)])]])])
|}.

(** A machine whose API answers every call with [answer]; the world counts
    the calls. *)
Definition answering_host (answer : response) : Host nat := {|
  subprocess_run := fun _ w =>
    (Ok (lit " 3 files changed, 12 insertions(+), 1 deletion(-)
"), w);
  requests_post := fun _ w => (Ok answer, S w);
  os_getenv := fun _ _ => None;
  week_ago := fun _ => lit "2024-01-04"
|}.

Definition alice_commit : CommitRecord := {|
  hash := lit "a1"; author := lit "Alice"; date := lit "2024-01-10";
  message := lit "fix login bug"; original_message := None
|}.

Definition bob_commit : CommitRecord := {|
  hash := lit "b2"; author := lit "Bob"; date := lit "2024-01-10";
  message := lit "add new dashboard"; original_message := None
|}.

Definition carol_commit : CommitRecord := {|
  hash := lit "c3"; author := lit "Carol"; date := lit "2024-01-12";
  message := lit "Bump version"; original_message := None
|}.

(** The two commits of the end-to-end scenario. *)
Definition scenario : list CommitRecord := [alice_commit; bob_commit].

(** A generator without enhancement. *)
Definition plain (author_name : option str) : GitWeeklyReport := {|
  repo_path := lit "."; use_llm := false; llm := None;
  report_author := author_name
|}.

Definition enhancer (key : option str) : LLMEnhancer := {|
  api_key := key;
  model := default_model;
  base_url := lit "https://openrouter.ai/api/v1/chat/completions"
|}.

(** A generator with enhancement and the credential [key]. *)
Definition enhancing (key : option str) : GitWeeklyReport := {|
  repo_path := lit "."; use_llm := true; llm := Some (enhancer key);
  report_author := None
|}.

End Examples.

(** ** The rest of the script: the author list and the command line *)

Notation "c ;; k" := (bind c (fun _ => k))
  (at level 61, right associativity) : eff_scope.

Module CommandLine.

(** [subprocess.run(command, shell=True, capture_output=True, text=True,
    check=True, cwd=cwd).stdout], over the world [W]: it raises
    [CalledProcessError] when the shell exits with a failure status. *)
Class Shell (W : Type) := {
  shell_run : str -> str -> M W str
}.

(** [print(text)], and [open(path, 'w', encoding='utf-8')] followed by
    [f.write(text)]. *)
Class Terminal (W : Type) := {
  print : str -> M W unit;
  write_file : str -> str -> M W unit
}.

(** What [parser.parse_args()] returns. *)
Record Args := {
  arg_repo : str;
  arg_output : option str;
  arg_use_llm : bool;
  arg_api_key : option str;
  arg_model : str;
  arg_author : option str;
  arg_list_authors : bool
}.

End CommandLine.
Import CommandLine.

Section Authors.

Context {U : Unicode} {W : Type} {host : Host W} {shell : Shell W}
        {terminal : Terminal W}.

(** [sorted(names)]: ascending, equal names in their first order. *)
Fixpoint insert_asc (name : str) (sorted : list str) : list str :=
  match sorted with
  | [] => [name]
  | name' :: rest =>
    if str_ltb name' name then name' :: insert_asc name rest else name :: sorted
  end.

Fixpoint sorted (names : list str) : list str :=
  match names with
  | [] => []
  | name :: rest => insert_asc name (sorted rest)
  end.

(** [name in names]. *)
Definition mem (name : str) (names : list str) : bool :=
  existsb (str_eqb name) names.

(** [list(set(names))]: each name once.  The order a [set] yields its
    members in is not fixed; here it is that of the first occurrences, and
    the script sorts the list at once. *)
Fixpoint set_list (names : list str) : list str :=
  match names with
  | [] => []
  | name :: rest =>
    if mem name rest then set_list rest else name :: set_list rest
  end.

Definition authors_cmd (self : GitWeeklyReport) : list str :=
  [ lit "git"; lit "-C"; repo_path self; lit "log";
    lit "--pretty=format:%an";
    lit "--since=1.month ago";
    lit "--no-merges";
    lit "|"; lit "sort"; lit "|"; lit "uniq" ].

(** The body of the loop over the lines: what one line appends. *)
Definition author_of_line (line : str) : list str :=
  if is_empty (strip line) then [] else [strip line].

Definition get_all_authors (self : GitWeeklyReport) : M W (list str) :=
  try_except
    (stdout <- shell_run (join (lit " ") (authors_cmd self)) (repo_path self) ;;
     let authors := flat_map author_of_line (split NL (strip stdout)) in
     ret (sorted (set_list authors)))
    is_CalledProcessError
    (ret []).

(** [for i, author in enumerate(authors, 1): print(f"  {i}. {author}")],
    from the index [i] on. *)
Fixpoint print_authors (i : nat) (authors : list str) : M W unit :=
  match authors with
  | [] => ret tt
  | author :: rest =>
    print (lit "  " ++ str_of_nat i ++ lit ". " ++ author) ;;
    print_authors (S i) rest
  end.

(** [main] from the fetch on, once the author mode and the credential
    check are behind. *)
Definition fetch_and_report (args : Args) (generator : GitWeeklyReport) : M W unit :=
  (if truthy (arg_author args)
   then print (lit "正在获取作者 '" ++ format_opt (arg_author args)
                 ++ lit "' 最近一周的 git commit...")
   else print (lit "正在获取最近一周的 git commit...")) ;;
  commits <- get_commits_last_week generator ;;
  if is_empty commits then
    if truthy (arg_author args)
    then print (lit "未找到作者 '" ++ format_opt (arg_author args)
                  ++ lit "' 最近一周的提交记录")
    else print (lit "未找到最近一周的提交记录")
  else
    (if truthy (arg_author args)
     then print (lit "找到作者 '" ++ format_opt (arg_author args) ++ lit "' 的 "
                   ++ str_of_nat (length commits) ++ lit " 条提交记录")
     else print (lit "找到 " ++ str_of_nat (length commits) ++ lit " 条提交记录")) ;;
    print (lit "正在生成周报...") ;;
    report <- generate_report generator commits ;;
    if truthy (arg_output args) then
      write_file (format_opt (arg_output args)) report ;;
      print (lit "周报已保存到: " ++ format_opt (arg_output args))
    else
      print ([NL] ++ repeat 61 50) ;;
      print report.

(** [main], from the parsed arguments on.  The prints of [main] itself are
    kept; the functions it calls stay as they are above. *)
Definition main (args : Args) : M W unit :=
  generator <- GitWeeklyReport_init (arg_repo args) (arg_use_llm args)
                 (arg_api_key args) (arg_author args) ;;
  if arg_list_authors args then
    authors <- get_all_authors generator ;;
    if is_empty authors then print (lit "未找到作者信息")
    else
      print (lit "仓库中的作者列表:") ;;
      print_authors 1 authors
  else if arg_use_llm args then
    fun w =>
      let api_key :=
        or_else (arg_api_key args) (os_getenv (lit "OPENROUTER_API_KEY") w) in
      if negb (truthy api_key) then
        (print (lit "错误: 使用 LLM 功能需要提供 OpenRouter API Key") ;;
         print (lit "请通过 --api-key 参数或环境变量 OPENROUTER_API_KEY 设置")) w
      else
        (print (lit "使用 LLM 模型: " ++ arg_model args) ;;
         fetch_and_report args generator) w
  else fetch_and_report args generator.

End Authors.

(** ** Counting the calls a host serves *)

Module Instrument.

(** How many subprocesses and how many HTTP calls were made. *)
Record tally := {
  git_calls : nat;
  api_calls : nat
}.

Definition spend (t : tally) (git api : nat) : tally :=
  {| git_calls := git_calls t + git; api_calls := api_calls t + api |}.

(** The host [host], keeping count: it answers as [host] does, and every
    subprocess and every HTTP call adds one to its tally. *)
Definition counted {W} (host : Host W) : Host (W * tally) := {|
  subprocess_run := fun cmd s =>
    let (r, w') := subprocess_run cmd (fst s) in (r, (w', spend (snd s) 1 0));
  requests_post := fun req s =>
    let (r, w') := requests_post req (fst s) in (r, (w', spend (snd s) 0 1));
  os_getenv := fun name s => os_getenv name (fst s);
  week_ago := fun s => week_ago (fst s)
|}.

(** The calls [generate_report] owes for its enhancer: one per commit and
    one for the summary, when enhancement is on and has a credential. *)
Definition api_calls_due (self : GitWeeklyReport) (commits : nat) : nat :=
  match use_llm self, llm self with
  | true, Some enhancer => if truthy (api_key enhancer) then commits + 1 else 0
  | _, _ => 0
  end.

End Instrument.
Import Instrument.

(** ** More notions the statements use *)

(** The line [git log --pretty=format:%H|%an|%ad|%s] prints for a commit. *)
Definition format_log_line (c : CommitRecord) : str :=
  hash c ++ [PIPE] ++ author c ++ [PIPE] ++ date c ++ [PIPE] ++ message c.

(** A text that [strip] leaves as it is. *)
Definition trimmed {U : Unicode} (s : str) : Prop := strip s = s.

(** Strictly ascending, as [str] compares. *)
Definition ascending (names : list str) : Prop :=
  StronglySorted (fun a b => str_ltb a b = true) names.

(** What a commit parsed from a log line looks like: no separator in its
    first three fields, no line break anywhere, no original message. *)
Definition parsed (c : CommitRecord) : Prop :=
  original_message c = None
  /\ occurrences PIPE (hash c) = 0%nat
  /\ occurrences PIPE (author c) = 0%nat
  /\ occurrences PIPE (date c) = 0%nat
  /\ occurrences NL (format_log_line c) = 0%nat.

(** The counted run of a computation follows its plain run: when the plain
    run [c] returns, the run [c'] over the counting host returns the same
    and leaves the same world, with [git] subprocesses and [api] HTTP calls
    added to the tally. *)
Definition tracks {W A} (c : M W A) (c' : M (W * tally) A) (git api : nat) : Prop :=
  forall w t x w', c w = (Ok x, w') -> c' (w, t) = (Ok x, (w', spend t git api)).

(** No [git] on the machine: every subprocess fails to start. *)
Definition git_missing {W} {host : Host W} : Prop :=
  forall cmd w, subprocess_run cmd w = (Raise FileNotFoundError, w).

(** Newest first, as [git log] prints the commits: no commit is dated
    before one that comes after it. *)
Definition newest_first (commits : list CommitRecord) : Prop :=
  StronglySorted (fun earlier later => str_ltb earlier later = false) (map date commits).

(** The tables read printable ASCII as ASCII does: beyond [reads_ascii], no
    printable character but the blank is white space, and none but the ten
    digits is a digit. *)
Definition reads_printable {U : Unicode} : Prop :=
  reads_ascii
  /\ (forall c, 32 < c -> c < 127 -> isspace c = false)
  /\ (forall c, 32 <= c -> c < 127 -> c < 48 \/ 57 < c -> digit_value c = None).

(** The ending [git] gives a counted word. *)
Definition plural (n : N) : str := if n =? 1 then [] else lit "s".

(** One part of the summary line of [git show --stat], as
    ", 12 insertions(+)"; nothing when there is no such count. *)
Definition stat_part (count : option N) (word sign : str) : str :=
  match count with
  | Some k => lit ", " ++ str_of_N k ++ [32] ++ word ++ plural k ++ sign
  | None => []
  end.

(** The summary line of [git show --stat]: some blanks, the files, then
    the insertions and the deletions when it reports them. *)
Definition summary_line (indent : nat) (n : N) (added removed : option N) : str :=
  repeat 32 indent ++ str_of_N n ++ lit " file" ++ plural n ++ lit " changed"
    ++ stat_part added (lit "insertion") (lit "(+)")
    ++ stat_part removed (lit "deletion") (lit "(-)").

(** The count a part of the summary line stands for. *)
Definition count_of (count : option N) : Z :=
  match count with
  | Some k => Z.of_N k
  | None => 0%Z
  end.

(** Spells a literal out as its code points. *)
Ltac spell s := let v := eval vm_compute in (lit s) in change (lit s) with v.

(** The arguments [args] with another [--model]. *)
Definition with_model (m : str) (args : Args) : Args :=
  {| arg_repo := arg_repo args; arg_output := arg_output args;
     arg_use_llm := arg_use_llm args; arg_api_key := arg_api_key args;
     arg_model := m; arg_author := arg_author args;
     arg_list_authors := arg_list_authors args |}.

(** The lines of the author mode: the names numbered from [i] on, and the
    whole listing. *)
Definition numbered (i : nat) (authors : list str) : list str :=
  map (fun entry => lit "  " ++ str_of_nat (fst entry) ++ lit ". " ++ snd entry)
      (combine (seq i (length authors)) authors).

Definition author_listing (authors : list str) : list str :=
  if is_empty authors then [lit "未找到作者信息"]
  else lit "仓库中的作者列表:" :: numbered 1 authors.

(** [git] answers by the command alone: what a subprocess returns or
    raises does not depend on the world it runs in. *)
Definition git_answers {W} {host : Host W} (answer : list str -> result str) : Prop :=
  forall cmd w, fst (subprocess_run cmd w) = answer cmd.

(** ** More hosts *)

Module Machines.

(** A machine without [git]: the log command finds no program. *)
Definition gitless_host : Host unit := {|
  subprocess_run := fun _ w => (Raise FileNotFoundError, w);
  requests_post := fun _ w => (Raise OtherException, w);
  os_getenv := fun _ _ => None;
  week_ago := fun _ => lit "2024-01-04"
|}.

(** A machine whose [git] exits with a failure status. *)
Definition failing_git_host : Host unit := {|
  subprocess_run := fun _ w => (Raise CalledProcessError, w);
  requests_post := fun _ w => (Raise OtherException, w);
  os_getenv := fun _ _ => None;
  week_ago := fun _ => lit "2024-01-04"
|}.

(** A shell that prints [output] for every command. *)
Definition echo_shell (output : str) : Shell unit := {|
  shell_run := fun _ _ w => (Ok output, w)
|}.

(** A terminal that keeps what is printed and what is written, the world
    being the list of these texts. *)
Definition recording_terminal : Terminal (list str) := {|
  print := fun text w => (Ok tt, w ++ [text]);
  write_file := fun path text w => (Ok tt, w ++ [path; text])
|}.

(** A machine without network and without a credential in its
    environment, over the world of the recording terminal. *)
Definition bare_host : Host (list str) := {|
  subprocess_run := fun _ w => (Ok [], w);
  requests_post := fun _ w => (Raise OtherException, w);
  os_getenv := fun _ _ => None;
  week_ago := fun _ => lit "2024-01-04"
|}.

Definition bare_shell : Shell (list str) := {|
  shell_run := fun _ _ w => (Ok [], w)
|}.

End Machines.

(** ** Command lines to run *)

Module CommandLines.

(** A shell over the world of the recording terminal that prints [output]
    for every command. *)
Definition telling_shell (output : str) : Shell (list str) := {|
  shell_run := fun _ _ w => (Ok output, w)
|}.

(** [--list-authors]. *)
Definition list_authors_args : Args := {|
  arg_repo := lit "."; arg_output := None; arg_use_llm := false;
  arg_api_key := None; arg_model := default_model; arg_author := None;
  arg_list_authors := true
|}.

(** [--use-llm], with or without [--api-key]. *)
Definition use_llm_args (key : option str) : Args := {|
  arg_repo := lit "."; arg_output := None; arg_use_llm := true;
  arg_api_key := key; arg_model := default_model; arg_author := None;
  arg_list_authors := false
|}.

End CommandLines.

(** ** Facts about the text builtins *)

Section TextFacts.

Lemma str_eqb_refl (a : str) : str_eqb a a = true.
Proof.
  induction a as [|x a IH]; simpl; [reflexivity|].
  now rewrite N.eqb_refl, IH.
Qed.

Lemma str_eqb_eq (a b : str) : str_eqb a b = true <-> a = b.
Proof.
  split.
  - revert b; induction a as [|x a IH]; intros [|y b]; simpl; try discriminate; auto.
    intros E; apply andb_true_iff in E as [E1 E2].
    apply N.eqb_eq in E1; subst; f_equal; auto.
  - intros ->; apply str_eqb_refl.
Qed.

Lemma str_eqb_neq (a b : str) : str_eqb a b = false <-> a <> b.
Proof.
  rewrite <- str_eqb_eq.
  destruct (str_eqb a b); split; intros; congruence.
Qed.

Lemma startswith_iff (p s : str) : startswith p s = true <-> exists r, s = p ++ r.
Proof.
  revert s; induction p as [|x p IH]; intros s; simpl.
  - split; [exists s; reflexivity | reflexivity].
  - destruct s as [|y s].
    + split; [discriminate | intros [r E]; discriminate].
    + rewrite andb_true_iff, N.eqb_eq, IH.
      split.
      * intros [-> [r ->]]; exists r; reflexivity.
      * intros [r E]; injection E as -> ->; split; [reflexivity | exists r; reflexivity].
Qed.

(** [needle in hay] holds exactly when [hay] splits around [needle]. *)
Lemma contains_iff (needle hay : str) :
  contains needle hay = true <-> exists l r, hay = l ++ needle ++ r.
Proof.
  induction hay as [|c hay IH].
  - simpl. rewrite orb_false_r, startswith_iff. split.
    + intros [r E]; exists [], r; exact E.
    + intros [l [r E]]. destruct l; [exists r; exact E | discriminate].
  - cbn [contains]. rewrite orb_true_iff, startswith_iff, IH. split.
    + intros [[r E] | [l [r E]]].
      * exists [], r; exact E.
      * exists (c :: l), r; simpl; now rewrite E.
    + intros [[|x l] [r E]].
      * left; exists r; exact E.
      * right; injection E as -> E; exists l, r; exact E.
Qed.

Lemma contains_app (needle l r : str) : contains needle (l ++ needle ++ r) = true.
Proof. apply contains_iff; exists l, r; reflexivity. Qed.

(** Whoever holds [c :: needle] holds [needle]. *)
Lemma contains_tail (c : char) (needle hay : str) :
  contains (c :: needle) hay = true -> contains needle hay = true.
Proof.
  rewrite !contains_iff. intros [l [r E]].
  exists (l ++ [c]), r. now rewrite <- app_assoc.
Qed.

Lemma contains_self (s : str) : contains s s = true.
Proof. apply contains_iff; exists [], []; simpl; now rewrite app_nil_r. Qed.

(** What a part of a text holds, the text holds. *)
Lemma contains_middle (needle before s after : str) :
  contains needle s = true -> contains needle (before ++ s ++ after) = true.
Proof.
  rewrite !contains_iff. intros (l & r & ->).
  exists (before ++ l), (r ++ after). now rewrite <- !app_assoc.
Qed.

(** A line of a joined document is in the document. *)
Lemma join_holds_line (sep line : str) (lines : list str) :
  In line lines -> contains line (join sep lines) = true.
Proof.
  intros I. apply contains_iff.
  induction lines as [|p rest IH]; [destruct I|].
  destruct I as [-> | I].
  - destruct rest as [|q rest]; cbn [join].
    + exists [], []. now rewrite app_nil_r.
    + exists [], (sep ++ join sep (q :: rest)). reflexivity.
  - destruct (IH I) as (l & r & E).
    destruct rest as [|q rest]; [destruct I|].
    cbn [join] in *. rewrite E. exists (p ++ sep ++ l), r. now rewrite <- !app_assoc.
Qed.


Lemma occurrences_app (c : char) (a b : str) :
  occurrences c (a ++ b) = (occurrences c a + occurrences c b)%nat.
Proof. unfold occurrences. now rewrite filter_app, length_app. Qed.

(** A text with fewer occurrences of a character than the needle has
    cannot hold the needle. *)
Lemma contains_occurrences (c : char) (needle hay : str) :
  contains needle hay = true -> (occurrences c needle <= occurrences c hay)%nat.
Proof.
  intros E; apply contains_iff in E as [l [r ->]].
  rewrite !occurrences_app. lia.
Qed.

Lemma cons_head_length (c : char) (parts : list str) :
  parts <> [] -> length (cons_head c parts) = length parts.
Proof. destruct parts; [congruence | reflexivity]. Qed.

Lemma split_max_nonempty (sep : char) (s : str) (n : nat) : split_max sep s n <> [].
Proof.
  revert n; induction s as [|c s IH]; intros n; simpl; [discriminate|].
  destruct n; [discriminate|].
  destruct (c =? sep); [discriminate|].
  specialize (IH (S n)). destruct (split_max sep s (S n)); [congruence | discriminate].
Qed.

(** [split(sep, n)] cuts at the first [n] separators, and at fewer when the
    text has fewer. *)
Lemma split_max_length (sep : char) (s : str) (n : nat) :
  length (split_max sep s n) = S (Nat.min n (occurrences sep s)).
Proof.
  revert n; induction s as [|c s IH]; intros n.
  - simpl. now rewrite Nat.min_0_r.
  - destruct n as [|n]; [reflexivity|].
    cbn [split_max]. unfold occurrences; cbn [filter].
    rewrite (N.eqb_sym sep c).
    destruct (c =? sep).
    + cbn [length]. rewrite IH. unfold occurrences. lia.
    + rewrite cons_head_length by apply split_max_nonempty.
      rewrite IH. reflexivity.
Qed.

Lemma well_formed_line_iff (line : str) :
  well_formed_line line = true <-> (3 <= occurrences PIPE line)%nat.
Proof.
  unfold well_formed_line. rewrite split_max_length, Nat.eqb_eq. lia.
Qed.

End TextFacts.

(** ** The categorizer *)

Section Categorizer.

Context {U : Unicode}.

Lemma labels_distinct : NoDup labels.
Proof.
  unfold labels.
  repeat (constructor;
          [ cbn [In]; intros D;
            repeat (destruct D as [D | D]; [vm_compute in D; discriminate D|]);
            exact D | ]).
  constructor.
Qed.

Lemma map_unchanged (commit : CommitRecord) (key : str) (d : buckets) :
  ~ In key (map fst d) ->
  map (fun item : str * list CommitRecord =>
         (fst item, snd item ++ (if str_eqb key (fst item) then [commit] else []))) d = d.
Proof.
  induction d as [|[k cs] d IH]; intros N; [reflexivity|].
  cbn [map fst snd] in *.
  destruct (str_eqb key k) eqn:E.
  - apply str_eqb_eq in E. exfalso; apply N; now left.
  - rewrite app_nil_r, IH; [reflexivity | intros I; apply N; now right].
Qed.

(** With distinct keys, appending under a key touches that key's bucket and
    no other. *)
Lemma append_to_spec (key : str) (commit : CommitRecord) (d : buckets) :
  NoDup (map fst d) ->
  append_to key commit d =
  map (fun item => (fst item, snd item ++ (if str_eqb key (fst item) then [commit] else []))) d.
Proof.
  induction d as [|[k cs] d IH]; intros ND; [reflexivity|].
  cbn [append_to map fst snd].
  inversion ND as [|? ? NI ND']; subst.
  destruct (str_eqb key k) eqn:E.
  - apply str_eqb_eq in E; subst k. now rewrite map_unchanged.
  - rewrite app_nil_r, IH by assumption. reflexivity.
Qed.

Lemma append_to_keys (key : str) (commit : CommitRecord) (d : buckets) :
  map fst (append_to key commit d) = map fst d.
Proof.
  induction d as [|[k cs] d IH]; [reflexivity|].
  cbn [append_to]. destruct (str_eqb key k); cbn [map fst]; [reflexivity | now rewrite IH].
Qed.

(** The loop of [categorize_commits], from any buckets with distinct keys:
    each bucket gains, in order, the commits whose label is its key. *)
Lemma categorize_loop (f : CommitRecord -> str) (commits : list CommitRecord) (d : buckets) :
  NoDup (map fst d) ->
  fold_left (fun categories commit => append_to (f commit) commit categories) commits d =
  map (fun item =>
         (fst item, snd item ++ filter (fun c => str_eqb (f c) (fst item)) commits)) d.
Proof.
  revert d; induction commits as [|c commits IH]; intros d ND.
  - cbn [fold_left filter]. rewrite <- (map_id d) at 1. apply map_ext.
    intros [k cs]; cbn. now rewrite app_nil_r.
  - cbn [fold_left]. rewrite IH by (now rewrite append_to_keys).
    rewrite append_to_spec by assumption. rewrite map_map.
    apply map_ext. intros [k cs]; cbn [fst snd filter].
    rewrite <- app_assoc. destruct (str_eqb (f c) k); reflexivity.
Qed.

(** Each of the six buckets holds the commits of its label, in fetch order. *)
Lemma categorize_commits_spec (commits : list CommitRecord) :
  categorize_commits commits =
  map (fun label =>
         (label, filter (fun c => str_eqb (category_of (message c)) label) commits))
      labels.
Proof.
  unfold categorize_commits, empty_categories.
  rewrite categorize_loop.
  - rewrite map_map. reflexivity.
  - rewrite map_map. cbn [fst]. rewrite map_id. apply labels_distinct.
Qed.

Lemma category_of_label (m : str) : In (category_of m) labels.
Proof.
  unfold category_of, labels.
  repeat match goal with |- context [if ?b then _ else _] => destruct b end;
    cbn [In]; tauto.
Qed.

Lemma list_sum_cons (n : nat) (l : list nat) :
  list_sum (n :: l) = (n + list_sum l)%nat.
Proof. reflexivity. Qed.

Lemma list_sum_zero (A : Type) (l : list A) :
  list_sum (map (fun _ => 0%nat) l) = 0%nat.
Proof. induction l as [|x l IH]; [reflexivity|]. now rewrite map_cons, list_sum_cons, IH. Qed.

Lemma list_sum_add (A : Type) (a b : A -> nat) (l : list A) :
  list_sum (map (fun k => a k + b k)%nat l)
  = (list_sum (map a l) + list_sum (map b l))%nat.
Proof.
  induction l as [|x l IH]; [reflexivity|].
  rewrite !map_cons, !list_sum_cons, IH. lia.
Qed.

(** One key among distinct keys is met exactly once. *)
Lemma one_bucket_counts (key : str) (keys : list str) :
  NoDup keys -> In key keys ->
  list_sum (map (fun k => if str_eqb key k then 1 else 0)%nat keys) = 1%nat.
Proof.
  induction keys as [|k keys IH]; intros ND I; [destruct I|].
  inversion ND as [|? ? NI ND']; subst. rewrite map_cons, list_sum_cons.
  destruct (str_eqb key k) eqn:E.
  - apply str_eqb_eq in E; subst k.
    rewrite (map_ext_in _ (fun _ => 0%nat)); [now rewrite list_sum_zero|].
    intros k Ik. destruct (str_eqb key k) eqn:E; [|reflexivity].
    apply str_eqb_eq in E; subst k. contradiction.
  - destruct I as [-> | I]; [now rewrite str_eqb_refl in E|].
    now rewrite IH.
Qed.

(** The sizes of the buckets add up to the number of commits. *)
Lemma bucket_sizes_sum (f : CommitRecord -> str) (keys : list str) (commits : list CommitRecord) :
  NoDup keys -> (forall c, In (f c) keys) ->
  list_sum (map (fun k => length (filter (fun c => str_eqb (f c) k) commits)) keys)
  = length commits.
Proof.
  intros ND Hf. induction commits as [|c commits IH].
  - cbn [filter length]. apply list_sum_zero.
  - change (length (c :: commits)) with (1 + length commits)%nat.
    rewrite <- IH, <- (one_bucket_counts (f c) keys ND (Hf c)).
    rewrite <- list_sum_add. f_equal. apply map_ext. intros k.
    cbn [filter]. destruct (str_eqb (f c) k); reflexivity.
Qed.

Lemma any_in_of (keywords : list str) (keyword text : str) :
  In keyword keywords -> contains keyword text = true -> any_in keywords text = true.
Proof.
  intros I C. unfold any_in. apply existsb_exists. exists keyword; split; assumption.
Qed.

(** C1.  Categorization is total with a fixed priority.  The result always
    has the six labels, in order and pairwise distinct; each bucket holds,
    in fetch order, exactly the commits whose lower-cased message is given
    that label by the chain feature, bug fix, documentation, refactoring,
    tests, and else "other" (the first keyword list with a match wins);
    the bucket sizes add up to the number of commits, and a commit is in
    the bucket of its label and in no other.  A message holding a bug-fix
    keyword and a feature keyword lands in the feature bucket. *)
Theorem categorize_commits_total_priority (commits : list CommitRecord) :
  map fst (categorize_commits commits) = labels
  /\ NoDup labels
  /\ (forall label bucket, In (label, bucket) (categorize_commits commits) ->
        bucket = filter (fun c => str_eqb (category_of (message c)) label) commits)
  /\ list_sum (map (fun item => length (snd item)) (categorize_commits commits))
     = length commits
  /\ (forall c, In c commits ->
        In (category_of (message c)) labels
        /\ forall label bucket, In (label, bucket) (categorize_commits commits) ->
             (In c bucket <-> label = category_of (message c)))
  /\ (forall m, any_in feature_keywords (lower m) = true ->
        category_of m = label_feature)
  /\ (forall m, any_in feature_keywords (lower m) = false ->
        any_in bugfix_keywords (lower m) = true ->
        category_of m = label_bugfix)
  /\ (forall m, any_in feature_keywords (lower m) = false ->
        any_in bugfix_keywords (lower m) = false ->
        any_in docs_keywords (lower m) = true ->
        category_of m = label_docs)
  /\ (forall m, any_in feature_keywords (lower m) = false ->
        any_in bugfix_keywords (lower m) = false ->
        any_in docs_keywords (lower m) = false ->
        any_in refactor_keywords (lower m) = true ->
        category_of m = label_refactor)
  /\ (forall m, any_in feature_keywords (lower m) = false ->
        any_in bugfix_keywords (lower m) = false ->
        any_in docs_keywords (lower m) = false ->
        any_in refactor_keywords (lower m) = false ->
        any_in test_keywords (lower m) = true ->
        category_of m = label_test)
  /\ (forall m, any_in feature_keywords (lower m) = false ->
        any_in bugfix_keywords (lower m) = false ->
        any_in docs_keywords (lower m) = false ->
        any_in refactor_keywords (lower m) = false ->
        any_in test_keywords (lower m) = false ->
        category_of m = label_other)
  /\ (forall m feature_keyword bugfix_keyword,
        In feature_keyword feature_keywords ->
        In bugfix_keyword bugfix_keywords ->
        contains feature_keyword (lower m) = true ->
        contains bugfix_keyword (lower m) = true ->
        category_of m = label_feature).
Proof.
  pose proof (categorize_commits_spec commits) as S.
  assert (Hin : forall label bucket, In (label, bucket) (categorize_commits commits) ->
            bucket = filter (fun c => str_eqb (category_of (message c)) label) commits).
  { intros label bucket I. rewrite S in I. apply in_map_iff in I as [l [E _]].
    now inversion E; subst. }
  split; [rewrite S, map_map; cbn [fst]; apply map_id|].
  split; [apply labels_distinct|].
  split; [exact Hin|].
  split.
  { rewrite S, map_map. cbn [snd].
    apply (bucket_sizes_sum (fun c => category_of (message c)) labels commits labels_distinct).
    intros c; apply category_of_label. }
  split.
  { intros c Ic. split; [apply category_of_label|].
    intros label bucket Ib. rewrite (Hin _ _ Ib), filter_In, str_eqb_eq.
    split; [intros [_ E]; now symmetry | intros ->; now split]. }
  unfold category_of.
  split; [intros m E; now rewrite E|].
  split; [intros m E1 E2; now rewrite E1, E2|].
  split; [intros m E1 E2 E3; now rewrite E1, E2, E3|].
  split; [intros m E1 E2 E3 E4; now rewrite E1, E2, E3, E4|].
  split; [intros m E1 E2 E3 E4 E5; now rewrite E1, E2, E3, E4, E5|].
  split; [intros m E1 E2 E3 E4 E5; now rewrite E1, E2, E3, E4, E5|].
  intros m kf kb If _ Cf _. now rewrite (any_in_of _ _ _ If Cf).
Qed.

End Categorizer.

(** C1 at work: with the ASCII tables, "Fix crash and add retry" holds the
    bug-fix keyword "fix" and the feature keyword "add", and is a feature. *)
Lemma categorize_commits_total_priority_witness :
  category_of (U := ascii_tables) (lit "Fix crash and add retry") = label_feature.
Proof.
  destruct (categorize_commits_total_priority (U := ascii_tables) Examples.scenario)
    as (_ & _ & _ & _ & _ & _ & _ & _ & _ & _ & _ & both).
  apply (both _ (lit "add") (lit "fix")).
  - vm_compute. tauto.
  - vm_compute. tauto.
  - vm_compute. reflexivity.
  - vm_compute. reflexivity.
Defined.

(** The scenario's two commits: Alice's fix is a bug fix, Bob's addition a
    feature, and the four other buckets stay empty. *)
Example categorize_scenario :
  categorize_commits (U := ascii_tables) Examples.scenario =
  [ (label_feature, [Examples.bob_commit]);
    (label_bugfix, [Examples.alice_commit]);
    (label_docs, []); (label_refactor, []); (label_test, []); (label_other, []) ].
Proof. vm_compute. reflexivity. Qed.

(** ** Stripping the output of [git log] *)

Section Stripping.

Context {U : Unicode}.

Hypothesis pipe_not_space : isspace PIPE = false.

Lemma well_formed_line_occurrences (a b : str) :
  occurrences PIPE a = occurrences PIPE b -> well_formed_line a = well_formed_line b.
Proof.
  intros E. unfold well_formed_line. now rewrite !split_max_length, E.
Qed.

Lemma split_nonempty (sep : char) (s : str) : split sep s <> [].
Proof.
  induction s as [|c s IH]; cbn [split]; [discriminate|].
  destruct (c =? sep); [discriminate|].
  destruct (split sep s); [congruence | discriminate].
Qed.

(** A white-space character in front of the output changes no count. *)
Lemma count_well_formed_space (c : char) (s : str) :
  isspace c = true ->
  length (filter well_formed_line (split NL (c :: s)))
  = length (filter well_formed_line (split NL s)).
Proof.
  intros Sp. cbn [split]. destruct (c =? NL); [reflexivity|].
  pose proof (split_nonempty NL s) as NE.
  destruct (split NL s) as [|line lines]; [congruence|].
  cbn [cons_head filter].
  rewrite (well_formed_line_occurrences (c :: line) line);
    [destruct (well_formed_line line); reflexivity|].
  unfold occurrences. cbn [filter].
  destruct (PIPE =? c) eqn:E; [|reflexivity].
  apply N.eqb_eq in E; subst c. congruence.
Qed.

Lemma count_well_formed_lstrip (s : str) :
  length (filter well_formed_line (split NL (lstrip s)))
  = length (filter well_formed_line (split NL s)).
Proof.
  induction s as [|c s IH]; [reflexivity|].
  cbn [lstrip]. destruct (isspace c) eqn:Sp; [|reflexivity].
  now rewrite IH, count_well_formed_space.
Qed.

(** Splitting a text with one more character at its end. *)
Lemma split_snoc (sep c : char) (s : str) :
  split sep (s ++ [c])
  = if c =? sep then split sep s ++ [[]]
    else removelast (split sep s) ++ [last (split sep s) [] ++ [c]].
Proof.
  induction s as [|x s IH].
  - cbn [app split]. destruct (c =? sep); reflexivity.
  - cbn [app split]. rewrite IH.
    pose proof (split_nonempty sep s) as NE.
    destruct (x =? sep), (c =? sep); try reflexivity.
    + destruct (split sep s) as [|l ls]; [congruence | reflexivity].
    + destruct (split sep s) as [|l ls]; [congruence | reflexivity].
    + destruct (split sep s) as [|l ls]; [congruence|].
      destruct ls as [|l' ls]; [reflexivity|].
      cbn [removelast last app cons_head]. reflexivity.
Qed.

Lemma split_rev (sep : char) (s : str) :
  split sep (rev s) = rev (map (@rev char) (split sep s)).
Proof.
  induction s as [|c s IH]; [reflexivity|].
  cbn [rev split]. rewrite split_snoc, IH.
  pose proof (split_nonempty sep s) as NE.
  destruct (c =? sep).
  - cbn [map rev]. reflexivity.
  - destruct (split sep s) as [|l ls]; [congruence|].
    cbn [cons_head map rev].
    rewrite removelast_last, last_last. reflexivity.
Qed.

Lemma occurrences_rev (c : char) (s : str) : occurrences c (rev s) = occurrences c s.
Proof.
  induction s as [|x s IH]; [reflexivity|].
  cbn [rev]. rewrite occurrences_app, IH. unfold occurrences. cbn [filter].
  destruct (c =? x); cbn [length]; lia.
Qed.

Lemma count_well_formed_rev (s : str) :
  length (filter well_formed_line (split NL (rev s)))
  = length (filter well_formed_line (split NL s)).
Proof.
  rewrite split_rev. generalize (split NL s) as lines.
  induction lines as [|l lines IH]; [reflexivity|].
  change (rev (map (@rev char) (l :: lines)))
    with (rev (map (@rev char) lines) ++ [rev l]).
  unfold str in *. rewrite filter_app, length_app, IH. cbn [filter].
  rewrite (well_formed_line_occurrences (rev l) l (occurrences_rev PIPE l)).
  destruct (well_formed_line l); cbn [length]; lia.
Qed.

(** Stripping the output changes no count of well-formed lines. *)
Lemma count_well_formed_strip (s : str) :
  length (filter well_formed_line (split NL (strip s)))
  = length (filter well_formed_line (split NL s)).
Proof.
  unfold strip, rstrip.
  now rewrite count_well_formed_rev, count_well_formed_lstrip, count_well_formed_rev,
    count_well_formed_lstrip.
Qed.

End Stripping.

(** ** The history fetcher *)

Section History.

Context {U : Unicode} {W : Type} {host : Host W}.

(** Joining what [split(sep, n)] cut gives the text back. *)
Lemma split_max_join (sep : char) (s : str) (n : nat) :
  join [sep] (split_max sep s n) = s.
Proof.
  revert n; induction s as [|c s IH]; intros n; [reflexivity|].
  destruct n as [|n]; [reflexivity|].
  cbn [split_max]. destruct (c =? sep) eqn:E.
  - apply N.eqb_eq in E; subst c. specialize (IH n).
    pose proof (split_max_nonempty sep s n) as NE.
    destruct (split_max sep s n) as [|p ps]; [congruence|].
    cbn [join]. cbn [join] in IH. now rewrite IH.
  - specialize (IH (S n)).
    pose proof (split_max_nonempty sep s (S n)) as NE.
    destruct (split_max sep s (S n)) as [|p ps]; [congruence|].
    cbn [cons_head]. destruct ps as [|q ps]; cbn [join] in *; now rewrite <- IH.
Qed.

(** No field but the last holds the separator. *)
Lemma split_max_fields (sep : char) (s : str) (n : nat) :
  Forall (fun field => occurrences sep field = 0%nat) (removelast (split_max sep s n)).
Proof.
  revert n; induction s as [|c s IH]; intros n; [constructor|].
  destruct n as [|n]; [constructor|].
  cbn [split_max]. destruct (c =? sep) eqn:E.
  - pose proof (split_max_nonempty sep s n) as NE. specialize (IH n).
    destruct (split_max sep s n) as [|p ps]; [congruence|].
    cbn [removelast]. constructor; [reflexivity | exact IH].
  - pose proof (split_max_nonempty sep s (S n)) as NE. specialize (IH (S n)).
    destruct (split_max sep s (S n)) as [|p ps]; [congruence|].
    cbn [cons_head]. destruct ps as [|q ps]; [constructor|].
    cbn [removelast] in *. inversion IH as [|? ? Hp Hps]; subst.
    constructor; [|exact Hps].
    unfold occurrences in *. cbn [filter]. rewrite N.eqb_sym, E. exact Hp.
Qed.

Lemma parse_log_line_malformed (line : str) :
  well_formed_line line = false -> parse_log_line line = [].
Proof.
  unfold well_formed_line, parse_log_line. intros E.
  destruct (is_empty line); [reflexivity|].
  destruct (split_max PIPE line 3) as [|p0 [|p1 [|p2 [|p3 [|p4 ps]]]]]; try reflexivity.
  discriminate E.
Qed.

(** A well-formed line gives one commit: its fields are the line cut at
    its first three pipes. *)
Lemma parse_log_line_well_formed (line : str) :
  well_formed_line line = true ->
  exists c, parse_log_line line = [c]
    /\ original_message c = None
    /\ line = hash c ++ [PIPE] ++ author c ++ [PIPE] ++ date c ++ [PIPE] ++ message c
    /\ occurrences PIPE (hash c) = 0%nat
    /\ occurrences PIPE (author c) = 0%nat
    /\ occurrences PIPE (date c) = 0%nat.
Proof.
  unfold well_formed_line, parse_log_line. intros E.
  pose proof (split_max_join PIPE line 3) as J.
  pose proof (split_max_fields PIPE line 3) as F.
  destruct line as [|c line]; [discriminate E|]. cbn [is_empty].
  destruct (split_max PIPE (c :: line) 3) as [|p0 [|p1 [|p2 [|p3 [|p4 ps]]]]];
    try discriminate E.
  eexists; split; [reflexivity|]. cbn [hash author date message original_message].
  cbn [removelast] in F.
  inversion F as [|? ? F0 F']; subst. inversion F' as [|? ? F1 F'']; subst.
  inversion F'' as [|? ? F2 _]; subst.
  cbn [join] in J. repeat split; auto.
Qed.

Lemma parse_log_lines_app (before after : list str) :
  parse_log_lines (before ++ after) = parse_log_lines before ++ parse_log_lines after.
Proof. apply flat_map_app. Qed.

Lemma parse_log_lines_length (lines : list str) :
  length (parse_log_lines lines) = length (filter well_formed_line lines).
Proof.
  induction lines as [|line lines IH]; [reflexivity|].
  unfold parse_log_lines in *. cbn [flat_map filter]. rewrite length_app, IH.
  destruct (well_formed_line line) eqn:E.
  - destruct (parse_log_line_well_formed line E) as [c [-> _]]. reflexivity.
  - now rewrite (parse_log_line_malformed line E).
Qed.

(** C2.  The parsed commit sequence is as long as the log has well-formed
    lines.  A line is well formed when [split('|', 3)] cuts it in four,
    that is when it holds at least three pipes: it then gives one commit
    whose hash, author and date are the pipe-free fields before the first
    three pipes and whose message is the rest.  Any other line gives
    nothing, and leaves what the lines around it give as it was.  That is
    what [get_commits_last_week] returns for the lines of the stripped
    output of a completed [git log]; and stripping changes no count (the
    pipe being no white space): the commits returned are as many as the
    raw output has well-formed lines. *)
Theorem parse_log_counts_well_formed_lines (lines : list str) :
  length (parse_log_lines lines) = length (filter well_formed_line lines)
  /\ (forall line,
        well_formed_line line = true <-> (3 <= occurrences PIPE line)%nat)
  /\ (forall line, well_formed_line line = true ->
        exists c, parse_log_line line = [c]
          /\ original_message c = None
          /\ line = hash c ++ [PIPE] ++ author c ++ [PIPE] ++ date c ++ [PIPE] ++ message c
          /\ occurrences PIPE (hash c) = 0%nat
          /\ occurrences PIPE (author c) = 0%nat
          /\ occurrences PIPE (date c) = 0%nat)
  /\ (forall line, well_formed_line line = false -> parse_log_line line = [])
  /\ (forall before line after, lines = before ++ line :: after ->
        well_formed_line line = false ->
        parse_log_lines lines = parse_log_lines before ++ parse_log_lines after)
  /\ (forall before line after, lines = before ++ line :: after ->
        parse_log_lines lines
        = parse_log_lines before ++ parse_log_line line ++ parse_log_lines after)
  /\ (forall (self : GitWeeklyReport) w stdout w',
        subprocess_run (git_log_cmd self (week_ago w)) w = (Ok stdout, w') ->
        lines = split NL (strip stdout) ->
        get_commits_last_week self w = (Ok (parse_log_lines lines), w'))
  /\ (isspace PIPE = false ->
      forall (self : GitWeeklyReport) w stdout w',
        subprocess_run (git_log_cmd self (week_ago w)) w = (Ok stdout, w') ->
        exists commits,
          get_commits_last_week self w = (Ok commits, w')
          /\ length commits = length (filter well_formed_line (split NL stdout))).
Proof.
  split; [apply parse_log_lines_length|].
  split; [apply well_formed_line_iff|].
  split; [apply parse_log_line_well_formed|].
  split; [apply parse_log_line_malformed|].
  split; [|split; [|split]].
  - intros before line after -> E. rewrite parse_log_lines_app.
    unfold parse_log_lines at 2. cbn [flat_map].
    now rewrite (parse_log_line_malformed line E).
  - intros before line after ->. now rewrite parse_log_lines_app.
  - intros self w stdout w' R ->.
    unfold get_commits_last_week, try_except, bind. rewrite R. reflexivity.
  - intros P self w stdout w' R. eexists. split.
    + unfold get_commits_last_week, try_except, bind. rewrite R. reflexivity.
    + rewrite parse_log_lines_length. now apply count_well_formed_strip.
Qed.

End History.

(** C2 at work: of three lines, one with a pipe in its message, the
    malformed middle one is dropped. *)
Lemma parse_log_counts_well_formed_lines_witness :
  parse_log_lines
    [lit "a1|Alice|2024-01-10|fix a|b"; lit "no pipes here"; lit "b2|Bob|2024-01-09|add"]
  = parse_log_lines [lit "a1|Alice|2024-01-10|fix a|b"]
      ++ parse_log_lines [lit "b2|Bob|2024-01-09|add"].
Proof.
  destruct (parse_log_counts_well_formed_lines
              (U := ascii_tables) (host := Examples.offline_host [])
              [lit "a1|Alice|2024-01-10|fix a|b"; lit "no pipes here";
               lit "b2|Bob|2024-01-09|add"])
    as (_ & _ & _ & _ & skip & _).
  apply (skip [lit "a1|Alice|2024-01-10|fix a|b"] (lit "no pipes here")
              [lit "b2|Bob|2024-01-09|add"]).
  - reflexivity.
  - vm_compute. reflexivity.
Defined.

Example parse_log_example :
  map (fun c => (hash c, message c))
      (parse_log_lines
         [lit "a1|Alice|2024-01-10|fix a|b"; lit "no pipes here"; lit ""; lit "b2|Bob|2024-01-09|add"])
  = [(lit "a1", lit "fix a|b"); (lit "b2", lit "add")].
Proof. vm_compute. reflexivity. Qed.

(** ** Decimal counts *)

Section Decimals.

Context {U : Unicode}.

Hypothesis ascii : reads_ascii.

Lemma ascii_digit (d : N) : d < 10 -> isdigit (48 + d) = true.
Proof. intros L. unfold isdigit. destruct ascii as (D & _). now rewrite (D d L). Qed.

(** What [str] prints is made of the ten ASCII digits. *)
Lemma uint_chars_digits (d : Decimal.uint) :
  Forall (fun c => exists v, v < 10 /\ c = 48 + v) (uint_chars d).
Proof.
  induction d; cbn [uint_chars]; constructor; try assumption.
  - exists 0; split; [lia | reflexivity].
  - exists 1; split; [lia | reflexivity].
  - exists 2; split; [lia | reflexivity].
  - exists 3; split; [lia | reflexivity].
  - exists 4; split; [lia | reflexivity].
  - exists 5; split; [lia | reflexivity].
  - exists 6; split; [lia | reflexivity].
  - exists 7; split; [lia | reflexivity].
  - exists 8; split; [lia | reflexivity].
  - exists 9; split; [lia | reflexivity].
Qed.

Lemma uint_chars_isdigit (d : Decimal.uint) : forallb isdigit (uint_chars d) = true.
Proof.
  apply forallb_forall. intros c I.
  pose proof (uint_chars_digits d) as F. rewrite Forall_forall in F.
  destruct (F c I) as (v & L & ->). now apply ascii_digit.
Qed.

Lemma uint_chars_free (c : char) (d : Decimal.uint) :
  c < 48 \/ 57 < c -> occurrences c (uint_chars d) = 0%nat.
Proof.
  intros Out. unfold occurrences.
  pose proof (uint_chars_digits d) as F.
  induction F as [|x l (v & L & ->) F IH]; [reflexivity|].
  cbn [filter]. destruct (c =? 48 + v) eqn:E; [apply N.eqb_eq in E; lia | exact IH].
Qed.

(** [int] reads a run of digits as Horner's rule does. *)
Lemma int_digits_acc (d : Decimal.uint) (p : positive) :
  int_digits (Zpos p) (uint_chars d) = Ok (Zpos (Pos.of_uint_acc d p)).
Proof.
  destruct ascii as (D & _).
  revert p; induction d; intros p; cbn [uint_chars int_digits Pos.of_uint_acc];
    [reflexivity | read_digit D; cbn [Z.of_N]; rewrite <- IHd; f_equal; try lia ..].
Qed.

Lemma int_digits_uint (d : Decimal.uint) :
  int_digits 0 (uint_chars d) = Ok (Z.of_N (N.of_uint d)).
Proof.
  destruct ascii as (D & _).
  unfold N.of_uint.
  induction d; cbn [uint_chars int_digits Pos.of_uint];
    [reflexivity | read_digit D; first [exact IHd | apply int_digits_acc] ..].
Qed.

Lemma str_of_N_nonempty (n : N) : str_of_N n <> [].
Proof.
  unfold str_of_N. destruct n as [|p]; [discriminate|].
  cbn [N.to_uint]. pose proof (DecimalPos.Unsigned.to_uint_nonnil p) as NN.
  destruct (Pos.to_uint p); [congruence | | | | | | | | | |]; discriminate.
Qed.

(** [int(str(n))] is [n], for an [n] within the limit of [int]. *)
Lemma int_str_of_N (n : N) :
  N.of_nat (length (str_of_N n)) <= int_max_str_digits ->
  int (str_of_N n) = Ok (Z.of_N n).
Proof.
  intros L. pose proof (str_of_N_nonempty n) as NE. unfold int.
  destruct (str_of_N n) as [|c s] eqn:E; [congruence|].
  rewrite (proj2 (N.ltb_ge _ _) L). rewrite <- E.
  unfold str_of_N. rewrite int_digits_uint.
  now rewrite DecimalN.Unsigned.of_to.
Qed.

(** Beyond the limit [int] raises. *)
Lemma int_beyond_limit (s : str) :
  int_max_str_digits < N.of_nat (length s) -> int s = Raise ValueError.
Proof.
  intros L. unfold int. destruct s as [|c s]; [reflexivity|].
  now rewrite (proj2 (N.ltb_lt _ _) L).
Qed.

Lemma int_of_count (n : N) :
  int (str_of_N n) = if int_reads n then Ok (Z.of_N n) else Raise ValueError.
Proof.
  unfold int_reads.
  destruct (N.leb_spec (N.of_nat (length (str_of_N n))) int_max_str_digits) as [B | B].
  - now apply int_str_of_N.
  - now apply int_beyond_limit.
Qed.

(** Greedy [p+]: a run of [p] that ends where [p] fails is taken whole,
    when [k] accepts what follows. *)
Lemma re_plus_greedy (p : char -> bool) (k : str -> bool) (g rest : str) :
  g <> [] -> forallb p g = true ->
  match rest with [] => True | c :: _ => p c = false end ->
  k rest = true ->
  re_plus p k (g ++ rest) = Some g.
Proof.
  intros NE A Stop K. induction g as [|c g IH]; [congruence|].
  cbn [forallb] in A. apply andb_true_iff in A as [Pc A].
  cbn [app re_plus]. rewrite Pc.
  destruct g as [|c' g].
  - cbn [app]. assert (N : re_plus p k rest = None).
    { destruct rest as [|x rest]; [reflexivity|]. cbn [re_plus]. now rewrite Stop. }
    now rewrite N, K.
  - rewrite IH; [reflexivity | discriminate | exact A].
Qed.

Lemma re_plus_one_space (word rest : str) :
  startswith word rest = true ->
  is_some (re_plus isspace (startswith word) (32 :: rest)) = true.
Proof.
  intros S. destruct ascii as (_ & Sp & _). cbn [re_plus]. rewrite Sp.
  destruct (re_plus isspace (startswith word) rest); [reflexivity|]. now rewrite S.
Qed.

(** The count is found behind any indentation by blanks. *)
Lemma re_search_count_found (indent : nat) (n : N) (word rest : str) :
  re_search_count word (repeat 32 indent ++ str_of_N n ++ 32 :: word ++ rest)
  = Some (str_of_N n).
Proof.
  destruct ascii as (_ & _ & Nd).
  induction indent as [|indent IH].
  - cbn [repeat app].
    assert (R : re_match_count word (str_of_N n ++ 32 :: word ++ rest) = Some (str_of_N n)).
    { unfold re_match_count. apply re_plus_greedy.
      - apply str_of_N_nonempty.
      - apply uint_chars_isdigit.
      - unfold isdigit. now rewrite Nd.
      - apply re_plus_one_space. apply startswith_iff. now exists rest. }
    destruct (str_of_N n ++ 32 :: word ++ rest); cbn [re_search_count]; now rewrite R.
  - cbn [repeat app re_search_count]. unfold re_match_count at 1. cbn [re_plus].
    unfold isdigit at 1. rewrite Nd. exact IH.
Qed.

Lemma occurrences_repeat (c x : char) (k : nat) :
  c <> x -> occurrences c (repeat x k) = 0%nat.
Proof.
  intros N. unfold occurrences. induction k as [|k IH]; [reflexivity|].
  cbn [repeat filter]. now rewrite (proj2 (N.eqb_neq c x) N).
Qed.

Lemma files_only_line_summary (indent : nat) (n : N) (plural : bool) :
  is_summary_line (files_only_line indent n plural) = true.
Proof.
  unfold is_summary_line, files_only_line. apply andb_true_iff. split.
  - rewrite app_assoc. apply contains_app.
  - apply contains_iff.
    exists (repeat 32 indent ++ str_of_N n ++ lit " file"
              ++ (if plural then lit "s" else []) ++ [32]), [].
    rewrite <- !app_assoc. reflexivity.
Qed.

Lemma files_only_line_no_o (indent : nat) (n : N) (plural : bool) :
  occurrences 111 (files_only_line indent n plural) = 0%nat.
Proof.
  unfold files_only_line. rewrite !occurrences_app.
  rewrite occurrences_repeat by discriminate.
  unfold str_of_N. rewrite uint_chars_free by (right; reflexivity).
  destruct plural; reflexivity.
Qed.

Lemma files_only_line_rest (indent : nat) (n : N) (plural : bool) (word : str) :
  occurrences 111 word = 1%nat ->
  contains word (files_only_line indent n plural) = false.
Proof.
  intros O. destruct (contains word (files_only_line indent n plural)) eqn:C; [|reflexivity].
  apply (contains_occurrences 111) in C. rewrite O, files_only_line_no_o in C. lia.
Qed.

Lemma files_only_line_count (indent : nat) (n : N) (plural : bool) :
  re_search_count (lit "file") (files_only_line indent n plural) = Some (str_of_N n).
Proof.
  unfold files_only_line. change (lit " file") with (32 :: lit "file").
  cbn [app]. apply re_search_count_found.
Qed.

End Decimals.

(** ** The stat fetcher *)

Section Stats.

Context {U : Unicode} {W : Type} {host : Host W}.

(** What [p+ k] took is a non-empty run of [p] at the head of the text, and
    [k] holds of what follows. *)
Lemma re_plus_group (p : char -> bool) (k : str -> bool) (s g : str) :
  re_plus p k s = Some g ->
  g <> [] /\ forallb p g = true /\ exists rest, s = g ++ rest /\ k rest = true.
Proof.
  revert g; induction s as [|c s IH]; intros g; cbn [re_plus]; [discriminate|].
  destruct (p c) eqn:Pc; [|discriminate].
  destruct (re_plus p k s) as [g'|] eqn:R.
  - intros [= <-]. destruct (IH g' eq_refl) as (_ & A & rest & -> & K).
    split; [discriminate|]. split; [cbn; now rewrite Pc, A|].
    exists rest. split; [reflexivity | exact K].
  - destruct (k s) eqn:K; [|discriminate]. intros [= <-].
    split; [discriminate|]. split; [cbn; now rewrite Pc|].
    exists s. split; [reflexivity | exact K].
Qed.

Lemma re_match_count_group (word s g : str) :
  re_match_count word s = Some g ->
  g <> [] /\ forallb isdigit g = true /\ contains word s = true.
Proof.
  unfold re_match_count. intros R.
  apply re_plus_group in R as (NE & D & rest & -> & K).
  split; [exact NE|]. split; [exact D|].
  destruct (re_plus isspace (startswith word) rest) as [sp|] eqn:R; [|discriminate K].
  apply re_plus_group in R as (_ & _ & rest' & -> & S).
  apply startswith_iff in S as [tail ->].
  apply contains_iff. exists (g ++ sp), tail. now rewrite <- !app_assoc.
Qed.

(** A count found in a line is a non-empty run of digits, and the line
    holds the word counted. *)
Lemma re_search_count_group (word line g : str) :
  re_search_count word line = Some g ->
  g <> [] /\ forallb isdigit g = true /\ contains word line = true.
Proof.
  induction line as [|c line IH]; cbn [re_search_count].
  - destruct (re_match_count word []) eqn:R; [|discriminate].
    intros [= <-]. now apply re_match_count_group in R.
  - destruct (re_match_count word (c :: line)) eqn:R.
    + intros [= <-]. now apply re_match_count_group in R.
    + intros S. destruct (IH S) as (NE & D & C). split; [exact NE|]. split; [exact D|].
      cbn [contains]. rewrite C. apply orb_true_r.
Qed.

Lemma re_search_count_absent (word line : str) :
  contains word line = false -> re_search_count word line = None.
Proof.
  intros C. destruct (re_search_count word line) as [g|] eqn:S; [|reflexivity].
  apply re_search_count_group in S as (_ & _ & C'). congruence.
Qed.

Lemma int_digits_total (s : str) (acc : Z) :
  forallb isdigit s = true -> (0 <= acc)%Z ->
  exists n, int_digits acc s = Ok n /\ (0 <= n)%Z.
Proof.
  revert acc; induction s as [|c s IH]; intros acc D A; cbn [int_digits].
  - exists acc. split; [reflexivity | exact A].
  - cbn [forallb] in D. apply andb_true_iff in D as [Dc D].
    unfold isdigit in Dc. destruct (digit_value c) as [d|]; [|discriminate Dc].
    apply IH; [exact D | lia].
Qed.

(** [int] of a count within the limit never raises, and its value is no
    negative number. *)
Lemma int_total (g : str) :
  g <> [] -> forallb isdigit g = true ->
  N.of_nat (length g) <= int_max_str_digits ->
  exists n, int g = Ok n /\ (0 <= n)%Z.
Proof.
  intros NE D L. destruct g as [|c g]; [congruence|].
  unfold int. rewrite (proj2 (N.ltb_ge _ _) L).
  apply int_digits_total; [exact D | lia].
Qed.

(** [int] of a count returns no negative number or raises [ValueError]. *)
Lemma int_outcome (g : str) :
  g <> [] -> forallb isdigit g = true ->
  (exists n, int g = Ok n /\ (0 <= n)%Z) \/ int g = Raise ValueError.
Proof.
  intros NE D. destruct (N.le_gt_cases (N.of_nat (length g)) int_max_str_digits) as [L | L].
  - left. now apply int_total.
  - right. now apply int_beyond_limit.
Qed.

(** *** Runs of digits *)

Lemma digit_run_prefix (g rest : str) :
  forallb isdigit g = true -> (length g <= digit_run (g ++ rest))%nat.
Proof.
  induction g as [|c g IH]; intros D; cbn [length app digit_run]; [lia|].
  cbn [forallb] in D. apply andb_true_iff in D as [-> D]. specialize (IH D). lia.
Qed.

Lemma digit_run_app (s rest : str) : (digit_run s <= digit_run (s ++ rest))%nat.
Proof.
  induction s as [|c s IH]; cbn [app digit_run]; [lia|].
  destruct (isdigit c); lia.
Qed.

Lemma digit_run_longest (s : str) : (digit_run s <= longest_digit_run s)%nat.
Proof. destruct s as [|c s]; [reflexivity|]. cbn [longest_digit_run]. lia. Qed.

Lemma longest_digit_run_app_r (before s : str) :
  (longest_digit_run s <= longest_digit_run (before ++ s))%nat.
Proof.
  induction before as [|c before IH]; [reflexivity|].
  cbn [app longest_digit_run]. lia.
Qed.

Lemma longest_digit_run_app_l (s after : str) :
  (longest_digit_run s <= longest_digit_run (s ++ after))%nat.
Proof.
  induction s as [|c s IH]; [cbn; lia|].
  change ((c :: s) ++ after) with (c :: s ++ after). cbn [longest_digit_run].
  pose proof (digit_run_app (c :: s) after) as R.
  change ((c :: s) ++ after) with (c :: s ++ after) in R. lia.
Qed.

(** A piece of a text that [int] reads is read by [int]. *)
Lemma int_readable_piece (before s after : str) :
  int_readable (before ++ s ++ after) -> int_readable s.
Proof.
  unfold int_readable. intros R.
  pose proof (longest_digit_run_app_r before (s ++ after)).
  pose proof (longest_digit_run_app_l s after). lia.
Qed.

Lemma lstrip_suffix (s : str) : exists before, s = before ++ lstrip s.
Proof.
  induction s as [|c s (before & E)]; [now exists []|].
  cbn [lstrip]. destruct (isspace c); [|now exists []].
  exists (c :: before). cbn [app]. now rewrite <- E.
Qed.

Lemma strip_piece (s : str) : exists before after, s = before ++ strip s ++ after.
Proof.
  unfold strip, rstrip.
  destruct (lstrip_suffix s) as (before & E).
  destruct (lstrip_suffix (rev (lstrip s))) as (after & E').
  exists before, (rev after).
  rewrite <- rev_app_distr, <- E', rev_involutive. exact E.
Qed.

Lemma split_pieces (sep : char) (s : str) :
  (exists after, s = hd [] (split sep s) ++ after)
  /\ (forall line, In line (split sep s) -> exists before after, s = before ++ line ++ after).
Proof.
  induction s as [|c s ((tail & Eh) & IH)]; cbn [split].
  - split; [now exists [] | intros line [<- | []]; now exists [], []].
  - destruct (c =? sep).
    + split; [now exists (c :: s)|].
      intros line [<- | I]; [now exists [], (c :: s)|].
      destruct (IH line I) as (before & after & E).
      exists (c :: before), after. cbn [app]. now rewrite <- E.
    + destruct (split sep s) as [|h r] eqn:Sp; cbn [cons_head hd] in *.
      * split; [now exists s|]. intros line [<- | []]. now exists [], s.
      * split; [exists tail; cbn [app]; now rewrite <- Eh|].
        intros line [<- | I].
        -- exists [], tail. cbn [app]. now rewrite <- Eh.
        -- destruct (IH line (or_intror I)) as (before & after & E).
           exists (c :: before), after. cbn [app]. now rewrite <- E.
Qed.

(** The lines the loop of [get_commit_stats] goes over are pieces of the
    output. *)
Lemma stat_lines_readable (stdout : str) :
  int_readable stdout -> Forall int_readable (split NL (strip stdout)).
Proof.
  intros R. apply Forall_forall. intros line I.
  destruct (strip_piece stdout) as (b1 & a1 & E1).
  destruct (proj2 (split_pieces NL (strip stdout)) line I) as (b2 & a2 & E2).
  apply (int_readable_piece (b1 ++ b2) line (a2 ++ a1)).
  rewrite E1, E2 in R. now rewrite <- !app_assoc in *.
Qed.

Lemma re_match_count_run (word s g : str) :
  re_match_count word s = Some g -> (length g <= digit_run s)%nat.
Proof.
  unfold re_match_count. intros R.
  apply re_plus_group in R as (_ & D & rest & -> & _). now apply digit_run_prefix.
Qed.

(** A count found in a line is no longer than the longest run of digits of
    the line. *)
Lemma re_search_count_run (word line g : str) :
  re_search_count word line = Some g -> (length g <= longest_digit_run line)%nat.
Proof.
  induction line as [|c line IH]; cbn [re_search_count].
  - destruct (re_match_count word []) eqn:R; [|discriminate].
    intros [= <-]. apply re_match_count_run in R. cbn in *. lia.
  - destruct (re_match_count word (c :: line)) eqn:R.
    + intros [= <-]. apply re_match_count_run in R. cbn [longest_digit_run]. lia.
    + intros S. specialize (IH S). cbn [longest_digit_run]. lia.
Qed.

(** *** The loop over the lines *)

Lemma read_count_outcome (word line : str) (current : Z) :
  (0 <= current)%Z ->
  (exists n, read_count word line current = Ok n /\ (0 <= n)%Z)
  \/ read_count word line current = Raise ValueError.
Proof.
  intros A. unfold read_count.
  destruct (re_search_count word line) as [g|] eqn:S.
  - destruct (re_search_count_group _ _ _ S) as (NE & D & _). now apply int_outcome.
  - left. now exists current.
Qed.

Lemma read_count_total (word line : str) (current : Z) :
  int_readable line -> (0 <= current)%Z ->
  exists n, read_count word line current = Ok n /\ (0 <= n)%Z
            /\ (contains word line = false -> n = current).
Proof.
  intros R A. unfold read_count.
  destruct (re_search_count word line) as [g|] eqn:S.
  - destruct (re_search_count_group _ _ _ S) as (NE & D & C).
    pose proof (re_search_count_run _ _ _ S) as L. unfold int_readable in R.
    destruct (int_total g NE D) as (n & -> & P); [lia|].
    exists n. repeat split; auto. congruence.
  - exists current. repeat split; auto.
Qed.

(** One line of the loop leaves the counts as they are unless the line
    holds " file" and "changed". *)
Lemma scan_stat_line_other (stats : CommitStats) (line : str) :
  is_summary_line line = false -> scan_stat_line stats line = Ok stats.
Proof. intros S. unfold scan_stat_line. now rewrite S. Qed.

(** One line of the loop, when [int] reads its numbers: it never raises
    and keeps the counts non-negative. *)
Lemma scan_stat_line_total (stats : CommitStats) (line : str) :
  int_readable line -> non_negative stats ->
  exists stats', scan_stat_line stats line = Ok stats' /\ non_negative stats'.
Proof.
  intros R (F & I & D). unfold scan_stat_line.
  destruct (is_summary_line line).
  - destruct (read_count_total (lit "file") line _ R F) as (f & -> & Pf & _).
    destruct (read_count_total (lit "insertion") line _ R I) as (i & -> & Pi & _).
    destruct (read_count_total (lit "deletion") line _ R D) as (d & -> & Pd & _).
    cbn [and_then]. eexists. split; [reflexivity|]. repeat split; assumption.
  - exists stats. split; [reflexivity | exact (conj F (conj I D))].
Qed.

(** One line of the loop, whatever it holds: non-negative counts, or
    [ValueError] from [int]. *)
Lemma scan_stat_line_outcome (stats : CommitStats) (line : str) :
  non_negative stats ->
  (exists stats', scan_stat_line stats line = Ok stats' /\ non_negative stats')
  \/ scan_stat_line stats line = Raise ValueError.
Proof.
  intros (F & I & D). unfold scan_stat_line.
  destruct (is_summary_line line); [|left; exists stats; now repeat split].
  destruct (read_count_outcome (lit "file") line _ F) as [(f & -> & Pf) | ->];
    [|now right].
  destruct (read_count_outcome (lit "insertion") line _ I) as [(i & -> & Pi) | ->];
    [|now right].
  destruct (read_count_outcome (lit "deletion") line _ D) as [(d & -> & Pd) | ->];
    [|now right].
  left. cbn [and_then]. eexists. split; [reflexivity|]. repeat split; assumption.
Qed.

(** A line that reports a file count and holds neither "insertion" nor
    "deletion" sets the file count and leaves the two others. *)
Lemma scan_stat_line_files_only (stats : CommitStats) (line group1 : str) (n : Z) :
  is_summary_line line = true ->
  re_search_count (lit "file") line = Some group1 ->
  int group1 = Ok n ->
  contains (lit "insertion") line = false ->
  contains (lit "deletion") line = false ->
  scan_stat_line stats line =
  Ok {| files_changed := n; insertions := insertions stats; deletions := deletions stats |}.
Proof.
  intros S R E CI CD. unfold scan_stat_line, read_count. rewrite S, R, E.
  now rewrite (re_search_count_absent _ _ CI), (re_search_count_absent _ _ CD).
Qed.

Lemma scan_stat_lines_total (lines : list str) (stats : CommitStats) :
  Forall int_readable lines -> non_negative stats ->
  exists stats', scan_stat_lines stats lines = Ok stats' /\ non_negative stats'.
Proof.
  intros R. revert stats; induction R as [|line lines Rl R IH]; intros stats P.
  - exists stats. split; [reflexivity | exact P].
  - cbn [scan_stat_lines].
    destruct (scan_stat_line_total stats line Rl P) as (s1 & -> & P1).
    cbn [and_then]. apply IH, P1.
Qed.

Lemma scan_stat_lines_outcome (lines : list str) (stats : CommitStats) :
  non_negative stats ->
  (exists stats', scan_stat_lines stats lines = Ok stats' /\ non_negative stats')
  \/ scan_stat_lines stats lines = Raise ValueError.
Proof.
  revert stats; induction lines as [|line lines IH]; intros stats P.
  - left. exists stats. split; [reflexivity | exact P].
  - cbn [scan_stat_lines].
    destruct (scan_stat_line_outcome stats line P) as [(s1 & -> & P1) | ->];
      [|now right].
    cbn [and_then]. apply IH, P1.
Qed.

(** Lines that do not qualify leave the counts as they are. *)
Lemma scan_stat_lines_skip (lines : list str) (stats : CommitStats) :
  (forall line, In line lines -> is_summary_line line = false) ->
  scan_stat_lines stats lines = Ok stats.
Proof.
  induction lines as [|line lines IH]; intros O; [reflexivity|].
  cbn [scan_stat_lines]. rewrite scan_stat_line_other by (apply O; now left).
  cbn [and_then]. apply IH. intros l I. apply O. now right.
Qed.

Lemma scan_stat_lines_app (before after : list str) (stats : CommitStats) :
  scan_stat_lines stats (before ++ after) =
  and_then (scan_stat_lines stats before) (fun stats' => scan_stat_lines stats' after).
Proof.
  revert stats; induction before as [|line before IH]; intros stats; [reflexivity|].
  cbn [app scan_stat_lines]. destruct (scan_stat_line stats line); cbn [and_then]; auto.
Qed.

Lemma zero_stats_non_negative : non_negative zero_stats.
Proof. unfold non_negative, zero_stats; cbn; lia. Qed.

(** A line that holds no "file" holds no " file" either. *)
Lemma no_file_no_summary (line : str) :
  contains (lit "file") line && contains (lit "changed") line = false ->
  is_summary_line line = false.
Proof.
  unfold is_summary_line. intros E.
  destruct (contains (lit " file") line) eqn:C; [|reflexivity].
  change (lit " file") with (32 :: lit "file") in C.
  apply contains_tail in C. rewrite C in E. exact E.
Qed.

(** When one line alone qualifies, the loop returns what this line makes
    of the counts it starts with, which may be an exception. *)
Lemma scan_stat_lines_one (before after : list str) (line : str) (stats : CommitStats) :
  (forall other, In other (before ++ after) -> is_summary_line other = false) ->
  scan_stat_lines stats (before ++ line :: after)
  = and_then (scan_stat_line stats line) (fun stats' => Ok stats').
Proof.
  intros O. rewrite scan_stat_lines_app.
  rewrite scan_stat_lines_skip by (intros l I; apply O, in_or_app; now left).
  cbn [and_then scan_stat_lines].
  destruct (scan_stat_line stats line) as [s|e]; cbn [and_then]; [|reflexivity].
  apply scan_stat_lines_skip. intros l I. apply O, in_or_app. now right.
Qed.

(** X15.  Stat parsing defaults every absent sub-pattern to zero.  When
    [git show] completes, [get_commit_stats] returns a record of three
    non-negative counts or raises [ValueError], and it returns whenever
    the output holds no run of digits beyond the limit of [int].  The
    counts are all zero when no line of the output holds both "file" and
    "changed"; and when the one line that qualifies reports a file count
    [n] and holds neither "insertion" nor "deletion", the record is [n],
    0, 0: so it is for the line "n files changed" (or "n file changed",
    indented or not), where the tables read ASCII, for every [n] within
    the limit, while an [n] beyond it makes the call raise.  When [git
    show] exits with a failure status the record is all zero; whatever
    else the subprocess call raises passes through. *)
Theorem get_commit_stats_defaults (self : GitWeeklyReport) (commit_hash : str) (w : W) :
  (forall stdout w',
     subprocess_run (git_show_cmd self commit_hash) w = (Ok stdout, w') ->
     ((exists stats,
         get_commit_stats self commit_hash w = (Ok stats, w') /\ non_negative stats)
      \/ get_commit_stats self commit_hash w = (Raise ValueError, w'))
     /\ (int_readable stdout ->
         exists stats,
           get_commit_stats self commit_hash w = (Ok stats, w') /\ non_negative stats)
     /\ ((forall line, In line (split NL (strip stdout)) ->
            contains (lit "file") line && contains (lit "changed") line = false) ->
         get_commit_stats self commit_hash w = (Ok zero_stats, w'))
     /\ (forall before line after group1 n,
           split NL (strip stdout) = before ++ line :: after ->
           (forall other, In other (before ++ after) -> is_summary_line other = false) ->
           is_summary_line line = true ->
           re_search_count (lit "file") line = Some group1 ->
           int group1 = Ok n ->
           contains (lit "insertion") line = false ->
           contains (lit "deletion") line = false ->
           get_commit_stats self commit_hash w
           = (Ok {| files_changed := n; insertions := 0; deletions := 0 |}, w'))
     /\ (reads_ascii ->
         forall before indent n plural after,
           split NL (strip stdout) = before ++ files_only_line indent n plural :: after ->
           (forall other, In other (before ++ after) -> is_summary_line other = false) ->
           get_commit_stats self commit_hash w
           = (if int_reads n
              then Ok {| files_changed := Z.of_N n; insertions := 0; deletions := 0 |}
              else Raise ValueError, w')))
  /\ (forall w',
        subprocess_run (git_show_cmd self commit_hash) w = (Raise CalledProcessError, w') ->
        get_commit_stats self commit_hash w = (Ok zero_stats, w'))
  /\ (forall e w',
        subprocess_run (git_show_cmd self commit_hash) w = (Raise e, w') ->
        e <> CalledProcessError ->
        get_commit_stats self commit_hash w = (Raise e, w')).
Proof.
  assert (Run : forall stdout w',
            subprocess_run (git_show_cmd self commit_hash) w = (Ok stdout, w') ->
            get_commit_stats self commit_hash w
            = (match scan_stat_lines zero_stats (split NL (strip stdout)) with
               | Ok stats => Ok stats
               | Raise e => if is_CalledProcessError e then Ok zero_stats else Raise e
               end, w')).
  { intros stdout w' R. unfold get_commit_stats, try_except, bind, lift. rewrite R.
    destruct (scan_stat_lines _ _) as [stats|e]; [reflexivity|].
    destruct (is_CalledProcessError e); reflexivity. }
  split; [|split].
  - intros stdout w' R. rewrite (Run stdout w' R).
    split; [|split; [|split; [|split]]].
    + destruct (scan_stat_lines_outcome (split NL (strip stdout)) zero_stats
                  zero_stats_non_negative) as [(stats & -> & P) | ->].
      * left. now exists stats.
      * now right.
    + intros Rd.
      destruct (scan_stat_lines_total (split NL (strip stdout)) zero_stats
                  (stat_lines_readable stdout Rd) zero_stats_non_negative)
        as (stats & -> & P).
      now exists stats.
    + intros A. rewrite scan_stat_lines_skip; [reflexivity|].
      intros line I. apply no_file_no_summary, A, I.
    + intros before line after group1 n L O S G V CI CD.
      rewrite L, (scan_stat_lines_one before after line _ O).
      now rewrite (scan_stat_line_files_only _ _ _ _ S G V CI CD).
    + intros A before indent n plural after L O.
      rewrite L, (scan_stat_lines_one before after _ _ O). unfold int_reads.
      destruct (N.leb_spec (N.of_nat (length (str_of_N n))) int_max_str_digits) as [B | B].
      * now rewrite (scan_stat_line_files_only zero_stats _ _ _
                       (files_only_line_summary indent n plural)
                       (files_only_line_count A indent n plural)
                       (int_str_of_N A n B)
                       (files_only_line_rest indent n plural (lit "insertion") eq_refl)
                       (files_only_line_rest indent n plural (lit "deletion") eq_refl)).
      * unfold scan_stat_line, read_count.
        rewrite (files_only_line_summary indent n plural),
          (files_only_line_count A indent n plural), (int_beyond_limit _ B).
        reflexivity.
  - intros w' R. unfold get_commit_stats, try_except, bind. rewrite R. reflexivity.
  - intros e w' R N. unfold get_commit_stats, try_except, bind. rewrite R.
    destruct e; try reflexivity. congruence.
Qed.

(** Whatever else the subprocess call raises passes through
    [get_commit_stats]: it handles the failure status alone. *)
Lemma get_commit_stats_propagates (self : GitWeeklyReport) (commit_hash : str) (w w' : W)
    (e : exn) :
  subprocess_run (git_show_cmd self commit_hash) w = (Raise e, w') ->
  e <> CalledProcessError ->
  get_commit_stats self commit_hash w = (Raise e, w').
Proof.
  intros R N. unfold get_commit_stats, try_except, bind. rewrite R.
  destruct e; try reflexivity. congruence.
Qed.

(** Under [git_runs], [get_commit_stats] returns, and what it returns is
    non-negative. *)
Lemma get_commit_stats_returns (self : GitWeeklyReport) (commit_hash : str) (w : W) :
  git_runs ->
  exists stats w', get_commit_stats self commit_hash w = (Ok stats, w')
                   /\ non_negative stats.
Proof.
  intros (G & Rd). unfold get_commit_stats, try_except, bind, lift.
  destruct (subprocess_run (git_show_cmd self commit_hash) w) as [[stdout|e] w'] eqn:R.
  - destruct (scan_stat_lines_total (split NL (strip stdout)) zero_stats
                (stat_lines_readable stdout (Rd _ _ _ _ _ R)) zero_stats_non_negative)
      as (stats & -> & P).
    exists stats, w'. split; [reflexivity | exact P].
  - rewrite (G _ _ _ _ R). exists zero_stats, w'.
    split; [reflexivity | apply zero_stats_non_negative].
Qed.

End Stats.

Lemma ascii_tables_read_ascii : reads_ascii (U := ascii_tables).
Proof.
  split; [|split; reflexivity].
  intros d L. cbn [digit_value ascii_tables]. unfold ascii_digit_value.
  replace ((48 <=? 48 + d) && (48 + d <=? 57)) with true.
  - f_equal. lia.
  - symmetry. apply andb_true_iff. split; apply N.leb_le; lia.
Qed.

(** X15 at work: [git show --stat] printed one line, " 3 files changed". *)
Lemma get_commit_stats_defaults_witness :
  get_commit_stats (U := ascii_tables)
    (host := Examples.offline_host (lit " 3 files changed
"))
    (Examples.plain None) (lit "a1") tt
  = (Ok {| files_changed := 3; insertions := 0; deletions := 0 |}, tt).
Proof.
  destruct (get_commit_stats_defaults (U := ascii_tables)
              (host := Examples.offline_host (lit " 3 files changed
"))
              (Examples.plain None) (lit "a1") tt) as [completed _].
  destruct (completed (lit " 3 files changed
") tt eq_refl) as (_ & _ & _ & _ & family).
  rewrite (family ascii_tables_read_ascii [] 0%nat 3 true []).
  - reflexivity.
  - vm_compute. reflexivity.
  - intros other [].
Defined.

(** A file count of 4301 digits is beyond what [int] reads. *)
Example get_commit_stats_beyond_limit :
  fst (get_commit_stats (U := ascii_tables)
         (host := Examples.offline_host (32 :: repeat 49 4301 ++ lit " files changed"))
         (Examples.plain None) (lit "a1") tt)
  = Raise ValueError.
Proof. vm_compute. reflexivity. Qed.

(** C3.  The stats of a commit on a machine without [git].  The claim has
    an all-zero record whenever the tool fails; the call raises
    [FileNotFoundError] instead, its handler being for the failure status
    alone, while [get_commits_last_week], beside it, handles both and
    returns the empty list on the same machine. *)
Theorem get_commit_stats_missing_git :
  get_commit_stats (U := ascii_tables) (host := Machines.gitless_host)
    (Examples.plain None) (lit "a1") tt
  = (Raise FileNotFoundError, tt)
  /\ get_commits_last_week (U := ascii_tables) (host := Machines.gitless_host)
       (Examples.plain None) tt
     = (Ok [], tt).
Proof. split; reflexivity. Qed.

Example get_commit_stats_full_line :
  fst (get_commit_stats (U := ascii_tables)
         (host := Examples.offline_host (lit " src/a.py | 7 ++++---
 5 files changed, 120 insertions(+), 30 deletions(-)
"))
         (Examples.plain None) (lit "a1") tt)
  = Ok {| files_changed := 5; insertions := 120; deletions := 30 |}.
Proof. vm_compute. reflexivity. Qed.

(** ** The message enhancer *)

Section Enhancer.

Context {U : Unicode} {W : Type} {host : Host W}.

(** [enhance_commit_message] returns, whatever the host does. *)
Lemma enhance_commit_message_returns (self : LLMEnhancer) (message : str) (w : W) :
  exists text w', enhance_commit_message self message w = (Ok text, w').
Proof.
  unfold enhance_commit_message.
  destruct (truthy (api_key self)); cbn [negb].
  - unfold try_except, bind, Exception, ret, lift.
    destruct (requests_post (enhance_request self message) w) as [[r|e] w'].
    + destruct (status_code r =? 200)%Z.
      * destruct (completion_text r); eauto.
      * eauto.
    + eauto.
  - unfold ret; eauto.
Qed.

(** [generate_summary] returns, whatever the host does. *)
Lemma generate_summary_returns (self : LLMEnhancer) (commits : list CommitRecord) (w : W) :
  exists text w', generate_summary self commits w = (Ok text, w').
Proof.
  unfold generate_summary.
  destruct (negb (truthy (api_key self)) || is_empty commits).
  - unfold ret; eauto.
  - unfold try_except, bind, Exception, ret, lift.
    destruct (requests_post (summary_request self commits) w) as [[r|e] w'].
    + destruct (status_code r =? 200)%Z.
      * destruct (completion_text r); eauto.
      * eauto.
    + eauto.
Qed.

(** C4.  Passthrough and graceful degradation of the enhancer.  Without a
    credential ([api_key] is [None] or empty) the rewrite returns its
    message and the summary is empty, and the world is left alone.  When
    the call raises, answers with a status other than 200, or answers 200
    with a body the completion cannot be read from, the rewrite returns the
    message it was given and the summary is empty.  Both always return:
    no exception reaches the caller. *)
Theorem enhancer_degrades_gracefully (self : LLMEnhancer) (message : str)
    (commits : list CommitRecord) (w : W) :
  (truthy (api_key self) = false ->
     enhance_commit_message self message w = (Ok message, w)
     /\ generate_summary self commits w = (Ok [], w))
  /\ (forall e w', requests_post (enhance_request self message) w = (Raise e, w') ->
        fst (enhance_commit_message self message w) = Ok message)
  /\ (forall r w', requests_post (enhance_request self message) w = (Ok r, w') ->
        status_code r <> 200%Z ->
        fst (enhance_commit_message self message w) = Ok message)
  /\ (forall r w' e, requests_post (enhance_request self message) w = (Ok r, w') ->
        completion_text r = Raise e ->
        fst (enhance_commit_message self message w) = Ok message)
  /\ (forall e w', requests_post (summary_request self commits) w = (Raise e, w') ->
        fst (generate_summary self commits w) = Ok [])
  /\ (forall r w', requests_post (summary_request self commits) w = (Ok r, w') ->
        status_code r <> 200%Z ->
        fst (generate_summary self commits w) = Ok [])
  /\ (forall r w' e, requests_post (summary_request self commits) w = (Ok r, w') ->
        completion_text r = Raise e ->
        fst (generate_summary self commits w) = Ok [])
  /\ (exists text w', enhance_commit_message self message w = (Ok text, w'))
  /\ (exists text w', generate_summary self commits w = (Ok text, w')).
Proof.
  assert (Status : forall r, status_code r <> 200%Z -> (status_code r =? 200)%Z = false)
    by (intros r N; now apply Z.eqb_neq).
  split; [|split; [|split; [|split; [|split; [|split; [|split; [|split]]]]]]].
  - intros K. unfold enhance_commit_message, generate_summary. rewrite K. now cbn.
  - intros e w' R. unfold enhance_commit_message, try_except, bind.
    destruct (truthy (api_key self)); cbn [negb]; [|reflexivity].
    now rewrite R.
  - intros r w' R N. unfold enhance_commit_message, try_except, bind.
    destruct (truthy (api_key self)); cbn [negb]; [|reflexivity].
    now rewrite R, (Status r N).
  - intros r w' e R C. unfold enhance_commit_message, try_except, bind, lift.
    destruct (truthy (api_key self)); cbn [negb]; [|reflexivity].
    rewrite R. destruct (status_code r =? 200)%Z; [|reflexivity]. now rewrite C.
  - intros e w' R. unfold generate_summary, try_except, bind.
    destruct (negb (truthy (api_key self)) || is_empty commits); [reflexivity|].
    now rewrite R.
  - intros r w' R N. unfold generate_summary, try_except, bind.
    destruct (negb (truthy (api_key self)) || is_empty commits); [reflexivity|].
    now rewrite R, (Status r N).
  - intros r w' e R C. unfold generate_summary, try_except, bind, lift.
    destruct (negb (truthy (api_key self)) || is_empty commits); [reflexivity|].
    rewrite R. destruct (status_code r =? 200)%Z; [|reflexivity]. now rewrite C.
  - apply enhance_commit_message_returns.
  - apply generate_summary_returns.
Qed.

End Enhancer.

(** C4 at work: no credential, on a machine whose API would answer. *)
Lemma enhancer_degrades_gracefully_witness :
  enhance_commit_message (U := ascii_tables)
    (host := Examples.answering_host (Examples.chat_completion (lit "已润色")))
    (Examples.enhancer None) (lit "fix login bug") 0%nat
  = (Ok (lit "fix login bug"), 0%nat)
  /\ generate_summary (U := ascii_tables)
       (host := Examples.answering_host (Examples.chat_completion (lit "已润色")))
       (Examples.enhancer None) Examples.scenario 0%nat
     = (Ok [], 0%nat).
Proof.
  destruct (enhancer_degrades_gracefully (U := ascii_tables)
              (host := Examples.answering_host (Examples.chat_completion (lit "已润色")))
              (Examples.enhancer None) (lit "fix login bug") Examples.scenario 0%nat)
    as [passthrough _].
  apply passthrough. reflexivity.
Defined.

(** With a credential: a 200 answer is taken (stripped), a 500 answer and a
    200 answer without choices fall back to the message. *)
Example enhance_commit_message_runs :
  fst (enhance_commit_message (U := ascii_tables)
         (host := Examples.answering_host (Examples.chat_completion (lit " 修复登录问题
")))
         (Examples.enhancer (Some (lit "sk-1"))) (lit "fix login bug") 0%nat)
  = Ok (lit "修复登录问题")
  /\ fst (enhance_commit_message (U := ascii_tables)
            (host := Examples.answering_host
                       {| status_code := 500; json_body := None |})
            (Examples.enhancer (Some (lit "sk-1"))) (lit "fix login bug") 0%nat)
     = Ok (lit "fix login bug")
  /\ fst (enhance_commit_message (U := ascii_tables)
            (host := Examples.answering_host
                       {| status_code := 200; json_body := Some (JObject []) |})
            (Examples.enhancer (Some (lit "sk-1"))) (lit "fix login bug") 0%nat)
     = Ok (lit "fix login bug").
Proof. vm_compute. repeat split; reflexivity. Qed.

(** ** The summary prompt *)

Section Summary.

Context {U : Unicode} {W : Type} {host : Host W}.

Lemma is_empty_firstn (A : Type) (n : nat) (l : list A) :
  is_empty (firstn (S n) l) = is_empty l.
Proof. destruct l; reflexivity. Qed.

Lemma summary_prompt_firstn (commits : list CommitRecord) :
  summary_prompt (firstn 10 commits) = summary_prompt commits.
Proof. unfold summary_prompt. now rewrite firstn_firstn. Qed.

Lemma summary_request_firstn (self : LLMEnhancer) (commits : list CommitRecord) :
  summary_request self (firstn 10 commits) = summary_request self commits.
Proof. unfold summary_request. now rewrite summary_prompt_firstn. Qed.

Lemma generate_summary_firstn (self : LLMEnhancer) (commits : list CommitRecord) (w : W) :
  generate_summary self (firstn 10 commits) w = generate_summary self commits w.
Proof.
  unfold generate_summary. now rewrite is_empty_firstn, summary_request_firstn.
Qed.

(** What [generate_summary] makes of the answer to its call. *)
Lemma generate_summary_calls (self : LLMEnhancer) (commits : list CommitRecord) (w : W) :
  truthy (api_key self) = true -> commits <> [] ->
  generate_summary self commits w
  = (let (answer, w') := requests_post (summary_request self commits) w in
     (match answer with
      | Ok response =>
        if (status_code response =? 200)%Z
        then match completion_text response with
             | Ok text => Ok text
             | Raise _ => Ok []
             end
        else Ok []
      | Raise _ => Ok []
      end, w')).
Proof.
  intros K NE. unfold generate_summary, try_except, bind, lift, ret, Exception.
  rewrite K. destruct commits as [|c commits]; [congruence|]. cbn [negb orb is_empty].
  destruct (requests_post _ w) as [[r|e] w']; [|reflexivity].
  destruct (status_code r =? 200)%Z; [|reflexivity].
  destruct (completion_text r); reflexivity.
Qed.

(** C9.  The summary reads the first ten commits and no more.  The prompt
    is the fixed opening, then one line "- author: message" for each of
    the first ten commits (for all of them when there are fewer), in their
    order and joined by line breaks, then the fixed closing; so every one
    of these commits has its line in the prompt.  The request carries this
    prompt, and with a credential and a non-empty list [generate_summary]
    makes its call with this request and returns what it reads from the
    answer.  The prompt, the request and the whole run are those of the
    first ten commits: two lists that agree on their first ten commits (or
    only on the authors and messages of these) give the same prompt.  For
    no commits the summary is empty, with no call made. *)
Theorem summary_reads_first_ten (self : LLMEnhancer) (commits : list CommitRecord) (w : W) :
  summary_prompt commits
  = lit "基于以下本周的 git commit 记录，请生成一段简洁的中文工作总结（50-100字），突出主要成果和进展：

"
      ++ join [NL]
           (map (fun commit => lit "- " ++ author commit ++ lit ": " ++ message commit)
                (firstn 10 commits))
      ++ lit "

请直接返回总结内容，不要添加任何标题或解释。"
  /\ length (firstn 10 commits) = Nat.min 10 (length commits)
  /\ (forall commit,
        In commit (firstn 10 commits) ->
        contains (lit "- " ++ author commit ++ lit ": " ++ message commit)
          (summary_prompt commits) = true)
  /\ json_content (summary_request self commits) = summary_prompt commits
  /\ (truthy (api_key self) = true -> commits <> [] ->
      generate_summary self commits w
      = (let (answer, w') := requests_post (summary_request self commits) w in
         (match answer with
          | Ok response =>
            if (status_code response =? 200)%Z
            then match completion_text response with
                 | Ok text => Ok text
                 | Raise _ => Ok []
                 end
            else Ok []
          | Raise _ => Ok []
          end, w')))
  /\ summary_prompt commits = summary_prompt (firstn 10 commits)
  /\ json_content (summary_request self commits) = summary_prompt (firstn 10 commits)
  /\ generate_summary self commits w = generate_summary self (firstn 10 commits) w
  /\ (forall others, firstn 10 others = firstn 10 commits ->
        summary_prompt others = summary_prompt commits
        /\ summary_request self others = summary_request self commits
        /\ generate_summary self others w = generate_summary self commits w)
  /\ (forall others,
        map (fun c => (author c, message c)) (firstn 10 others)
        = map (fun c => (author c, message c)) (firstn 10 commits) ->
        summary_prompt others = summary_prompt commits)
  /\ generate_summary self [] w = (Ok [], w).
Proof.
  split; [reflexivity|].
  split; [apply length_firstn|].
  split.
  { intros commit I. unfold summary_prompt.
    apply contains_middle, join_holds_line.
    exact (in_map (fun commit => lit "- " ++ author commit ++ lit ": " ++ message commit)
             _ _ I). }
  split; [reflexivity|].
  split; [apply generate_summary_calls|].
  split; [now rewrite summary_prompt_firstn|].
  split; [cbn [summary_request json_content]; now rewrite summary_prompt_firstn|].
  split; [now rewrite generate_summary_firstn|].
  split; [|split].
  - intros others E.
    rewrite <- (summary_prompt_firstn others), <- (summary_request_firstn self others),
      <- (generate_summary_firstn self others), E.
    rewrite summary_prompt_firstn, summary_request_firstn, generate_summary_firstn.
    repeat split.
  - intros others E. unfold summary_prompt.
    assert (T : forall l : list CommitRecord,
               map (fun commit => lit "- " ++ author commit ++ lit ": " ++ message commit) l
               = map (fun p => lit "- " ++ fst p ++ lit ": " ++ snd p)
                     (map (fun c => (author c, message c)) l))
      by (intros l; now rewrite map_map).
    now rewrite !T, E.
  - unfold generate_summary. cbn [is_empty]. now rewrite orb_true_r.
Qed.

End Summary.

(** C9 at work: an eleventh commit changes nothing. *)
Lemma summary_reads_first_ten_witness :
  summary_prompt (repeat Examples.alice_commit 10 ++ [Examples.bob_commit])
  = summary_prompt (repeat Examples.alice_commit 10 ++ [Examples.carol_commit]).
Proof.
  destruct (summary_reads_first_ten (U := ascii_tables)
              (host := Examples.offline_host [])
              (Examples.enhancer None)
              (repeat Examples.alice_commit 10 ++ [Examples.carol_commit]) tt)
    as (_ & _ & _ & _ & _ & _ & _ & _ & agree & _).
  apply (agree (repeat Examples.alice_commit 10 ++ [Examples.bob_commit])).
  reflexivity.
Defined.

(** The prompt for the scenario. *)
Example summary_prompt_scenario :
  summary_prompt Examples.scenario
  = lit "基于以下本周的 git commit 记录，请生成一段简洁的中文工作总结（50-100字），突出主要成果和进展：

- Alice: fix login bug
- Bob: add new dashboard

请直接返回总结内容，不要添加任何标题或解释。".
Proof. vm_compute. reflexivity. Qed.

(** The tenth commit is read, the eleventh is not. *)
Example summary_prompt_tenth :
  contains (lit "- Bob: add new dashboard")
    (summary_prompt (repeat Examples.alice_commit 9 ++ [Examples.bob_commit])) = true
  /\ contains (lit "- Bob: add new dashboard")
       (summary_prompt (repeat Examples.alice_commit 10 ++ [Examples.bob_commit])) = false.
Proof. split; vm_compute; reflexivity. Qed.

(** ** Enhancing the messages of a list *)

Section EnhanceAll.

Context {U : Unicode} {W : Type} {host : Host W}.

Lemma enhance_loop (enhancer : LLMEnhancer) (commits : list CommitRecord) (w : W) :
  exists out w',
    mapM (fun commit =>
            new_message <- enhance_commit_message enhancer (message commit) ;;
            ret (enhanced commit new_message)) commits w = (Ok out, w')
    /\ Forall2 same_identity commits out
    /\ map original_message out = map (fun c => Some (message c)) commits.
Proof.
  revert w; induction commits as [|c commits IH]; intros w.
  - exists [], w. repeat split; constructor.
  - cbn [mapM]. unfold bind at 1 2.
    destruct (enhance_commit_message_returns enhancer (message c) w) as (m & w1 & ->).
    unfold ret at 1. unfold bind at 1.
    destruct (IH w1) as (out & w2 & -> & F & O).
    exists (enhanced c m :: out), w2. split; [reflexivity|]. split.
    + constructor; [repeat split | exact F].
    + cbn [map enhanced original_message]. now rewrite O.
Qed.

Lemma Forall2_same_identity (commits out : list CommitRecord) :
  Forall2 same_identity commits out ->
  length out = length commits
  /\ map hash out = map hash commits
  /\ map author out = map author commits
  /\ map date out = map date commits.
Proof.
  induction 1 as [|c c' commits out (Eh & Ea & Ed) F (IL & IH & IA & ID)]; [repeat split|].
  cbn [length map]. rewrite IL, IH, IA, ID, Eh, Ea, Ed. repeat split.
Qed.

Lemma Forall2_same_identity_refl (commits : list CommitRecord) :
  Forall2 same_identity commits commits.
Proof. induction commits; constructor; [repeat split | assumption]. Qed.

(** Whether enabled or not, [enhance_commit_messages] returns, and what it
    returns are the same commits up to their message fields. *)
Lemma enhance_commit_messages_returns (self : GitWeeklyReport) (commits : list CommitRecord)
    (w : W) :
  exists out w', enhance_commit_messages self commits w = (Ok out, w')
                 /\ Forall2 same_identity commits out.
Proof.
  unfold enhance_commit_messages.
  destruct (use_llm self); [destruct (llm self) as [enhancer|]|].
  - destruct (enhance_loop enhancer commits w) as (out & w' & E & F & _).
    exists out, w'. split; assumption.
  - exists commits, w. split; [reflexivity | apply Forall2_same_identity_refl].
  - exists commits, w. split; [reflexivity | apply Forall2_same_identity_refl].
Qed.

(** C8, amended.  With enhancement enabled ([use_llm] set and an enhancer
    present), [enhance_commit_messages] returns as many records, in the
    same order, each with the hash, author and date it had and with
    [original_message] set to the message it had; with enhancement
    disabled it returns the list it was given and adds no field. *)
Theorem enhance_commit_messages_frame (self : GitWeeklyReport)
    (commits : list CommitRecord) (w : W) :
  (forall enhancer, use_llm self = true -> llm self = Some enhancer ->
     exists out w',
       enhance_commit_messages self commits w = (Ok out, w')
       /\ length out = length commits
       /\ map hash out = map hash commits
       /\ map author out = map author commits
       /\ map date out = map date commits
       /\ map original_message out = map (fun c => Some (message c)) commits)
  /\ (use_llm self = false \/ llm self = None ->
        enhance_commit_messages self commits w = (Ok commits, w)).
Proof.
  split.
  - intros enhancer Eu El. unfold enhance_commit_messages. rewrite Eu, El.
    destruct (enhance_loop enhancer commits w) as (out & w' & E & F & O).
    exists out, w'. split; [exact E|].
    destruct (Forall2_same_identity _ _ F) as (L & Hh & Ha & Hd).
    repeat split; assumption.
  - unfold enhance_commit_messages. intros [-> | ->]; [reflexivity|].
    destruct (use_llm self); reflexivity.
Qed.

End EnhanceAll.

(** C8 at work: enhancement enabled, against an API that answers. *)
Lemma enhance_commit_messages_frame_witness :
  exists out w',
    enhance_commit_messages (U := ascii_tables)
      (host := Examples.answering_host (Examples.chat_completion (lit "已润色")))
      (Examples.enhancing (Some (lit "sk-1"))) Examples.scenario 0%nat = (Ok out, w')
    /\ length out = length Examples.scenario
    /\ map hash out = map hash Examples.scenario
    /\ map author out = map author Examples.scenario
    /\ map date out = map date Examples.scenario
    /\ map original_message out = map (fun c => Some (message c)) Examples.scenario.
Proof.
  destruct (enhance_commit_messages_frame (U := ascii_tables)
              (host := Examples.answering_host (Examples.chat_completion (lit "已润色")))
              (Examples.enhancing (Some (lit "sk-1"))) Examples.scenario 0%nat)
    as [enabled _].
  exact (enabled _ eq_refl eq_refl).
Defined.

(** C8 as stated fails with enhancement disabled: the record comes back
    without [original_message], where the claim has it hold the message. *)
Lemma enhance_commit_messages_disabled_counterexample :
  exists out,
    fst (enhance_commit_messages (U := ascii_tables)
           (host := Examples.offline_host [])
           (Examples.plain None) [Examples.alice_commit] tt) = Ok out
    /\ map original_message out = [None]
    /\ map (fun c => Some (message c)) [Examples.alice_commit]
       = [Some (lit "fix login bug")].
Proof. exists [Examples.alice_commit]. repeat split. Qed.

Example enhance_commit_messages_runs :
  fst (enhance_commit_messages (U := ascii_tables)
         (host := Examples.answering_host (Examples.chat_completion (lit "已润色")))
         (Examples.enhancing (Some (lit "sk-1"))) [Examples.alice_commit] 0%nat)
  = Ok [ {| hash := lit "a1"; author := lit "Alice"; date := lit "2024-01-10";
            message := lit "已润色";
            original_message := Some (lit "fix login bug") |} ].
Proof. vm_compute. reflexivity. Qed.

(** ** The report for no commits *)

Section NoCommits.

Context {U : Unicode} {W : Type} {host : Host W}.

Lemma contains_empty (hay : str) : contains [] hay = true.
Proof. destruct hay; reflexivity. Qed.

Lemma section_heading_hashes (heading : str) :
  In heading section_headings -> occurrences HASH heading = 2%nat.
Proof.
  unfold section_headings. cbn [In].
  intros [<- | [<- | [<- | [<- | []]]]]; vm_compute; reflexivity.
Qed.

(** The document holds one hash sign, the one that opens its title, unless
    the author's name brings more. *)
Lemma no_commits_report_hashes (self : GitWeeklyReport) :
  (forall name, report_author self = Some name -> occurrences HASH name = 0%nat) ->
  occurrences HASH (no_commits_report self) = 1%nat.
Proof.
  intros A. unfold no_commits_report.
  destruct (truthy (report_author self)); [|vm_compute; reflexivity].
  destruct (report_author self) as [name|] eqn:E.
  - cbn [format_opt]. rewrite !occurrences_app, (A name eq_refl). vm_compute; reflexivity.
  - vm_compute; reflexivity.
Qed.

Lemma generate_report_no_commits (self : GitWeeklyReport) (w : W) :
  generate_report self [] w = (Ok (no_commits_report self), w).
Proof. reflexivity. Qed.

Lemma no_commits_report_named (self : GitWeeklyReport) (name : str) :
  report_author self = Some name -> name <> [] ->
  no_commits_report self
  = lit "# 本周工作周报 - " ++ name ++ lit "

本周暂无代码提交记录。
".
Proof.
  intros E NE. unfold no_commits_report. rewrite E.
  destruct name; [congruence | reflexivity].
Qed.

Lemma no_commits_report_anonymous (self : GitWeeklyReport) :
  truthy (report_author self) = false ->
  no_commits_report self = lit "# 本周工作周报

本周暂无代码提交记录。
".
Proof. intros T. unfold no_commits_report. rewrite T. reflexivity. Qed.

Lemma no_commits_report_holds_name (self : GitWeeklyReport) (name : str) :
  report_author self = Some name -> contains name (no_commits_report self) = true.
Proof.
  intros E. unfold no_commits_report. rewrite E.
  destruct name as [|c name]; [apply contains_empty|].
  cbn [truthy format_opt]. apply contains_app.
Qed.

Lemma no_commits_report_no_section (self : GitWeeklyReport) :
  (forall name, report_author self = Some name -> occurrences HASH name = 0%nat) ->
  forall heading, In heading section_headings ->
    contains heading (no_commits_report self) = false.
Proof.
  intros A heading I.
  destruct (contains heading (no_commits_report self)) eqn:C; [|reflexivity].
  apply (contains_occurrences HASH) in C.
  rewrite (section_heading_hashes heading I), (no_commits_report_hashes self A) in C. lia.
Qed.

(** C5.  For no commits, [generate_report] returns at once the fixed
    document: the title, an empty line and the "no commits this period"
    notice.  The title carries the author's name when one was supplied, so
    the document holds the name; and it holds none of the headings that
    open the summary, statistics, category and per-date sections (the name
    itself bringing no hash sign). *)
Theorem no_commits_document (self : GitWeeklyReport) (w : W) :
  generate_report self [] w = (Ok (no_commits_report self), w)
  /\ (forall name, report_author self = Some name -> name <> [] ->
        no_commits_report self
        = lit "# 本周工作周报 - " ++ name ++ lit "

本周暂无代码提交记录。
")
  /\ (truthy (report_author self) = false ->
        no_commits_report self = lit "# 本周工作周报

本周暂无代码提交记录。
")
  /\ (forall name, report_author self = Some name ->
        contains name (no_commits_report self) = true)
  /\ ((forall name, report_author self = Some name -> occurrences HASH name = 0%nat) ->
      forall heading, In heading section_headings ->
        contains heading (no_commits_report self) = false).
Proof.
  exact (conj (generate_report_no_commits self w)
          (conj (no_commits_report_named self)
            (conj (no_commits_report_anonymous self)
              (conj (no_commits_report_holds_name self)
                    (no_commits_report_no_section self))))).
Qed.

End NoCommits.

(** C5 at work: the document for Alice's empty week. *)
Lemma no_commits_document_witness :
  generate_report (U := ascii_tables) (host := Examples.offline_host [])
    (Examples.plain (Some (lit "Alice"))) [] tt
  = (Ok (no_commits_report (Examples.plain (Some (lit "Alice")))), tt)
  /\ no_commits_report (Examples.plain (Some (lit "Alice")))
     = lit "# 本周工作周报 - " ++ lit "Alice" ++ lit "

本周暂无代码提交记录。
"
  /\ contains (lit "Alice") (no_commits_report (Examples.plain (Some (lit "Alice")))) = true
  /\ forall heading, In heading section_headings ->
       contains heading (no_commits_report (Examples.plain (Some (lit "Alice")))) = false.
Proof.
  destruct (no_commits_document (U := ascii_tables) (host := Examples.offline_host [])
              (Examples.plain (Some (lit "Alice"))) tt)
    as (short & named & _ & holds & bare).
  split; [exact short|]. split; [|split].
  - apply (named (lit "Alice") eq_refl). vm_compute. discriminate.
  - exact (holds (lit "Alice") eq_refl).
  - apply bare. intros name E. injection E as <-. vm_compute. reflexivity.
Defined.

Example no_commits_report_text :
  no_commits_report (Examples.plain (Some (lit "Alice")))
  = lit "# 本周工作周报 - Alice

本周暂无代码提交记录。
".
Proof. vm_compute. reflexivity. Qed.

(** ** Sorting the dates *)

Section DateOrder.

Lemma str_ltb_irrefl (a : str) : str_ltb a a = false.
Proof.
  induction a as [|x a IH]; [reflexivity|].
  cbn [str_ltb]. now rewrite N.ltb_irrefl, N.eqb_refl, IH.
Qed.

Lemma str_ltb_trans (a b c : str) :
  str_ltb a b = true -> str_ltb b c = true -> str_ltb a c = true.
Proof.
  revert b c; induction a as [|x a IH]; intros [|y b] [|z c]; cbn [str_ltb];
    try discriminate; auto.
  rewrite !orb_true_iff, !andb_true_iff, !N.ltb_lt, !N.eqb_eq.
  intros [L1 | [E1 T1]] [L2 | [E2 T2]].
  - left; lia.
  - left; lia.
  - left; lia.
  - right; split; [lia | eapply IH; eassumption].
Qed.

(** Of two different texts one is below the other. *)
Lemma str_ltb_total (a b : str) :
  str_ltb a b = false -> str_ltb b a = false -> a = b.
Proof.
  revert b; induction a as [|x a IH]; intros [|y b]; cbn [str_ltb];
    try discriminate; auto.
  rewrite !orb_false_iff, !andb_false_iff, !N.ltb_ge, !N.eqb_neq.
  intros [L1 T1] [L2 T2].
  assert (x = y) by lia. subst y. f_equal. apply IH.
  - destruct T1 as [T1|T1]; [congruence | exact T1].
  - destruct T2 as [T2|T2]; [congruence | exact T2].
Qed.

Lemma in_insert_desc (x k : str) (l : list str) :
  In x (insert_desc k l) <-> x = k \/ In x l.
Proof.
  induction l as [|k' l IH]; cbn [insert_desc In].
  - intuition.
  - destruct (str_ltb k k'); cbn [In]; [rewrite IH|]; intuition.
Qed.

Lemma in_sorted_reverse (x : str) (keys : list str) :
  In x (sorted_reverse keys) <-> In x keys.
Proof.
  induction keys as [|k keys IH]; cbn [sorted_reverse In]; [reflexivity|].
  rewrite in_insert_desc, IH. intuition.
Qed.

(** Inserting a new key keeps a descending list descending. *)
Lemma insert_desc_descending (k : str) (l : list str) :
  descending l -> ~ In k l -> descending (insert_desc k l).
Proof.
  unfold descending.
  induction l as [|k' l IH]; intros S NI; cbn [insert_desc].
  - constructor; constructor.
  - inversion S as [|? ? S' F]; subst.
    destruct (str_ltb k k') eqn:L.
    + constructor.
      * apply IH; [exact S' | intros I; apply NI; now right].
      * apply Forall_forall. intros x I. apply in_insert_desc in I as [-> | I].
        -- exact L.
        -- rewrite Forall_forall in F. now apply F.
    + assert (L' : str_ltb k' k = true).
      { destruct (str_ltb k' k) eqn:L'; [reflexivity|].
        exfalso. apply NI. left. symmetry. now apply str_ltb_total. }
      constructor; [exact S|].
      constructor; [exact L'|].
      rewrite Forall_forall in *. intros x I.
      apply str_ltb_trans with k'; [now apply F | exact L'].
Qed.

(** The distinct keys of a [dict] come out strictly descending. *)
Lemma sorted_reverse_descending (keys : list str) :
  NoDup keys -> descending (sorted_reverse keys).
Proof.
  induction 1 as [|k keys NI ND IH]; cbn [sorted_reverse].
  - constructor.
  - apply insert_desc_descending; [exact IH|].
    now rewrite in_sorted_reverse.
Qed.

(** Two descending lists with the same members are the same list. *)
Lemma descending_unique (l1 l2 : list str) :
  descending l1 -> descending l2 -> (forall x, In x l1 <-> In x l2) -> l1 = l2.
Proof.
  unfold descending. revert l2; induction l1 as [|a l1 IH]; intros [|b l2] S1 S2 E.
  - reflexivity.
  - exfalso. apply (proj2 (E b)). now left.
  - exfalso. apply (proj1 (E a)). now left.
  - inversion S1 as [|? ? S1' F1]; subst. inversion S2 as [|? ? S2' F2]; subst.
    rewrite Forall_forall in F1, F2.
    assert (a = b).
    { destruct (proj1 (E a) (or_introl eq_refl)) as [-> | Ia]; [reflexivity|].
      destruct (proj2 (E b) (or_introl eq_refl)) as [<- | Ib]; [reflexivity|].
      pose proof (F2 a Ia) as L1. pose proof (F1 b Ib) as L2.
      pose proof (str_ltb_trans _ _ _ L1 L2) as L. now rewrite str_ltb_irrefl in L. }
    subst b. f_equal. apply IH; try assumption.
    intros x. split; intros I.
    + destruct (proj1 (E x) (or_intror I)) as [<- | I']; [|exact I'].
      apply F1 in I. now rewrite str_ltb_irrefl in I.
    + destruct (proj2 (E x) (or_intror I)) as [<- | I']; [|exact I'].
      apply F2 in I. now rewrite str_ltb_irrefl in I.
Qed.

End DateOrder.

(** ** Grouping by date *)

Section DateGroups.

Lemma str_eqb_sym (a b : str) : str_eqb a b = str_eqb b a.
Proof.
  destruct (str_eqb a b) eqn:E.
  - apply str_eqb_eq in E; subst. now rewrite str_eqb_refl.
  - destruct (str_eqb b a) eqn:E'; [|reflexivity].
    apply str_eqb_eq in E'; subst. now rewrite str_eqb_refl in E.
Qed.

(** One step of the grouping loop, seen through [d[key]]. *)
Lemma add_by_date_get (d : buckets) (commit : CommitRecord) (key : str) :
  get (add_by_date d commit) key
  = get d key ++ (if str_eqb (date commit) key then [commit] else []).
Proof.
  induction d as [|[k commits] d IH]; cbn [add_by_date get].
  - rewrite (str_eqb_sym key). reflexivity.
  - destruct (str_eqb (date commit) k) eqn:E; cbn [get].
    + apply str_eqb_eq in E; subst k. rewrite (str_eqb_sym key).
      destruct (str_eqb (date commit) key); [reflexivity | now rewrite app_nil_r].
    + destruct (str_eqb key k) eqn:E'; [|exact IH].
      apply str_eqb_eq in E'; subst k. now rewrite E, app_nil_r.
Qed.

Lemma add_by_date_keys (d : buckets) (commit : CommitRecord) (key : str) :
  In key (map fst (add_by_date d commit)) <-> key = date commit \/ In key (map fst d).
Proof.
  induction d as [|[k commits] d IH]; cbn [add_by_date map fst In].
  - intuition.
  - destruct (str_eqb (date commit) k) eqn:E; cbn [map fst In].
    + apply str_eqb_eq in E; subst k. intuition.
    + rewrite IH. intuition.
Qed.

Lemma add_by_date_distinct (d : buckets) (commit : CommitRecord) :
  NoDup (map fst d) -> NoDup (map fst (add_by_date d commit)).
Proof.
  induction d as [|[k commits] d IH]; intros ND; cbn [add_by_date map fst].
  - constructor; [intros [] | constructor].
  - inversion ND as [|? ? NI ND']; subst.
    destruct (str_eqb (date commit) k) eqn:E; cbn [map fst]; [exact ND|].
    constructor; [|now apply IH].
    rewrite add_by_date_keys. intros [-> | I]; [|contradiction].
    now rewrite str_eqb_refl in E.
Qed.

Lemma group_loop (commits : list CommitRecord) (d : buckets) :
  NoDup (map fst d) ->
  NoDup (map fst (fold_left add_by_date commits d))
  /\ (forall key, In key (map fst (fold_left add_by_date commits d))
                  <-> In key (map date commits) \/ In key (map fst d))
  /\ (forall key, get (fold_left add_by_date commits d) key
                  = get d key ++ filter (fun c => str_eqb (date c) key) commits).
Proof.
  revert d; induction commits as [|c commits IH]; intros d ND; cbn [fold_left].
  - split; [exact ND|]. split; intros key; cbn [map In filter].
    + intuition.
    + now rewrite app_nil_r.
  - destruct (IH (add_by_date d c) (add_by_date_distinct d c ND)) as (N' & K & G).
    split; [exact N'|]. split; intros key.
    + rewrite K, add_by_date_keys. cbn [map In]. intuition.
    + rewrite G, add_by_date_get, <- app_assoc. cbn [filter].
      destruct (str_eqb (date c) key); reflexivity.
Qed.

(** The groups: one key per distinct date, and under each date the commits
    of that date in fetch order. *)
Lemma group_by_date_spec (commits : list CommitRecord) :
  NoDup (map fst (group_by_date commits))
  /\ (forall key, In key (map fst (group_by_date commits)) <-> In key (map date commits))
  /\ (forall key, get (group_by_date commits) key
                  = filter (fun c => str_eqb (date c) key) commits).
Proof.
  destruct (group_loop commits [] (NoDup_nil _)) as (N & K & G).
  split; [exact N|]. split; intros key.
  - rewrite (K key). cbn [map In]. intuition.
  - apply G.
Qed.

(** The dates of the per-date section: the distinct dates, descending. *)
Lemma sorted_dates_spec (commits : list CommitRecord) :
  descending (sorted_reverse (map fst (group_by_date commits)))
  /\ (forall key, In key (sorted_reverse (map fst (group_by_date commits)))
                  <-> In key (map date commits)).
Proof.
  destruct (group_by_date_spec commits) as (N & K & _).
  split; [now apply sorted_reverse_descending|].
  intros key. now rewrite in_sorted_reverse.
Qed.

End DateGroups.

(** ** The report *)

Section Report.

Context {U : Unicode} {W : Type} {host : Host W}.

(** A loop whose body always returns, returns. *)
Lemma mapM_returns (A B : Type) (f : A -> M W B) (P : A -> B -> Prop) :
  (forall x w, exists y w', f x w = (Ok y, w') /\ P x y) ->
  forall l w, exists ys w', mapM f l w = (Ok ys, w') /\ Forall2 P l ys.
Proof.
  intros Hf. induction l as [|x l IH]; intros w.
  - exists [], w. split; [reflexivity | constructor].
  - cbn [mapM]. unfold bind at 1.
    destruct (Hf x w) as (y & w1 & -> & Py).
    unfold bind at 1. destruct (IH w1) as (ys & w2 & -> & F).
    exists (y :: ys), w2. split; [reflexivity | now constructor].
Qed.

(** The totals are the sums of what [get_commit_stats] returned, commit by
    commit. *)
Lemma total_stats_loop (self : GitWeeklyReport) (commits : list CommitRecord) :
  git_runs ->
  forall (w : W) (files ins dels : Z),
  exists stats w',
    mapM (fun commit => get_commit_stats self (hash commit)) commits w = (Ok stats, w')
    /\ length stats = length commits
    /\ Forall non_negative stats
    /\ foldM (fun totals commit =>
                let '(total_files, total_insertions, total_deletions) := totals in
                stats <- get_commit_stats self (hash commit) ;;
                ret ((total_files + files_changed stats,
                      total_insertions + insertions stats,
                      total_deletions + deletions stats))%Z)
             (files, ins, dels) commits w
       = (Ok ((files + total files_changed stats,
               ins + total insertions stats,
               dels + total deletions stats)%Z), w').
Proof.
  intros G. induction commits as [|c commits IH]; intros w files ins dels.
  - exists [], w. unfold total. cbn. rewrite !Z.add_0_r.
    split; [reflexivity|]. split; [reflexivity|]. split; [constructor | reflexivity].
  - cbn [mapM foldM]. unfold bind at 1 3 4.
    destruct (get_commit_stats_returns self (hash c) w G) as (s & w1 & -> & Ps).
    unfold ret at 2. unfold bind at 1.
    destruct (IH w1 (files + files_changed s) (ins + insertions s) (dels + deletions s))%Z
      as (stats & w2 & -> & L & F & ->).
    exists (s :: stats), w2. split; [reflexivity|].
    split; [cbn [length]; now rewrite L|].
    split; [now constructor|].
    unfold total. cbn [map fold_right]. rewrite !Z.add_assoc. reflexivity.
Qed.

Lemma total_stats_returns (self : GitWeeklyReport) (commits : list CommitRecord) (w : W) :
  git_runs ->
  exists stats w',
    mapM (fun commit => get_commit_stats self (hash commit)) commits w = (Ok stats, w')
    /\ length stats = length commits
    /\ Forall non_negative stats
    /\ total_stats self commits w
       = (Ok (total files_changed stats, total insertions stats, total deletions stats), w').
Proof.
  intros G. destruct (total_stats_loop self commits G w 0 0 0)%Z
    as (stats & w' & E & L & F & T).
  exists stats, w'. split; [exact E|]. split; [exact L|]. split; [exact F | exact T].
Qed.

Lemma summary_lines_returns (self : GitWeeklyReport) (commits : list CommitRecord) (w : W) :
  exists lines w', summary_lines self commits w = (Ok lines, w').
Proof.
  unfold summary_lines.
  destruct (use_llm self); [destruct (llm self) as [enhancer|]|]; try (unfold ret; eauto).
  unfold bind. destruct (generate_summary_returns enhancer commits w) as (s & w' & ->).
  unfold ret; eauto.
Qed.

(** The lines of one date: its heading, one line per commit of the date in
    the order of the list, and an empty line. *)
Lemma date_lines_returns (self : GitWeeklyReport) (d : buckets) (key : str) (w : W) :
  git_runs ->
  exists lines w',
    date_lines self d key w = (Ok lines, w')
    /\ exists entries,
         map fst entries = get d key /\ lines = date_group_lines (key, entries).
Proof.
  intros G. unfold date_lines, bind at 1.
  destruct (mapM_returns _ _
              (fun commit => stats <- get_commit_stats self (hash commit) ;;
                             ret (date_commit_line commit stats))
              (fun commit line => exists stats, line = date_commit_line commit stats))
    with (l := get d key) (w := w) as (lines & w' & -> & F).
  { intros c w0. unfold bind.
    destruct (get_commit_stats_returns self (hash c) w0 G) as (s & w1 & -> & _).
    unfold ret. eauto. }
  eexists _, w'. split; [reflexivity|].
  induction F as [|c line commits lines [s ->] F (entries & E1 & E2)].
  - exists []. split; reflexivity.
  - exists ((c, s) :: entries). split; [cbn [map fst]; now rewrite E1|].
    unfold date_group_lines in *. cbn [fst snd map app] in *.
    injection E2 as E2. now rewrite E2.
Qed.

(** The per-date section: its heading, then the groups of the dates taken
    in descending order. *)
Lemma date_section_returns (self : GitWeeklyReport) (d : buckets) (w : W) :
  git_runs ->
  exists lines w' groups,
    date_section self d w = (Ok lines, w')
    /\ lines = [lit "## 📅 每日详情"; []] ++ flat_map date_group_lines groups
    /\ map fst groups = sorted_reverse (map fst d)
    /\ (forall group, In group groups -> map fst (snd group) = get d (fst group)).
Proof.
  intros G. unfold date_section, bind.
  destruct (mapM_returns _ _ (date_lines self d)
              (fun key lines => exists entries,
                 map fst entries = get d key /\ lines = date_group_lines (key, entries)))
    with (l := sorted_reverse (map fst d)) (w := w) as (blocks & w' & -> & F).
  { intros key w0. destruct (date_lines_returns self d key w0 G) as (l & w1 & E & X).
    exists l, w1. split; assumption. }
  unfold ret. eexists _, w'.
  assert (X : exists groups,
             concat blocks = flat_map date_group_lines groups
             /\ map fst groups = sorted_reverse (map fst d)
             /\ (forall group, In group groups -> map fst (snd group) = get d (fst group))).
  { induction F as [|key block keys blocks (entries & E1 & ->) F (groups & C & K & A)].
    - exists []. repeat split. intros group [].
    - exists ((key, entries) :: groups). split; [|split].
      + cbn [concat flat_map]. now rewrite C.
      + cbn [map fst]. now rewrite K.
      + intros group [<- | I]; [exact E1 | now apply A]. }
  destruct X as (groups & C & K & A).
  exists groups. split; [reflexivity|]. split; [now rewrite C|]. split; assumption.
Qed.

(** The anatomy of a report with commits: under [git_runs] the report is
    returned, and it is made of the heading, the summary when there is one,
    the statistics, the categories and the dates, in this order. *)
Lemma generate_report_anatomy (self : GitWeeklyReport) (commits : list CommitRecord) (w : W) :
  commits <> [] -> git_runs ->
  exists enhanced w1 stats w2 summary w3 dates w4,
    (if use_llm self then enhance_commit_messages self commits else ret commits) w
      = (Ok enhanced, w1)
    /\ Forall2 same_identity commits enhanced
    /\ mapM (fun commit => get_commit_stats self (hash commit)) enhanced w1 = (Ok stats, w2)
    /\ length stats = length commits
    /\ Forall non_negative stats
    /\ summary_lines self enhanced w2 = (Ok summary, w3)
    /\ date_section self (group_by_date enhanced) w3 = (Ok dates, w4)
    /\ generate_report self commits w
       = (Ok (join [NL]
                (heading_lines self enhanced ++ summary
                   ++ overview_lines (length commits)
                        (total files_changed stats) (total insertions stats)
                        (total deletions stats)
                   ++ category_section self (categorize_commits enhanced)
                   ++ dates)), w4).
Proof.
  intros NE G.
  assert (E0 : exists enhanced w1,
             (if use_llm self then enhance_commit_messages self commits else ret commits) w
             = (Ok enhanced, w1) /\ Forall2 same_identity commits enhanced).
  { destruct (use_llm self).
    - apply enhance_commit_messages_returns.
    - exists commits, w. split; [reflexivity | apply Forall2_same_identity_refl]. }
  destruct E0 as (enhanced & w1 & E0 & F).
  destruct (Forall2_same_identity _ _ F) as (L & _).
  destruct (total_stats_returns self enhanced w1 G) as (stats & w2 & E1 & L1 & P1 & T).
  destruct (summary_lines_returns self enhanced w2) as (summary & w3 & E2).
  destruct (date_section_returns self (group_by_date enhanced) w3 G)
    as (dates & w4 & groups & E3 & _).
  exists enhanced, w1, stats, w2, summary, w3, dates, w4.
  split; [exact E0|]. split; [exact F|]. split; [exact E1|].
  split; [now rewrite L1, L|]. split; [exact P1|]. split; [exact E2|]. split; [exact E3|].
  unfold generate_report. destruct commits as [|c commits]; [congruence|].
  cbn [is_empty]. unfold bind at 1. rewrite E0.
  unfold bind at 1. rewrite T.
  unfold bind at 1. rewrite E2.
  unfold bind at 1. rewrite E3.
  unfold ret. rewrite L. rewrite <- !app_assoc. reflexivity.
Qed.

(** The category section lists the buckets that hold commits, and these
    only. *)
Lemma category_section_non_empty (self : GitWeeklyReport) (d : buckets) :
  category_section self d
  = [lit "## 📋 工作分类"; []]
      ++ flat_map (category_group_lines self) (non_empty_buckets d).
Proof.
  unfold category_section, non_empty_buckets. f_equal.
  induction d as [|[category commits] d IH]; [reflexivity|].
  cbn [flat_map filter snd category_lines].
  destruct commits as [|c commits]; cbn [is_empty negb flat_map]; now rewrite IH.
Qed.

Lemma non_empty_buckets_in (d : buckets) (item : str * list CommitRecord) :
  In item (non_empty_buckets d) <-> In item d /\ snd item <> [].
Proof.
  unfold non_empty_buckets. rewrite filter_In.
  destruct (snd item); cbn [is_empty negb]; intuition congruence.
Qed.

(** The summary section is absent, or its heading, an empty line, the
    summary and an empty line. *)
Lemma summary_lines_shape (self : GitWeeklyReport) (commits : list CommitRecord)
    (w w' : W) (summary : list str) :
  summary_lines self commits w = (Ok summary, w') ->
  summary = [] \/ exists text, summary = [lit "## 🎯 本周总结"; []; text; []].
Proof.
  unfold summary_lines.
  destruct (use_llm self); [destruct (llm self) as [enhancer|]|];
    try (unfold ret; intros [= <- _]; now left).
  unfold bind, ret. destruct (generate_summary enhancer commits w) as [[text|e] w1];
    [|discriminate].
  intros [= <- _]. destruct text as [|c text]; cbn [is_empty]; [now left|].
  right. now exists (c :: text).
Qed.

(** The lines of the category section that open a subsection are the
    headings of the buckets listed, one each. *)
Lemma category_headings (self : GitWeeklyReport) (d : buckets) :
  filter (startswith (lit "### ")) (flat_map (category_group_lines self) d)
  = map (fun item => category_heading (fst item) (snd item)) d.
Proof.
  assert (Commits : forall commits,
            filter (startswith (lit "### "))
              (flat_map (category_commit_lines self) commits) = []).
  { induction commits as [|c commits IH]; [reflexivity|].
    cbn [flat_map]. rewrite filter_app, IH, app_nil_r.
    unfold category_commit_lines.
    destruct (use_llm self && is_some (original_message c));
      spell "### "; spell "- **"; spell "  *原始*: "; reflexivity. }
  induction d as [|[category commits] d IH]; [reflexivity|].
  cbn [flat_map map fst snd]. rewrite filter_app, IH. f_equal.
  unfold category_group_lines. cbn [fst snd filter].
  replace (startswith (lit "### ") (category_heading category commits)) with true
    by (symmetry; apply startswith_iff; unfold category_heading; eauto).
  now rewrite filter_app, Commits.
Qed.

(** C10.  In a report with commits the category section stands between the
    statistics and the per-date section: before it come the heading lines,
    the summary section when there is one, and the statistics; after it
    comes the per-date section, one group per date; and the section itself
    is its heading and, for each bucket that holds commits and for no
    other, a subsection: the heading "### label (count)", the lines of its
    commits and an empty line, the buckets taken in the order of the six
    labels.  The lines of the section that open a subsection are these
    headings and no others: a bucket without commits has none.  A label
    has a subsection exactly when some commit gets that label; the mapping
    itself always has all six labels. *)
Theorem category_section_omits_empty (self : GitWeeklyReport)
    (commits : list CommitRecord) (w : W) :
  commits <> [] -> git_runs ->
  exists enhanced w1 summary stats groups w',
    (if use_llm self then enhance_commit_messages self commits else ret commits) w
      = (Ok enhanced, w1)
    /\ Forall2 same_identity commits enhanced
    /\ (summary = [] \/ exists text, summary = [lit "## 🎯 本周总结"; []; text; []])
    /\ map fst groups = sorted_reverse (map fst (group_by_date enhanced))
    /\ generate_report self commits w
       = (Ok (join [NL]
                ((heading_lines self enhanced ++ summary
                    ++ overview_lines (length commits) (total files_changed stats)
                         (total insertions stats) (total deletions stats))
                   ++ ([lit "## 📋 工作分类"; []]
                         ++ flat_map (category_group_lines self)
                              (non_empty_buckets (categorize_commits enhanced)))
                   ++ ([lit "## 📅 每日详情"; []]
                         ++ flat_map date_group_lines groups))), w')
    /\ filter (startswith (lit "### "))
         (flat_map (category_group_lines self)
            (non_empty_buckets (categorize_commits enhanced)))
       = map (fun item =>
                lit "### " ++ fst item ++ lit " (" ++ str_of_nat (length (snd item))
                  ++ lit ")")
             (non_empty_buckets (categorize_commits enhanced))
    /\ map fst (categorize_commits enhanced) = labels
    /\ (forall item, In item (non_empty_buckets (categorize_commits enhanced)) ->
          snd item <> []
          /\ snd item = filter (fun c => str_eqb (category_of (message c)) (fst item)) enhanced
          /\ hd [] (category_group_lines self item)
             = lit "### " ++ fst item ++ lit " (" ++ str_of_nat (length (snd item)) ++ lit ")")
    /\ (forall label,
          In label (map fst (non_empty_buckets (categorize_commits enhanced)))
          <-> exists c, In c enhanced /\ category_of (message c) = label).
Proof.
  intros NE G.
  destruct (generate_report_anatomy self commits w NE G)
    as (enhanced & w1 & stats & w2 & summary & w3 & dates & w4
        & E0 & F & _ & _ & _ & E2 & E3 & R).
  destruct (date_section_returns self (group_by_date enhanced) w3 G)
    as (lines & w4' & groups & E3' & -> & K & _).
  rewrite E3' in E3. injection E3 as <- <-.
  exists enhanced, w1, summary, stats, groups, w4'.
  split; [exact E0|]. split; [exact F|].
  split; [exact (summary_lines_shape self enhanced w2 w3 summary E2)|].
  split; [exact K|].
  split; [|split; [apply category_headings|split; [|split]]].
  - rewrite R, category_section_non_empty, <- !app_assoc. reflexivity.
  - rewrite categorize_commits_spec, map_map. apply map_id.
  - intros [label bucket] I. apply non_empty_buckets_in in I as [I N].
    rewrite categorize_commits_spec in I. apply in_map_iff in I as (l & E & _).
    injection E as <- <-. cbn [fst snd] in *. repeat split. exact N.
  - intros label. rewrite in_map_iff. split.
    + intros ([l bucket] & <- & I). apply non_empty_buckets_in in I as [I N].
      rewrite categorize_commits_spec in I. apply in_map_iff in I as (l' & E & _).
      injection E as <- <-. cbn [fst snd] in *.
      destruct (filter (fun c => str_eqb (category_of (message c)) l') enhanced)
        as [|c cs] eqn:Fl; [congruence|].
      assert (Ic : In c (filter (fun c => str_eqb (category_of (message c)) l') enhanced))
        by (rewrite Fl; now left).
      apply filter_In in Ic as [Ic Ec]. apply str_eqb_eq in Ec. now exists c.
    + intros (c & Ic & <-).
      exists (category_of (message c),
              filter (fun c' => str_eqb (category_of (message c')) (category_of (message c)))
                     enhanced).
      split; [reflexivity|]. apply non_empty_buckets_in. cbn [fst snd]. split.
      * rewrite categorize_commits_spec. apply in_map_iff.
        exists (category_of (message c)). split; [reflexivity | apply category_of_label].
      * intros Z.
        assert (Ic' : In c (filter (fun c' => str_eqb (category_of (message c'))
                                               (category_of (message c))) enhanced))
          by (apply filter_In; split; [exact Ic | apply str_eqb_refl]).
        rewrite Z in Ic'. destruct Ic'.
Qed.

(** C6.  In a report with commits the per-date section is its heading and
    one group per distinct commit date, the dates strictly descending (as
    texts compare) whatever the order of the input: any input with the
    same dates gives the same list of dates.  Under each date stand the
    commits of that date in the order of the input sequence. *)
Theorem date_section_descending (self : GitWeeklyReport)
    (commits : list CommitRecord) (w : W) :
  commits <> [] -> git_runs ->
  exists enhanced w1 before groups w',
    (if use_llm self then enhance_commit_messages self commits else ret commits) w
      = (Ok enhanced, w1)
    /\ Forall2 same_identity commits enhanced
    /\ generate_report self commits w
       = (Ok (join [NL]
                (before ++ [lit "## 📅 每日详情"; []]
                   ++ flat_map date_group_lines groups)), w')
    /\ descending (map fst groups)
    /\ (forall d, In d (map fst groups) <-> In d (map date commits))
    /\ (forall group, In group groups ->
          map fst (snd group)
          = filter (fun c => str_eqb (date c) (fst group)) enhanced)
    /\ (forall other,
          (forall d, In d (map date other) <-> In d (map date commits)) ->
          sorted_reverse (map fst (group_by_date other)) = map fst groups)
    /\ (forall other, Permutation other commits ->
          sorted_reverse (map fst (group_by_date other)) = map fst groups).
Proof.
  intros NE G.
  destruct (generate_report_anatomy self commits w NE G)
    as (enhanced & w1 & stats & w2 & summary & w3 & dates & w4
        & E0 & F & _ & _ & _ & _ & E3 & R).
  destruct (date_section_returns self (group_by_date enhanced) w3 G)
    as (dates' & w4' & groups & E3' & D & K & A).
  rewrite E3 in E3'. injection E3' as <- <-.
  destruct (Forall2_same_identity _ _ F) as (_ & _ & _ & Hd).
  destruct (sorted_dates_spec enhanced) as (S & I).
  destruct (group_by_date_spec enhanced) as (_ & _ & Gt).
  assert (Same : forall other,
             (forall d, In d (map date other) <-> In d (map date commits)) ->
             sorted_reverse (map fst (group_by_date other)) = map fst groups).
  { intros other O. destruct (sorted_dates_spec other) as (S' & I').
    rewrite K. apply descending_unique; [exact S' | exact S |].
    intros x. now rewrite I', I, Hd, O. }
  exists enhanced, w1,
    (heading_lines self enhanced ++ summary
       ++ overview_lines (length commits) (total files_changed stats)
            (total insertions stats) (total deletions stats)
       ++ category_section self (categorize_commits enhanced)),
    groups, w4.
  split; [exact E0|]. split; [exact F|]. split; [|split; [|split; [|split; [|split]]]].
  - rewrite R, D, <- !app_assoc. reflexivity.
  - rewrite K. exact S.
  - intros d. now rewrite K, I, Hd.
  - intros group Ig. now rewrite (A group Ig), Gt.
  - exact Same.
  - intros other P. apply Same. intros d. split; intros Id.
    + eapply Permutation_in; [apply Permutation_map; exact P | exact Id].
    + eapply Permutation_in; [apply Permutation_map, Permutation_sym; exact P | exact Id].
Qed.

(** C7, amended.  In a report with commits the statistics section is the
    heading, an empty line and four bullet lines whose labels are in bold:
    the number of commits, which is the length of the sequence, and the
    totals of files, insertions and deletions, each the sum over the
    commits of the count [get_commit_stats] returned for it.  For two
    commits whose stats are all zero the first two bullets read
    "- **提交次数**: 2 次" and "- **文件变更**: 0 个文件". *)
Theorem statistics_section_totals (self : GitWeeklyReport)
    (commits : list CommitRecord) (w : W) :
  commits <> [] -> git_runs ->
  exists enhanced w1 stats w2 before after w',
    (if use_llm self then enhance_commit_messages self commits else ret commits) w
      = (Ok enhanced, w1)
    /\ Forall2 same_identity commits enhanced
    /\ mapM (fun commit => get_commit_stats self (hash commit)) enhanced w1 = (Ok stats, w2)
    /\ length stats = length commits
    /\ generate_report self commits w
       = (Ok (join [NL]
                (before
                   ++ [ lit "## 📊 统计概览";
                        [];
                        lit "- **提交次数**: " ++ str_of_nat (length commits) ++ lit " 次";
                        lit "- **文件变更**: " ++ str_of_Z (total files_changed stats)
                          ++ lit " 个文件";
                        lit "- **代码新增**: +" ++ str_of_Z (total insertions stats)
                          ++ lit " 行";
                        lit "- **代码删除**: -" ++ str_of_Z (total deletions stats)
                          ++ lit " 行";
                        [] ]
                   ++ after)), w')
    /\ (length commits = 2%nat -> total files_changed stats = 0%Z ->
        lit "- **提交次数**: " ++ str_of_nat (length commits) ++ lit " 次"
        = lit "- **提交次数**: 2 次"
        /\ lit "- **文件变更**: " ++ str_of_Z (total files_changed stats) ++ lit " 个文件"
           = lit "- **文件变更**: 0 个文件").
Proof.
  intros NE G.
  destruct (generate_report_anatomy self commits w NE G)
    as (enhanced & w1 & stats & w2 & summary & w3 & dates & w4
        & E0 & F & E1 & L & _ & _ & _ & R).
  exists enhanced, w1, stats, w2, (heading_lines self enhanced ++ summary),
    (category_section self (categorize_commits enhanced) ++ dates), w4.
  split; [exact E0|]. split; [exact F|]. split; [exact E1|]. split; [exact L|]. split.
  - rewrite R. unfold overview_lines. rewrite <- !app_assoc. reflexivity.
  - intros -> ->. split; vm_compute; reflexivity.
Qed.

End Report.

(** [git] runs on the example machines, when [int] reads what they
    print. *)
Lemma offline_host_git_runs {U : Unicode} (stat_output : str) :
  int_readable stat_output ->
  git_runs (host := Examples.offline_host stat_output).
Proof.
  intros Rd. split.
  - intros cmd w e w' R. discriminate R.
  - intros self commit_hash w stdout w' R. now injection R as <- _.
Qed.

(** What the example machines print is short. *)
Lemma short_readable {U : Unicode} (s : str) :
  N.of_nat (length s) <= int_max_str_digits -> int_readable s.
Proof.
  unfold int_readable. intros L.
  assert (B : (longest_digit_run s <= length s)%nat).
  { induction s as [|c s IH]; [reflexivity|].
    assert (D : forall t, (digit_run t <= length t)%nat).
    { induction t as [|x t IHt]; [reflexivity|].
      cbn [digit_run length]. destruct (isdigit x); lia. }
    cbn [longest_digit_run]. specialize (D (c :: s)). cbn [length] in *.
    assert (N.of_nat (length s) <= int_max_str_digits) by lia.
    specialize (IH ltac:(assumption)). lia. }
  lia.
Qed.

(** C10 at work: the scenario fills two buckets, and only these two get a
    heading. *)
Lemma category_section_omits_empty_witness :
  exists before after,
    fst (generate_report (U := ascii_tables) (host := Examples.offline_host [])
           (Examples.plain None) Examples.scenario tt)
    = Ok (join [NL]
            (before
               ++ ([lit "## 📋 工作分类"; []]
                     ++ flat_map (category_group_lines (Examples.plain None))
                          (non_empty_buckets
                             (categorize_commits (U := ascii_tables) Examples.scenario)))
               ++ after))
    /\ map fst (non_empty_buckets (categorize_commits (U := ascii_tables) Examples.scenario))
       = [label_feature; label_bugfix].
Proof.
  destruct (category_section_omits_empty (U := ascii_tables)
              (host := Examples.offline_host [])
              (Examples.plain None) Examples.scenario tt)
    as (enhanced & w1 & summary & stats & groups & w' & E0 & _ & _ & _ & R & _).
  - discriminate.
  - apply offline_host_git_runs, short_readable. vm_compute. discriminate.
  - injection E0 as <- <-.
    exists (heading_lines (Examples.plain None) Examples.scenario ++ summary
              ++ overview_lines (length Examples.scenario) (total files_changed stats)
                   (total insertions stats) (total deletions stats)),
      ([lit "## 📅 每日详情"; []] ++ flat_map date_group_lines groups).
    split.
    + rewrite R. reflexivity.
    + vm_compute. reflexivity.
Defined.

(** C6 at work: commits of 10, 12 and 10 January arrive in this order; the
    dates come out as 12 and 10 January. *)
Lemma date_section_descending_witness :
  exists before groups,
    fst (generate_report (U := ascii_tables) (host := Examples.offline_host [])
           (Examples.plain None)
           [Examples.alice_commit; Examples.carol_commit; Examples.bob_commit] tt)
    = Ok (join [NL]
            (before ++ [lit "## 📅 每日详情"; []] ++ flat_map date_group_lines groups))
    /\ map fst groups = [lit "2024-01-12"; lit "2024-01-10"]
    /\ (forall group, In group groups ->
          map fst (snd group)
          = filter (fun c => str_eqb (date c) (fst group))
                   [Examples.alice_commit; Examples.carol_commit; Examples.bob_commit]).
Proof.
  destruct (date_section_descending (U := ascii_tables)
              (host := Examples.offline_host [])
              (Examples.plain None)
              [Examples.alice_commit; Examples.carol_commit; Examples.bob_commit] tt)
    as (enhanced & w1 & before & groups & w' & E0 & _ & R & _ & _ & A & S & _).
  - discriminate.
  - apply offline_host_git_runs, short_readable. vm_compute. discriminate.
  - injection E0 as <- <-. exists before, groups. split; [|split].
    + rewrite R. reflexivity.
    + rewrite <- (S [Examples.alice_commit; Examples.carol_commit; Examples.bob_commit]).
      * vm_compute. reflexivity.
      * intros d. reflexivity.
    + exact A.
Defined.

(** C7 at work: the scenario, with all-zero stats. *)
Lemma statistics_section_totals_witness :
  exists report,
    fst (generate_report (U := ascii_tables) (host := Examples.offline_host [])
           (Examples.plain None) Examples.scenario tt) = Ok report
    /\ contains (lit "- **提交次数**: 2 次") report = true
    /\ contains (lit "- **文件变更**: 0 个文件") report = true.
Proof.
  destruct (statistics_section_totals (U := ascii_tables)
              (host := Examples.offline_host [])
              (Examples.plain None) Examples.scenario tt)
    as (enhanced & w1 & stats & w2 & before & after & w' & E0 & _ & E1 & _ & R & S).
  - discriminate.
  - apply offline_host_git_runs, short_readable. vm_compute. discriminate.
  - injection E0 as <- <-. vm_compute in E1. injection E1 as <- <-.
    destruct (S eq_refl eq_refl) as [S1 S2].
    eexists. split; [rewrite R; reflexivity|]. split.
    + apply (join_holds_line [NL] (lit "- **提交次数**: 2 次")).
      apply in_or_app; right; apply in_or_app; left.
      right; right; left. exact S1.
    + apply (join_holds_line [NL] (lit "- **文件变更**: 0 个文件")).
      apply in_or_app; right; apply in_or_app; left.
      right; right; right; left. exact S2.
Defined.

(** C7 as stated fails on the scenario: the labels are in bold, so the
    texts "提交次数: 2 次" and "文件变更: 0 个文件" are not in the report;
    the two lines read "- **提交次数**: 2 次" and "- **文件变更**: 0 个文件". *)
Lemma statistics_section_plain_text_counterexample :
  exists report,
    fst (generate_report (U := ascii_tables) (host := Examples.offline_host [])
           (Examples.plain None) Examples.scenario tt) = Ok report
    /\ contains (lit "提交次数: 2 次") report = false
    /\ contains (lit "文件变更: 0 个文件") report = false
    /\ contains (lit "- **提交次数**: 2 次") report = true
    /\ contains (lit "- **文件变更**: 0 个文件") report = true.
Proof.
  eexists. split; [vm_compute; reflexivity|].
  repeat split; vm_compute; reflexivity.
Qed.

(** The report of the scenario, in full. *)
Example generate_report_scenario :
  fst (generate_report (U := ascii_tables) (host := Examples.offline_host [])
         (Examples.plain None) Examples.scenario tt)
  = Ok (lit "# 本周工作周报

**统计时间**: 2024-01-10 ~ 2024-01-10

## 📊 统计概览

- **提交次数**: 2 次
- **文件变更**: 0 个文件
- **代码新增**: +0 行
- **代码删除**: -0 行

## 📋 工作分类

### 功能开发 (1)
- **Bob**: add new dashboard

### Bug修复 (1)
- **Alice**: fix login bug

## 📅 每日详情

### 2024-01-10
- **Alice** (0 文件, +0/-0): fix login bug
- **Bob** (0 文件, +0/-0): add new dashboard
").
Proof. vm_compute. reflexivity. Qed.

(** A report with enhancement: three commits out of date order, an API
    that answers every call with " 已润色 " (one call per commit and one for
    the summary), and " 3 files changed, 12 insertions(+), 1 deletion(-)"
    as the stat of every commit. *)
Example generate_report_enhanced :
  generate_report (U := ascii_tables)
    (host := Examples.answering_host (Examples.chat_completion (lit " 已润色 ")))
    (Examples.enhancing (Some (lit "sk-1")))
    [Examples.alice_commit; Examples.carol_commit; Examples.bob_commit] 0%nat
  = (Ok (lit "# 本周工作周报

**统计时间**: 2024-01-10 ~ 2024-01-10

## 🎯 本周总结

已润色

## 📊 统计概览

- **提交次数**: 3 次
- **文件变更**: 9 个文件
- **代码新增**: +36 行
- **代码删除**: -3 行

## 📋 工作分类

### 其他 (3)
- **Alice**: 已润色
  *原始*: fix login bug
- **Carol**: 已润色
  *原始*: Bump version
- **Bob**: 已润色
  *原始*: add new dashboard

## 📅 每日详情

### 2024-01-12
- **Carol** (3 文件, +12/-1): 已润色

### 2024-01-10
- **Alice** (3 文件, +12/-1): 已润色
- **Bob** (3 文件, +12/-1): 已润色
"), 4%nat).
Proof. vm_compute. reflexivity. Qed.

(** ** Stripped texts *)

Section Stripped.

Context {U : Unicode}.

Lemma lstrip_head (s : str) :
  match lstrip s with
  | [] => True
  | c :: _ => isspace c = false
  end.
Proof.
  induction s as [|c s IH]; cbn [lstrip]; [exact I|].
  destruct (isspace c) eqn:E; [exact IH | exact E].
Qed.

Lemma lstrip_fixed (s : str) :
  match s with [] => True | c :: _ => isspace c = false end -> lstrip s = s.
Proof. destruct s as [|c s]; [reflexivity|]. cbn [lstrip]. now intros ->. Qed.

Lemma lstrip_lstrip (s : str) : lstrip (lstrip s) = lstrip s.
Proof. apply lstrip_fixed, lstrip_head. Qed.

Lemma rstrip_rstrip (s : str) : rstrip (rstrip s) = rstrip s.
Proof. unfold rstrip. now rewrite rev_involutive, lstrip_lstrip. Qed.

Lemma rstrip_snoc (s : str) (c : char) :
  rstrip (s ++ [c]) = if isspace c then rstrip s else s ++ [c].
Proof.
  unfold rstrip. rewrite rev_app_distr. cbn [rev app lstrip].
  destruct (isspace c); [reflexivity|].
  cbn [rev]. now rewrite rev_involutive.
Qed.

Lemma lstrip_length (s : str) : (length (lstrip s) <= length s)%nat.
Proof.
  induction s as [|c s IH]; cbn [lstrip]; [lia|].
  destruct (isspace c); cbn [length]; lia.
Qed.

(** [rstrip] takes nothing from the front. *)
Lemma rstrip_keeps_head (s : str) : lstrip s = s -> lstrip (rstrip s) = rstrip s.
Proof.
  induction s as [|c s IH] using rev_ind; intros L; [reflexivity|].
  rewrite rstrip_snoc. destruct (isspace c) eqn:E; [|exact L].
  apply IH. destruct s as [|x s]; [reflexivity|].
  cbn [app lstrip] in L |- *.
  destruct (isspace x); [|reflexivity].
  exfalso. pose proof (lstrip_length (s ++ [c])) as Len.
  rewrite L in Len. cbn [length] in Len. lia.
Qed.

(** What [strip] returns, [strip] leaves alone: it neither starts nor
    ends with white space. *)
Lemma strip_trimmed (s : str) : trimmed (strip s).
Proof.
  unfold trimmed, strip.
  rewrite (rstrip_keeps_head (lstrip s) (lstrip_lstrip s)).
  apply rstrip_rstrip.
Qed.

Lemma trimmed_lstrip (s : str) : trimmed s -> lstrip s = s.
Proof.
  unfold trimmed, strip. intros T.
  pose proof (rstrip_keeps_head (lstrip s) (lstrip_lstrip s)) as K.
  rewrite T in K. exact K.
Qed.

(** A stripped text neither starts nor ends with white space. *)
Lemma trimmed_ends (s : str) :
  trimmed s ->
  match s with [] => True | c :: _ => isspace c = false end
  /\ match rev s with [] => True | c :: _ => isspace c = false end.
Proof.
  intros T. pose proof (trimmed_lstrip s T) as L. split.
  - rewrite <- L. apply lstrip_head.
  - unfold trimmed, strip in T. rewrite L in T. unfold rstrip in T.
    assert (R : lstrip (rev s) = rev s)
      by (rewrite <- T at 2; now rewrite rev_involutive).
    rewrite <- R. apply lstrip_head.
Qed.

End Stripped.

(** ** More on the history fetcher *)

Section HistoryMore.

Context {U : Unicode} {W : Type} {host : Host W}.

(** No line of a split text holds the separator. *)
Lemma split_lines_free (sep : char) (s : str) :
  Forall (fun line => occurrences sep line = 0%nat) (split sep s).
Proof.
  induction s as [|c s IH]; cbn [split]; [repeat constructor|].
  destruct (c =? sep) eqn:E; [constructor; [reflexivity | exact IH]|].
  destruct (split sep s) as [|line lines]; [repeat constructor|].
  - unfold occurrences. cbn [filter]. now rewrite N.eqb_sym, E.
  - inversion IH as [|? ? Hl Hls]; subst. cbn [cons_head]. constructor; [|exact Hls].
    unfold occurrences in *. cbn [filter]. now rewrite N.eqb_sym, E.
Qed.

Lemma parse_log_lines_in (c : CommitRecord) (lines : list str) :
  In c (parse_log_lines lines) ->
  exists line, In line lines /\ parse_log_line line = [c].
Proof.
  unfold parse_log_lines. rewrite in_flat_map. intros (line & I & Ic).
  exists line. split; [exact I|].
  destruct (well_formed_line line) eqn:Wf.
  - destruct (parse_log_line_well_formed line Wf) as (c' & E & _).
    rewrite E in Ic |- *. destruct Ic as [-> | []]. reflexivity.
  - rewrite (parse_log_line_malformed line Wf) in Ic. destruct Ic.
Qed.

Lemma parse_log_lines_parsed (s : str) (c : CommitRecord) :
  In c (parse_log_lines (split NL s)) -> parsed c.
Proof.
  intros I. apply parse_log_lines_in in I as (line & Il & E).
  pose proof (split_lines_free NL s) as F. rewrite Forall_forall in F.
  specialize (F line Il).
  destruct (well_formed_line line) eqn:Wf.
  - destruct (parse_log_line_well_formed line Wf) as (c' & E' & O & L & Ph & Pa & Pd).
    rewrite E in E'. injection E' as <-.
    unfold parsed, format_log_line. rewrite <- L. repeat split; assumption.
  - rewrite (parse_log_line_malformed line Wf) in E. discriminate E.
Qed.

(** Cutting at the first separator, when the field before it has none. *)
Lemma split_max_field (sep : char) (field rest : str) (n : nat) :
  occurrences sep field = 0%nat ->
  split_max sep (field ++ sep :: rest) (S n) = field :: split_max sep rest n.
Proof.
  intros O. induction field as [|c field IH].
  - cbn [app split_max]. now rewrite N.eqb_refl.
  - unfold occurrences in O. cbn [filter] in O.
    destruct (sep =? c) eqn:E; [discriminate O|].
    cbn [app split_max]. rewrite N.eqb_sym, E, (IH O). reflexivity.
Qed.

Lemma split_max_zero (sep : char) (s : str) : split_max sep s 0 = [s].
Proof. destruct s; reflexivity. Qed.

(** A printed commit parses back to itself. *)
Lemma parse_format_log_line (c : CommitRecord) :
  parsed c -> parse_log_line (format_log_line c) = [c].
Proof.
  intros (O & Ph & Pa & Pd & _). unfold parse_log_line, format_log_line.
  cbn [app].
  rewrite (split_max_field PIPE (hash c) _ 2 Ph).
  rewrite (split_max_field PIPE (author c) _ 1 Pa).
  rewrite (split_max_field PIPE (date c) _ 0 Pd).
  rewrite split_max_zero.
  assert (NE : is_empty (hash c ++ PIPE :: author c ++ PIPE :: date c
                           ++ PIPE :: message c) = false)
    by (destruct (hash c); reflexivity).
  rewrite NE. destruct c as [h a d m o]. cbn in *. now subst o.
Qed.

Lemma split_field (sep : char) (field rest : str) :
  occurrences sep field = 0%nat ->
  split sep (field ++ sep :: rest) = field :: split sep rest.
Proof.
  intros O. induction field as [|c field IH].
  - cbn [app split]. now rewrite N.eqb_refl.
  - unfold occurrences in O. cbn [filter] in O.
    destruct (sep =? c) eqn:E; [discriminate O|].
    cbn [app split]. rewrite N.eqb_sym, E, (IH O). reflexivity.
Qed.

Lemma split_whole (sep : char) (field : str) :
  occurrences sep field = 0%nat -> split sep field = [field].
Proof.
  intros O. induction field as [|c field IH]; [reflexivity|].
  unfold occurrences in O. cbn [filter] in O.
  destruct (sep =? c) eqn:E; [discriminate O|].
  cbn [split]. rewrite N.eqb_sym, E, (IH O). reflexivity.
Qed.

(** Splitting what was joined gives the lines back. *)
Lemma split_join (sep : char) (lines : list str) :
  lines <> [] ->
  Forall (fun line => occurrences sep line = 0%nat) lines ->
  split sep (join [sep] lines) = lines.
Proof.
  intros NE F. induction F as [|line lines O F IH]; [congruence|].
  destruct lines as [|line' lines].
  - cbn [join]. now apply split_whole.
  - cbn [join app]. rewrite (split_field sep line _ O). f_equal.
    apply IH. discriminate.
Qed.

Lemma parse_format_log_lines (commits : list CommitRecord) :
  Forall parsed commits -> parse_log_lines (map format_log_line commits) = commits.
Proof.
  unfold parse_log_lines. induction 1 as [|c commits P F IH]; [reflexivity|].
  cbn [map flat_map]. now rewrite (parse_format_log_line c P), IH.
Qed.

(** X1.  What [get_commits_last_week] makes of each outcome of [git log]:
    a failure status and a missing program both give the empty list, as an
    empty log does; any other exception passes through; and every commit
    of a completed run is a parsed one: no pipe in its hash, author and
    date, no line break in any field, no original message. *)
Theorem get_commits_last_week_outcomes (self : GitWeeklyReport) (w : W) :
  (forall e w',
     subprocess_run (git_log_cmd self (week_ago w)) w = (Raise e, w') ->
     e = CalledProcessError \/ e = FileNotFoundError ->
     get_commits_last_week self w = (Ok [], w'))
  /\ (forall w',
        subprocess_run (git_log_cmd self (week_ago w)) w = (Ok [], w') ->
        get_commits_last_week self w = (Ok [], w'))
  /\ (forall e w',
        subprocess_run (git_log_cmd self (week_ago w)) w = (Raise e, w') ->
        e <> CalledProcessError -> e <> FileNotFoundError ->
        get_commits_last_week self w = (Raise e, w'))
  /\ (forall stdout w',
        subprocess_run (git_log_cmd self (week_ago w)) w = (Ok stdout, w') ->
        exists commits,
          get_commits_last_week self w = (Ok commits, w')
          /\ Forall parsed commits).
Proof.
  unfold get_commits_last_week, try_except, bind.
  split; [|split; [|split]].
  - intros e w' -> [-> | ->]; reflexivity.
  - intros w' ->. reflexivity.
  - intros e w' -> N1 N2. destruct e; try reflexivity; congruence.
  - intros stdout w' ->. eexists. split; [reflexivity|].
    apply Forall_forall. intros c. apply parse_log_lines_parsed.
Qed.

(** X2.  Printing and parsing are inverse: when [git log] prints, one per
    line, commits whose hash, author and date hold no pipe and whose
    fields hold no line break, and the output neither starts nor ends with
    white space, [get_commits_last_week] returns these very commits, in
    their order; pipes in the message are kept. *)
Theorem log_round_trip (self : GitWeeklyReport) (commits : list CommitRecord)
    (w w' : W) :
  Forall parsed commits ->
  strip (join [NL] (map format_log_line commits))
  = join [NL] (map format_log_line commits) ->
  subprocess_run (git_log_cmd self (week_ago w)) w
  = (Ok (join [NL] (map format_log_line commits)), w') ->
  get_commits_last_week self w = (Ok commits, w').
Proof.
  intros P T R. unfold get_commits_last_week, try_except, bind. rewrite R, T.
  unfold ret. f_equal. f_equal.
  destruct commits as [|c commits]; [reflexivity|].
  rewrite split_join.
  - now apply parse_format_log_lines.
  - discriminate.
  - apply Forall_forall. intros line I. apply in_map_iff in I as (c' & <- & Ic).
    rewrite Forall_forall in P. now destruct (P c' Ic) as (_ & _ & _ & _ & N).
Qed.

End HistoryMore.

(** X1 at work: without [git], and with a [git] that fails. *)
Lemma get_commits_last_week_outcomes_witness :
  get_commits_last_week (U := ascii_tables) (host := Machines.gitless_host)
    (Examples.plain None) tt = (Ok [], tt)
  /\ get_commits_last_week (U := ascii_tables) (host := Machines.failing_git_host)
       (Examples.plain None) tt = (Ok [], tt).
Proof.
  split.
  - destruct (get_commits_last_week_outcomes (U := ascii_tables)
                (host := Machines.gitless_host) (Examples.plain None) tt) as [failed _].
    apply (failed FileNotFoundError tt eq_refl). now right.
  - destruct (get_commits_last_week_outcomes (U := ascii_tables)
                (host := Machines.failing_git_host) (Examples.plain None) tt)
      as [failed _].
    apply (failed CalledProcessError tt eq_refl). now left.
Defined.

(** X2 at work: the two commits of the scenario, printed and read back. *)
Lemma log_round_trip_witness :
  get_commits_last_week (U := ascii_tables)
    (host := Examples.offline_host
               (join [NL] (map format_log_line Examples.scenario)))
    (Examples.plain None) tt
  = (Ok Examples.scenario, tt).
Proof.
  apply (log_round_trip (U := ascii_tables)
           (host := Examples.offline_host
                      (join [NL] (map format_log_line Examples.scenario)))).
  - repeat constructor.
  - vm_compute. reflexivity.
  - reflexivity.
Defined.

(** ** The author list *)

Section AuthorList.

Context {U : Unicode} {W : Type} {shell : Shell W}.

Lemma mem_iff (name : str) (names : list str) :
  mem name names = true <-> In name names.
Proof.
  unfold mem. rewrite existsb_exists. split.
  - intros (x & I & E). apply str_eqb_eq in E. now subst.
  - intros I. exists name. split; [exact I | apply str_eqb_refl].
Qed.

Lemma in_set_list (name : str) (names : list str) :
  In name (set_list names) <-> In name names.
Proof.
  induction names as [|n names IH]; cbn [set_list In]; [reflexivity|].
  destruct (mem n names) eqn:M; cbn [In]; rewrite IH; [|reflexivity].
  apply mem_iff in M. split; [now right | intros [<- | I]; assumption].
Qed.

Lemma set_list_distinct (names : list str) : NoDup (set_list names).
Proof.
  induction names as [|n names IH]; cbn [set_list]; [constructor|].
  destruct (mem n names) eqn:M; [exact IH|].
  constructor; [|exact IH]. rewrite in_set_list, <- mem_iff. now rewrite M.
Qed.

Lemma in_insert_asc (x name : str) (l : list str) :
  In x (insert_asc name l) <-> x = name \/ In x l.
Proof.
  induction l as [|n l IH]; cbn [insert_asc In].
  - intuition.
  - destruct (str_ltb n name); cbn [In]; [rewrite IH|]; intuition.
Qed.

Lemma in_sorted (x : str) (names : list str) : In x (sorted names) <-> In x names.
Proof.
  induction names as [|n names IH]; cbn [sorted In]; [reflexivity|].
  rewrite in_insert_asc, IH. intuition.
Qed.

Lemma insert_asc_ascending (name : str) (l : list str) :
  ascending l -> ~ In name l -> ascending (insert_asc name l).
Proof.
  unfold ascending.
  induction l as [|n l IH]; intros S NI; cbn [insert_asc].
  - constructor; constructor.
  - inversion S as [|? ? S' F]; subst.
    destruct (str_ltb n name) eqn:L.
    + constructor.
      * apply IH; [exact S' | intros I; apply NI; now right].
      * apply Forall_forall. intros x I. apply in_insert_asc in I as [-> | I].
        -- exact L.
        -- rewrite Forall_forall in F. now apply F.
    + assert (L' : str_ltb name n = true).
      { destruct (str_ltb name n) eqn:L'; [reflexivity|].
        exfalso. apply NI. left. now apply str_ltb_total. }
      constructor; [exact S|].
      constructor; [exact L'|].
      rewrite Forall_forall in *. intros x I.
      apply str_ltb_trans with n; [exact L' | now apply F].
Qed.

Lemma sorted_ascending (names : list str) : NoDup names -> ascending (sorted names).
Proof.
  induction 1 as [|n names NI ND IH]; cbn [sorted].
  - constructor.
  - apply insert_asc_ascending; [exact IH|]. now rewrite in_sorted.
Qed.

(** Two ascending lists with the same members are the same list. *)
Lemma ascending_unique (l1 l2 : list str) :
  ascending l1 -> ascending l2 -> (forall x, In x l1 <-> In x l2) -> l1 = l2.
Proof.
  unfold ascending. revert l2; induction l1 as [|a l1 IH]; intros [|b l2] S1 S2 E.
  - reflexivity.
  - exfalso. apply (proj2 (E b)). now left.
  - exfalso. apply (proj1 (E a)). now left.
  - inversion S1 as [|? ? S1' F1]; subst. inversion S2 as [|? ? S2' F2]; subst.
    rewrite Forall_forall in F1, F2.
    assert (a = b).
    { destruct (proj1 (E a) (or_introl eq_refl)) as [-> | Ia]; [reflexivity|].
      destruct (proj2 (E b) (or_introl eq_refl)) as [<- | Ib]; [reflexivity|].
      pose proof (F2 a Ia) as L1. pose proof (F1 b Ib) as L2.
      pose proof (str_ltb_trans _ _ _ L1 L2) as L. now rewrite str_ltb_irrefl in L. }
    subst b. f_equal. apply IH; try assumption.
    intros x. split; intros I.
    + destruct (proj1 (E x) (or_intror I)) as [<- | I']; [|exact I'].
      apply F1 in I. now rewrite str_ltb_irrefl in I.
    + destruct (proj2 (E x) (or_intror I)) as [<- | I']; [|exact I'].
      apply F2 in I. now rewrite str_ltb_irrefl in I.
Qed.

Lemma in_author_lines (name : str) (lines : list str) :
  In name (flat_map author_of_line lines)
  <-> name <> [] /\ exists line, In line lines /\ strip line = name.
Proof.
  rewrite in_flat_map. unfold author_of_line. split.
  - intros (line & I & A). destruct (strip line) as [|c s] eqn:E; [destruct A|].
    cbn [is_empty In] in A. destruct A as [<- | []].
    split; [discriminate | exists line; split; assumption].
  - intros (NE & line & I & <-). exists line. split; [exact I|].
    destruct (strip line); [congruence | now left].
Qed.

(** X3.  The author list.  When the shell pipeline completes,
    [get_all_authors] returns the names in strictly ascending order, each
    once: the non-empty stripped lines of the stripped output and nothing
    else, so no name starts or ends with white space; the order in which
    the set yields the names does not matter.  When the shell exits with a
    failure status the list is empty; any other exception passes
    through. *)
Theorem get_all_authors_sorted (self : GitWeeklyReport) (w : W) :
  (forall stdout w',
     shell_run (join (lit " ") (authors_cmd self)) (repo_path self) w = (Ok stdout, w') ->
     exists authors,
       get_all_authors self w = (Ok authors, w')
       /\ ascending authors
       /\ (forall name,
             In name authors
             <-> name <> []
                 /\ exists line, In line (split NL (strip stdout)) /\ strip line = name)
       /\ (forall name, In name authors -> trimmed name)
       /\ (forall members,
             NoDup members ->
             (forall name,
                In name members
                <-> In name (flat_map author_of_line (split NL (strip stdout)))) ->
             sorted members = authors))
  /\ (forall w',
        shell_run (join (lit " ") (authors_cmd self)) (repo_path self) w
        = (Raise CalledProcessError, w') ->
        get_all_authors self w = (Ok [], w'))
  /\ (forall e w',
        shell_run (join (lit " ") (authors_cmd self)) (repo_path self) w = (Raise e, w') ->
        e <> CalledProcessError ->
        get_all_authors self w = (Raise e, w')).
Proof.
  unfold get_all_authors, try_except, bind.
  split; [|split].
  - intros stdout w' ->. eexists. split; [reflexivity|].
    assert (M : forall name,
               In name (sorted (set_list (flat_map author_of_line (split NL (strip stdout)))))
               <-> In name (flat_map author_of_line (split NL (strip stdout))))
      by (intros name; now rewrite in_sorted, in_set_list).
    split; [apply sorted_ascending, set_list_distinct|].
    split; [intros name; now rewrite M, in_author_lines|].
    split.
    + intros name I. apply M, in_author_lines in I as (_ & line & _ & <-).
      apply strip_trimmed.
    + intros members ND Same. apply ascending_unique.
      * now apply sorted_ascending.
      * apply sorted_ascending, set_list_distinct.
      * intros name. now rewrite in_sorted, Same, M.
  - intros w' ->. reflexivity.
  - intros e w' -> N. destruct e; try reflexivity. congruence.
Qed.

End AuthorList.

(** X3 at work: four lines, one name twice, one padded, one line blank. *)
Lemma get_all_authors_sorted_witness :
  get_all_authors (U := ascii_tables)
    (shell := Machines.echo_shell (lit "Bob
  Alice 

Bob
"))
    (Examples.plain None) tt
  = (Ok [lit "Alice"; lit "Bob"], tt).
Proof.
  destruct (get_all_authors_sorted (U := ascii_tables)
              (shell := Machines.echo_shell (lit "Bob
  Alice 

Bob
"))
              (Examples.plain None) tt) as [completed _].
  destruct (completed _ tt eq_refl) as (authors & E & _ & _ & _ & any_order).
  rewrite E. f_equal. f_equal. symmetry.
  apply (any_order [lit "Bob"; lit "Alice"]).
  - repeat constructor; vm_compute; intuition discriminate.
  - intros name. vm_compute. intuition.
Defined.

(** ** What the enhancer reads *)

Section EnhancerMore.

Context {U : Unicode} {W : Type} {host : Host W}.

Lemma completion_text_trimmed (r : response) (text : str) :
  completion_text r = Ok text -> trimmed text.
Proof.
  unfold completion_text.
  destruct (json_body r) as [body|]; [|discriminate].
  destruct (getitem body (lit "choices")) as [choices|]; [|discriminate].
  cbn [and_then]. destruct (getitem0 choices) as [choice|]; [|discriminate].
  cbn [and_then]. destruct (getitem choice (lit "message")) as [msg|]; [|discriminate].
  cbn [and_then]. destruct (getitem msg (lit "content")) as [content|]; [|discriminate].
  cbn [and_then]. destruct content; try discriminate.
  intros [= <-]. apply strip_trimmed.
Qed.

Lemma empty_trimmed : trimmed [].
Proof. reflexivity. Qed.

(** X4.  What the enhancer reads from an answer.  From a JSON object whose
    "choices" is an array that starts with an object whose "message" is an
    object whose "content" is a string, the completion is that string
    stripped, whatever else the answer holds.  With a credential, a 200
    answer with a readable completion makes [enhance_commit_message]
    return the completion, and [generate_summary] too for a non-empty list,
    in the world the call left.  So a rewrite is the message it was given
    or a text without white space at its ends, and a summary has none at
    its ends. *)
Theorem enhancer_reads_completion (self : LLMEnhancer) (message : str)
    (commits : list CommitRecord) (w : W) :
  (forall status top choice others msg text,
     lookup (lit "choices") top = Some (JArray (JObject choice :: others)) ->
     lookup (lit "message") choice = Some (JObject msg) ->
     lookup (lit "content") msg = Some (JString text) ->
     completion_text {| status_code := status; json_body := Some (JObject top) |}
     = Ok (strip text))
  /\ (forall r w' text,
        truthy (api_key self) = true ->
        requests_post (enhance_request self message) w = (Ok r, w') ->
        status_code r = 200%Z ->
        completion_text r = Ok text ->
        enhance_commit_message self message w = (Ok text, w'))
  /\ (forall r w' text,
        truthy (api_key self) = true -> commits <> [] ->
        requests_post (summary_request self commits) w = (Ok r, w') ->
        status_code r = 200%Z ->
        completion_text r = Ok text ->
        generate_summary self commits w = (Ok text, w'))
  /\ (exists text w', enhance_commit_message self message w = (Ok text, w')
                      /\ (text = message \/ trimmed text))
  /\ (exists text w', generate_summary self commits w = (Ok text, w') /\ trimmed text).
Proof.
  split; [|split; [|split; [|split]]].
  - intros status top choice others msg text C M T.
    unfold completion_text. cbn [json_body getitem]. rewrite C.
    cbn [and_then getitem0 getitem]. rewrite M. cbn [and_then getitem]. now rewrite T.
  - intros r w' text K R S C. unfold enhance_commit_message, try_except, bind, lift.
    rewrite K. cbn [negb]. now rewrite R, S, C.
  - intros r w' text K NE R S C. unfold generate_summary, try_except, bind, lift.
    rewrite K. destruct commits; [congruence|]. cbn [negb orb is_empty].
    now rewrite R, S, C.
  - unfold enhance_commit_message, try_except, bind, lift, ret, Exception.
    destruct (negb (truthy (api_key self))); [eauto|].
    destruct (requests_post (enhance_request self message) w) as [[r|e] w']; [|eauto].
    destruct (status_code r =? 200)%Z; [|eauto].
    destruct (completion_text r) as [text|e] eqn:C; [|eauto].
    exists text, w'. split; [reflexivity|]. right. exact (completion_text_trimmed r text C).
  - unfold generate_summary, try_except, bind, lift, ret, Exception.
    destruct (negb (truthy (api_key self)) || is_empty commits);
      [exists [], w; split; [reflexivity | exact empty_trimmed]|].
    destruct (requests_post (summary_request self commits) w) as [[r|e] w'];
      [|exists [], w'; split; [reflexivity | exact empty_trimmed]].
    destruct (status_code r =? 200)%Z;
      [|exists [], w'; split; [reflexivity | exact empty_trimmed]].
    destruct (completion_text r) as [text|e] eqn:C;
      [|exists [], w'; split; [reflexivity | exact empty_trimmed]].
    exists text, w'. split; [reflexivity | exact (completion_text_trimmed r text C)].
Qed.

End EnhancerMore.

(** X4 at work: the API answers with a padded text; the rewrite is the
    text without the padding, after one call. *)
Lemma enhancer_reads_completion_witness :
  enhance_commit_message (U := ascii_tables)
    (host := Examples.answering_host (Examples.chat_completion (lit "  修复登录问题
")))
    (Examples.enhancer (Some (lit "sk-1"))) (lit "fix login bug") 0%nat
  = (Ok (lit "修复登录问题"), 1%nat).
Proof.
  destruct (enhancer_reads_completion (U := ascii_tables)
              (host := Examples.answering_host (Examples.chat_completion (lit "  修复登录问题
")))
              (Examples.enhancer (Some (lit "sk-1"))) (lit "fix login bug") [] 0%nat)
    as (_ & reads & _).
  apply (reads (Examples.chat_completion (lit "  修复登录问题
"))).
  - reflexivity.
  - reflexivity.
  - reflexivity.
  - vm_compute. reflexivity.
Defined.

(** ** Reading the summary line of [git show --stat] *)

Section SummaryLine.

Context {U : Unicode} {W : Type} {host : Host W}.

Hypothesis printable : reads_printable.

Lemma nondigit (c : char) : 32 <= c -> c < 127 -> c < 48 \/ 57 < c -> isdigit c = false.
Proof.
  intros L H O. unfold isdigit. destruct printable as (_ & _ & D). now rewrite D.
Qed.

Lemma digits_no_space (n : N) : Forall (fun c => isspace c = false) (str_of_N n).
Proof.
  destruct printable as (_ & S & _). unfold str_of_N.
  pose proof (uint_chars_digits (N.to_uint n)) as F.
  induction F as [|c l (v & L & ->) F IH]; constructor; [apply S; lia | exact IH].
Qed.

Lemma digits_no_letter (x : char) (n : N) :
  57 < x -> Forall (fun c => c <> x) (str_of_N n).
Proof.
  intros X. unfold str_of_N.
  pose proof (uint_chars_digits (N.to_uint n)) as F.
  induction F as [|c l (v & L & ->) F IH]; constructor; [lia | exact IH].
Qed.

(** The search passes a character that is no digit. *)
Lemma re_search_step (word : str) (c : char) (s : str) :
  isdigit c = false -> re_search_count word (c :: s) = re_search_count word s.
Proof.
  intros D. cbn [re_search_count]. unfold re_match_count at 1. cbn [re_plus].
  now rewrite D.
Qed.

(** No match starts in a run of digits that a blank and another word
    follow. *)
Lemma re_match_count_stop (word g : str) (x : char) (rest : str) :
  Forall (fun c => isspace c = false) g ->
  isspace x = false -> startswith word (x :: rest) = false ->
  re_match_count word (g ++ 32 :: x :: rest) = None.
Proof.
  destruct printable as ((_ & Sp & Nd) & _ & _).
  intros F X S. unfold re_match_count.
  induction g as [|c g IH]; cbn [app re_plus].
  - unfold isdigit. now rewrite Nd.
  - inversion F as [|? ? Pc F']; subst.
    destruct (isdigit c); [|reflexivity]. rewrite (IH F').
    destruct g as [|c' g]; cbn [app re_plus].
    + now rewrite Sp, X, S.
    + inversion F' as [|? ? Pc' _]; subst. now rewrite Pc'.
Qed.

Lemma re_search_digits (word g : str) (x : char) (rest : str) :
  Forall (fun c => isspace c = false) g ->
  isspace x = false -> startswith word (x :: rest) = false ->
  re_search_count word (g ++ 32 :: x :: rest) = re_search_count word (x :: rest).
Proof.
  destruct printable as ((_ & _ & Nd) & _ & _).
  intros F X S. induction g as [|c g IH].
  - cbn [app]. apply re_search_step. unfold isdigit. now rewrite Nd.
  - pose proof (re_match_count_stop word (c :: g) x rest F X S) as M.
    cbn [app] in *. cbn [re_search_count]. rewrite M.
    inversion F; subst. now apply IH.
Qed.

Lemma startswith_other (h x : char) (word rest : str) :
  h <> x -> startswith (h :: word) (x :: rest) = false.
Proof. intros N. cbn [startswith]. now rewrite (proj2 (N.eqb_neq h x) N). Qed.

Lemma re_search_indent (word : str) (indent : nat) (s : str) :
  re_search_count word (repeat 32 indent ++ s) = re_search_count word s.
Proof.
  induction indent as [|indent IH]; [reflexivity|].
  cbn [repeat app]. now rewrite re_search_step by (apply nondigit; lia).
Qed.

(** The count of a part is found behind the files, and behind the
    insertions when they come before it. *)
Lemma re_search_part (h : char) (word : str) (indent : nat) (n k : N)
    (before : option N) (rest : str) :
  h <> 102 -> (before <> None -> h <> 105) ->
  re_search_count (h :: word)
    (repeat 32 indent ++ str_of_N n ++ lit " file" ++ plural n ++ lit " changed"
       ++ stat_part before (lit "insertion") (lit "(+)")
       ++ lit ", " ++ str_of_N k ++ [32] ++ (h :: word) ++ rest)
  = Some (str_of_N k).
Proof.
  destruct printable as (A & Sp & _).
  intros H B.
  assert (Found : forall tail,
            re_search_count (h :: word)
              (44 :: 32 :: str_of_N k ++ 32 :: h :: word ++ tail)
            = Some (str_of_N k)).
  { intros tail. rewrite !re_search_step by (apply nondigit; lia).
    exact (re_search_count_found A 0 k (h :: word) tail). }
  spell " file". spell " changed". spell ", ". cbn [app].
  rewrite re_search_indent.
  rewrite re_search_digits;
    [|apply digits_no_space | apply Sp; lia | apply startswith_other; exact H].
  rewrite !re_search_step by (apply nondigit; lia).
  assert (Changed : forall tail,
            re_search_count (h :: word)
              (plural n ++ 32 :: 99 :: 104 :: 97 :: 110 :: 103 :: 101 :: 100 :: tail)
            = re_search_count (h :: word) tail).
  { intros tail. unfold plural. destruct (n =? 1); [|spell "s"]; cbn [app];
      now rewrite !re_search_step by (apply nondigit; lia). }
  rewrite Changed.
  destruct before as [j|]; cbn [stat_part app]; [|apply Found].
  rewrite <- !app_assoc. spell "insertion". spell ", ". cbn [app].
  rewrite !re_search_step by (apply nondigit; lia).
  rewrite re_search_digits;
    [|apply digits_no_space | apply Sp; lia
     |apply startswith_other; apply B; discriminate].
  rewrite !re_search_step by (apply nondigit; lia).
  assert (Sign : forall tail,
            re_search_count (h :: word) (plural j ++ lit "(+)" ++ tail)
            = re_search_count (h :: word) tail).
  { intros tail. unfold plural. spell "(+)". destruct (j =? 1); [|spell "s"]; cbn [app];
      now rewrite !re_search_step by (apply nondigit; lia). }
  rewrite <- app_assoc, Sign. apply Found.
Qed.

Lemma contains_step (x c : char) (xs s : str) :
  c <> x -> contains (x :: xs) (c :: s) = contains (x :: xs) s.
Proof. intros N. cbn [contains startswith]. now rewrite (proj2 (N.eqb_neq x c)) by congruence. Qed.

Lemma contains_skip (x : char) (xs pre s : str) :
  Forall (fun c => c <> x) pre -> contains (x :: xs) (pre ++ s) = contains (x :: xs) s.
Proof.
  induction 1 as [|c pre N F IH]; [reflexivity|].
  cbn [app]. now rewrite contains_step.
Qed.

Lemma contains_step_head (x y c : char) (xs s : str) :
  c <> y -> contains (x :: y :: xs) (x :: c :: s) = contains (x :: y :: xs) (c :: s).
Proof.
  intros N. cbn [contains startswith].
  rewrite (proj2 (N.eqb_neq y c)) by congruence. now rewrite andb_false_r.
Qed.

Lemma summary_line_qualifies (indent : nat) (n : N) (added removed : option N) :
  is_summary_line (summary_line indent n added removed) = true.
Proof.
  unfold is_summary_line, summary_line. apply andb_true_iff. split.
  - rewrite app_assoc. apply contains_app.
  - apply contains_iff.
    exists (repeat 32 indent ++ str_of_N n ++ lit " file" ++ plural n ++ [32]),
      (stat_part added (lit "insertion") (lit "(+)")
         ++ stat_part removed (lit "deletion") (lit "(-)")).
    rewrite <- !app_assoc. reflexivity.
Qed.

Lemma summary_line_files (indent : nat) (n : N) (added removed : option N) :
  re_search_count (lit "file") (summary_line indent n added removed) = Some (str_of_N n).
Proof.
  unfold summary_line. change (lit " file") with (32 :: lit "file").
  cbn [app]. exact (re_search_count_found (proj1 printable) indent n (lit "file") _).
Qed.

Lemma summary_line_insertions (indent : nat) (n : N) (added removed : option N) :
  re_search_count (lit "insertion") (summary_line indent n added removed)
  = option_map str_of_N added.
Proof.
  destruct added as [k|]; cbn [option_map].
  - unfold summary_line. cbn [stat_part]. rewrite <- !app_assoc.
    change (lit "insertion") with (105 :: lit "nsertion").
    apply (re_search_part 105 (lit "nsertion") indent n k None); [discriminate | congruence].
  - apply re_search_count_absent.
    destruct (contains (lit "insertion") (summary_line indent n None removed)) eqn:C;
      [|reflexivity].
    apply (contains_occurrences 114) in C.
    assert (O : occurrences 114 (summary_line indent n None removed) = 0%nat).
    { unfold summary_line, stat_part, plural, str_of_N. rewrite !occurrences_app.
      rewrite occurrences_repeat by discriminate.
      rewrite uint_chars_free by (right; reflexivity).
      destruct removed as [k|]; [|destruct (n =? 1); reflexivity].
      rewrite !occurrences_app. rewrite uint_chars_free by (right; reflexivity).
      destruct (n =? 1), (k =? 1); reflexivity. }
    rewrite O in C. vm_compute in C. lia.
Qed.

Lemma summary_line_deletions (indent : nat) (n : N) (added removed : option N) :
  re_search_count (lit "deletion") (summary_line indent n added removed)
  = option_map str_of_N removed.
Proof.
  destruct removed as [k|]; cbn [option_map].
  - unfold summary_line. cbn [stat_part].
    change (lit "deletion") with (100 :: lit "eletion").
    apply (re_search_part 100 (lit "eletion") indent n k added); intros; discriminate.
  - apply re_search_count_absent.
    unfold summary_line. cbn [stat_part]. rewrite app_nil_r.
    spell "deletion". spell " file". spell " changed". cbn [app].
    rewrite contains_skip by (apply Forall_forall; intros c I;
                              apply repeat_spec in I; subst; discriminate).
    rewrite contains_skip by (apply digits_no_letter; reflexivity).
    rewrite !contains_step by discriminate.
    assert (End : contains [100; 101; 108; 101; 116; 105; 111; 110] [] = false)
      by reflexivity.
    assert (Changed : forall tail,
              match tail with [] => True | c :: _ => c <> 101 end ->
              contains [100; 101; 108; 101; 116; 105; 111; 110]
                (plural n ++ 32 :: 99 :: 104 :: 97 :: 110 :: 103 :: 101 :: 100 :: tail)
              = contains [100; 101; 108; 101; 116; 105; 111; 110] tail).
    { intros tail T. unfold plural. destruct (n =? 1); [|spell "s"]; cbn [app];
        rewrite !contains_step by discriminate.
      all: destruct tail as [|c tail];
        [reflexivity | now rewrite contains_step_head]. }
    destruct added as [j|]; cbn [stat_part].
    + spell ", ". spell "insertion". spell "(+)". rewrite <- ?app_assoc. cbn [app].
      rewrite Changed by discriminate.
      rewrite !contains_step by discriminate.
      rewrite contains_skip by (apply digits_no_letter; reflexivity).
      rewrite !contains_step by discriminate.
      unfold plural. destruct (j =? 1); [|spell "s"]; cbn [app];
        now rewrite !contains_step by discriminate.
    + now rewrite Changed.
Qed.

(** What the loop body makes of the summary line: the counts it shows,
    and the counts it had for the parts the line leaves out; [ValueError]
    when [int] does not read one of the counts. *)
Lemma scan_summary_line (stats : CommitStats) (indent : nat) (n : N)
    (added removed : option N) :
  scan_stat_line stats (summary_line indent n added removed)
  = if int_reads n && part_reads added && part_reads removed
    then Ok {| files_changed := Z.of_N n;
               insertions := match added with
                             | Some k => Z.of_N k
                             | None => insertions stats
                             end;
               deletions := match removed with
                            | Some k => Z.of_N k
                            | None => deletions stats
                            end |}
    else Raise ValueError.
Proof.
  pose proof (proj1 printable) as A.
  unfold scan_stat_line, read_count.
  rewrite summary_line_qualifies, summary_line_files, summary_line_insertions,
    summary_line_deletions.
  rewrite (int_of_count A). destruct (int_reads n); cbn [and_then andb]; [|reflexivity].
  destruct added as [i|]; cbn [option_map part_reads].
  - rewrite (int_of_count A). destruct (int_reads i); cbn [and_then andb]; [|reflexivity].
    destruct removed as [d|]; cbn [option_map part_reads]; [|reflexivity].
    rewrite (int_of_count A). destruct (int_reads d); reflexivity.
  - cbn [and_then]. destruct removed as [d|]; cbn [option_map part_reads]; [|reflexivity].
    rewrite (int_of_count A). destruct (int_reads d); reflexivity.
Qed.

(** X8.  Reading the summary line.  Where the tables read printable ASCII
    as ASCII does, and [git show --stat] printed one summary line, as
    " 5 files changed, 120 insertions(+), 30 deletions(-)", indented or
    not, singular or plural, among lines that do not qualify,
    [get_commit_stats] returns the three counts the line shows, for all
    counts within the limit of [int] (4300 digits); a part the line leaves
    out (no insertions, no deletions) counts as zero.  When a count the
    line shows is beyond the limit, the call raises [ValueError]. *)
Theorem get_commit_stats_reads_summary (self : GitWeeklyReport) (commit_hash : str) (w : W)
    (stdout : str) (w' : W) (before after : list str) (indent : nat) (n : N)
    (added removed : option N) :
  subprocess_run (git_show_cmd self commit_hash) w = (Ok stdout, w') ->
  split NL (strip stdout) = before ++ summary_line indent n added removed :: after ->
  (forall other, In other (before ++ after) -> is_summary_line other = false) ->
  get_commit_stats self commit_hash w
  = (if int_reads n && part_reads added && part_reads removed
     then Ok {| files_changed := Z.of_N n;
                insertions := count_of added;
                deletions := count_of removed |}
     else Raise ValueError, w').
Proof.
  intros R L O. unfold get_commit_stats, try_except, bind, lift. rewrite R, L.
  rewrite (scan_stat_lines_one before after _ _ O), scan_summary_line.
  destruct (int_reads n && part_reads added && part_reads removed); [|reflexivity].
  destruct added, removed; reflexivity.
Qed.

(** X13.  Two summary lines.  Where the tables read printable ASCII as
    ASCII does, the three counts live through the whole loop over the
    lines: when two lines of the output are summary lines, the later one
    decides every count it shows, and a count it leaves out keeps the
    value the earlier line gave it (zero when that line left it out too);
    so it is for all counts within the limit of [int] (4300 digits), and
    when a count that one of the two lines shows is beyond it, the call
    raises [ValueError]. *)
Theorem get_commit_stats_later_line_wins (self : GitWeeklyReport) (commit_hash : str)
    (w : W) (stdout : str) (w' : W) (before between after : list str)
    (indent1 indent2 : nat) (n1 n2 : N) (added1 removed1 added2 removed2 : option N) :
  subprocess_run (git_show_cmd self commit_hash) w = (Ok stdout, w') ->
  split NL (strip stdout)
  = before ++ summary_line indent1 n1 added1 removed1
      :: between ++ summary_line indent2 n2 added2 removed2 :: after ->
  (forall other, In other (before ++ between ++ after) -> is_summary_line other = false) ->
  get_commit_stats self commit_hash w
  = (if (int_reads n1 && part_reads added1 && part_reads removed1)
        && (int_reads n2 && part_reads added2 && part_reads removed2)
     then Ok {| files_changed := Z.of_N n2;
                insertions := count_of (if is_some added2 then added2 else added1);
                deletions := count_of (if is_some removed2 then removed2 else removed1) |}
     else Raise ValueError, w').
Proof.
  intros R L O. unfold get_commit_stats, try_except, bind, lift. rewrite R, L.
  rewrite scan_stat_lines_app, scan_stat_lines_skip
    by (intros l I; apply O, in_or_app; now left).
  cbn [and_then scan_stat_lines]. rewrite scan_summary_line.
  destruct (int_reads n1 && part_reads added1 && part_reads removed1);
    cbn [and_then andb]; [|reflexivity].
  rewrite scan_stat_lines_app, scan_stat_lines_skip
    by (intros l I; apply O, in_or_app; right; apply in_or_app; now left).
  cbn [and_then scan_stat_lines]. rewrite scan_summary_line.
  destruct (int_reads n2 && part_reads added2 && part_reads removed2);
    cbn [and_then]; [|reflexivity].
  rewrite scan_stat_lines_skip
    by (intros l I; apply O, in_or_app; right; apply in_or_app; now right).
  destruct added1, removed1, added2, removed2; reflexivity.
Qed.

End SummaryLine.

Lemma ascii_tables_read_printable : reads_printable (U := ascii_tables).
Proof.
  split; [exact ascii_tables_read_ascii|]. split.
  - intros c L H. cbn [isspace ascii_tables]. unfold ascii_isspace.
    apply orb_false_iff. split; apply andb_false_iff; right; apply N.leb_gt; lia.
  - intros c L H O. cbn [digit_value ascii_tables]. unfold ascii_digit_value.
    replace ((48 <=? c) && (c <=? 57)) with false; [reflexivity|].
    symmetry. apply andb_false_iff. destruct O; [left | right]; apply N.leb_gt; lia.
Qed.

(** X8 at work: a file line and the summary line of one file, two
    insertions and one deletion. *)
Lemma get_commit_stats_reads_summary_witness :
  get_commit_stats (U := ascii_tables)
    (host := Examples.offline_host (lit " a.py | 3 ++-
 1 file changed, 2 insertions(+), 1 deletion(-)
"))
    (Examples.plain None) (lit "a1") tt
  = (Ok {| files_changed := 1; insertions := 2; deletions := 1 |}, tt).
Proof.
  rewrite (get_commit_stats_reads_summary (U := ascii_tables)
             (host := Examples.offline_host (lit " a.py | 3 ++-
 1 file changed, 2 insertions(+), 1 deletion(-)
"))
             ascii_tables_read_printable (Examples.plain None) (lit "a1") tt
             (lit " a.py | 3 ++-
 1 file changed, 2 insertions(+), 1 deletion(-)
") tt [lit "a.py | 3 ++-"] [] 1%nat 1 (Some 2) (Some 1)).
  - reflexivity.
  - reflexivity.
  - vm_compute. reflexivity.
  - intros other [<- | []]. vm_compute. reflexivity.
Defined.

(** X13 at work: a first summary line with insertions and deletions, a
    second one with the files only. *)
Lemma get_commit_stats_later_line_wins_witness :
  get_commit_stats (U := ascii_tables)
    (host := Examples.offline_host (lit " 2 files changed, 7 insertions(+), 4 deletions(-)
 1 file changed
"))
    (Examples.plain None) (lit "a1") tt
  = (Ok {| files_changed := 1; insertions := 7; deletions := 4 |}, tt).
Proof.
  rewrite (get_commit_stats_later_line_wins (U := ascii_tables)
             (host := Examples.offline_host
                        (lit " 2 files changed, 7 insertions(+), 4 deletions(-)
 1 file changed
"))
             ascii_tables_read_printable (Examples.plain None) (lit "a1") tt
             (lit " 2 files changed, 7 insertions(+), 4 deletions(-)
 1 file changed
") tt [] [] [] 0%nat 1%nat 2 1 (Some 7) (Some 4) None None).
  - reflexivity.
  - reflexivity.
  - vm_compute. reflexivity.
  - intros other [].
Defined.

(** ** Commits that arrive in two parts *)

Section Batches.

Context {U : Unicode}.

Lemma get_tabulate (content : str -> list CommitRecord) (keys : list str) (key : str) :
  In key keys -> get (map (fun k => (k, content k)) keys) key = content key.
Proof.
  induction keys as [|k keys IH]; intros I; [destruct I|].
  cbn [map get]. destruct (str_eqb key k) eqn:E.
  - apply str_eqb_eq in E. now subst.
  - apply IH. destruct I as [-> | I]; [now rewrite str_eqb_refl in E | exact I].
Qed.

Lemma get_absent (d : buckets) (key : str) : ~ In key (map fst d) -> get d key = [].
Proof.
  induction d as [|[k cs] d IH]; intros N; [reflexivity|].
  cbn [get]. cbn [map fst In] in N. destruct (str_eqb key k) eqn:E.
  - apply str_eqb_eq in E. exfalso. apply N. now left.
  - apply IH. intros I. apply N. now right.
Qed.

(** Under every key, label or not, the commits whose message gets it. *)
Lemma get_categorize_commits (commits : list CommitRecord) (key : str) :
  get (categorize_commits commits) key
  = filter (fun c => str_eqb (category_of (message c)) key) commits.
Proof.
  rewrite categorize_commits_spec.
  destruct (in_dec (list_eq_dec N.eq_dec) key labels) as [I | N].
  - now rewrite get_tabulate.
  - rewrite get_absent by (rewrite map_map; cbn [fst]; now rewrite map_id).
    symmetry. induction commits as [|c commits IH]; [reflexivity|].
    cbn [filter]. destruct (str_eqb (category_of (message c)) key) eqn:E; [|exact IH].
    apply str_eqb_eq in E. exfalso. apply N. rewrite <- E. apply category_of_label.
Qed.

(** X9.  Commits in two parts.  Categorizing or grouping a list that comes
    in two parts puts under every key what the first part puts there,
    followed by what the second part puts there: the buckets of the whole
    are the buckets of the parts, joined key by key, and a date is a key
    of the whole when it is a key of a part.  So the order inside a
    bucket is the order of the list, and no commit moves when more
    commits follow. *)
Theorem buckets_of_two_parts (first second : list CommitRecord) (key : str) :
  get (categorize_commits (first ++ second)) key
  = get (categorize_commits first) key ++ get (categorize_commits second) key
  /\ get (group_by_date (first ++ second)) key
     = get (group_by_date first) key ++ get (group_by_date second) key
  /\ (In key (map fst (group_by_date (first ++ second)))
      <-> In key (map fst (group_by_date first))
          \/ In key (map fst (group_by_date second))).
Proof.
  split; [|split].
  - rewrite !get_categorize_commits. apply filter_app.
  - destruct (group_by_date_spec (first ++ second)) as (_ & _ & ->).
    destruct (group_by_date_spec first) as (_ & _ & ->).
    destruct (group_by_date_spec second) as (_ & _ & ->).
    apply filter_app.
  - destruct (group_by_date_spec (first ++ second)) as (_ & -> & _).
    destruct (group_by_date_spec first) as (_ & -> & _).
    destruct (group_by_date_spec second) as (_ & -> & _).
    rewrite map_app. apply in_app_iff.
Qed.

End Batches.

(** ** More about the report *)

Section ReportMore.

Context {U : Unicode} {W : Type} {host : Host W}.

Lemma join_cons (sep p : str) (parts : list str) :
  parts <> [] -> join sep (p :: parts) = p ++ sep ++ join sep parts.
Proof. destruct parts; [congruence | reflexivity]. Qed.

Lemma last_in (A : Type) (x d : A) (l : list A) : In (last (x :: l) d) (x :: l).
Proof.
  revert x; induction l as [|y l IH]; intros x; [now left|].
  right. apply (IH y).
Qed.

(** X6.  The heading of a report with commits.  Under [git_runs] the
    report opens with the title line, an empty line, and the line of the
    period, which shows the date of the first commit of the list, " ~ ",
    and the date of the last one, whatever their order; an empty line
    follows.  For a list that is newest first, as [git log] gives it, the
    date shown first is therefore not before the date shown second. *)
Theorem generate_report_heading (self : GitWeeklyReport) (commits : list CommitRecord)
    (w : W) :
  commits <> [] -> git_runs ->
  (exists report w' rest,
     generate_report self commits w = (Ok report, w')
     /\ report
        = title_line self ++ [NL; NL]
            ++ lit "**统计时间**: " ++ first_date commits ++ lit " ~ " ++ last_date commits
            ++ [NL; NL] ++ rest)
  /\ (newest_first commits ->
      str_ltb (first_date commits) (last_date commits) = false).
Proof.
  intros NE G. split.
  - destruct (generate_report_anatomy self commits w NE G)
      as (enh & w1 & stats & w2 & summary & w3 & dates & w4 & _ & F & _ & _ & _ & _ & _ & E).
    destruct (Forall2_same_identity _ _ F) as (_ & _ & _ & D).
    eexists _, w4, _. split; [exact E|].
    unfold heading_lines, first_date, last_date. rewrite D.
    match goal with
    | |- join _ ([?a; ?b; ?c; ?d] ++ ?X) = _ =>
      change ([a; b; c; d] ++ X) with (a :: b :: c :: d :: X);
      rewrite (join_cons _ a) by discriminate;
      rewrite (join_cons _ b) by discriminate;
      rewrite (join_cons _ c) by discriminate;
      rewrite (join_cons _ d)
    end.
    + rewrite <- !app_assoc. reflexivity.
    + intros H. apply app_eq_nil in H as [_ H]. discriminate H.
  - unfold newest_first, first_date, last_date. intros S.
    destruct (map date commits) as [|d dates] eqn:M.
    + destruct commits; [congruence | discriminate M].
    + cbn [hd]. inversion S as [|? ? _ A]; subst.
      destruct (last_in _ d [] dates) as [<- | I].
      * apply str_ltb_irrefl.
      * rewrite Forall_forall in A. now apply A.
Qed.

(** X7.  A report needs [git].  The stats of a commit are read inside
    [generate_report], which handles a failure status only: when the
    program is missing, a report for commits raises [FileNotFoundError]
    (no report is returned), with or without enhancement; only the report
    for no commits is still returned. *)
Theorem generate_report_needs_git (self : GitWeeklyReport) (commits : list CommitRecord)
    (w : W) :
  git_missing ->
  (commits <> [] -> exists w', generate_report self commits w = (Raise FileNotFoundError, w'))
  /\ (commits = [] -> generate_report self commits w = (Ok (no_commits_report self), w)).
Proof.
  intros Missing. split.
  - intros NE. unfold generate_report.
    replace (is_empty commits) with false by (now destruct commits).
    assert (E0 : exists enh w1,
               (if use_llm self then enhance_commit_messages self commits else ret commits) w
               = (Ok enh, w1) /\ enh <> []).
    { destruct (use_llm self).
      - destruct (enhance_commit_messages_returns self commits w) as (out & w1 & E & F).
        exists out, w1. split; [exact E|].
        intros ->. inversion F. congruence.
      - exists commits, w. split; [reflexivity | exact NE]. }
    destruct E0 as (enh & w1 & E0 & NEe).
    unfold bind at 1. rewrite E0.
    destruct enh as [|c enh]; [congruence|].
    exists w1. unfold bind at 1. unfold total_stats. cbn [foldM].
    unfold bind at 1 2.
    now rewrite (get_commit_stats_propagates self (hash c) w1 w1 FileNotFoundError
                   (Missing _ _)) by discriminate.
  - intros ->. reflexivity.
Qed.

End ReportMore.

(** X6 at work: the scenario opens with its title and period. *)
Lemma generate_report_heading_witness :
  exists report rest,
    generate_report (U := ascii_tables)
      (host := Examples.offline_host (lit " 3 files changed
"))
      (Examples.plain None) Examples.scenario tt = (Ok report, tt)
    /\ report = lit "# 本周工作周报

**统计时间**: 2024-01-10 ~ 2024-01-10

" ++ rest.
Proof.
  destruct (generate_report_heading (U := ascii_tables)
              (host := Examples.offline_host (lit " 3 files changed
"))
              (Examples.plain None) Examples.scenario tt)
    as [(report & w' & rest & E & R) _].
  - discriminate.
  - apply offline_host_git_runs, short_readable. vm_compute. discriminate.
  - exists report, rest. destruct w'. split; [exact E|].
    rewrite R. vm_compute. reflexivity.
Defined.

(** X7 at work: on a machine without [git] the scenario has no report. *)
Lemma generate_report_needs_git_witness :
  fst (generate_report (U := ascii_tables) (host := Machines.gitless_host)
         (Examples.plain None) Examples.scenario tt)
  = Raise FileNotFoundError.
Proof.
  destruct (generate_report_needs_git (U := ascii_tables) (host := Machines.gitless_host)
              (Examples.plain None) Examples.scenario tt) as [raises _].
  - intros cmd []. reflexivity.
  - destruct raises as (w' & ->); [discriminate | reflexivity].
Defined.

(** ** The calls a report costs *)

Section Counting.

Context {U : Unicode} {W : Type} {host : Host W}.

Lemma spend_spend (t : tally) (g a g' a' : nat) :
  spend (spend t g a) g' a' = spend t (g + g') (a + a').
Proof. unfold spend. cbn. f_equal; lia. Qed.

Lemma spend_nothing (t : tally) : spend t 0 0 = t.
Proof. destruct t. unfold spend. cbn. f_equal; lia. Qed.

Lemma tracks_ret (A : Type) (x : A) : tracks (W := W) (ret x) (ret x) 0 0.
Proof. intros w t y w' E. injection E as <- <-. unfold ret. now rewrite spend_nothing. Qed.

Lemma tracks_bind (A B : Type) (c : M W A) (c' : M (W * tally) A)
    (k : A -> M W B) (k' : A -> M (W * tally) B) (g a g' a' : nat) :
  tracks c c' g a -> (forall x, tracks (k x) (k' x) g' a') ->
  tracks (bind c k) (bind c' k') (g + g') (a + a').
Proof.
  intros C K w t y w' E. unfold bind in *.
  destruct (c w) as [[x|e] w1] eqn:R; [|discriminate].
  rewrite (C _ t _ _ R), (K x _ _ _ _ E). now rewrite spend_spend.
Qed.

Lemma tracks_counts (A : Type) (c : M W A) (c' : M (W * tally) A) (g a g' a' : nat) :
  g = g' -> a = a' -> tracks c c' g a -> tracks c c' g' a'.
Proof. now intros -> ->. Qed.

(** A loop costs what its rounds cost. *)
Lemma tracks_mapM (A B : Type) (f : A -> M W B) (f' : A -> M (W * tally) B)
    (g a : A -> nat) (l : list A) :
  (forall x, tracks (f x) (f' x) (g x) (a x)) ->
  tracks (mapM f l) (mapM f' l) (list_sum (map g l)) (list_sum (map a l)).
Proof.
  intros F. induction l as [|x l IH]; cbn [mapM map].
  - apply tracks_ret.
  - rewrite !list_sum_cons. apply tracks_bind; [apply F|]. intros y.
    apply (tracks_counts _ _ _ (list_sum (map g l) + 0) (list_sum (map a l) + 0));
      [lia | lia |].
    apply tracks_bind; [exact IH|]. intros ys. apply tracks_ret.
Qed.

Lemma tracks_foldM (A B : Type) (f : A -> B -> M W A) (f' : A -> B -> M (W * tally) A)
    (g a : nat) (l : list B) :
  (forall acc x, tracks (f acc x) (f' acc x) g a) ->
  forall acc, tracks (foldM f acc l) (foldM f' acc l) (length l * g) (length l * a).
Proof.
  intros F. induction l as [|x l IH]; intros acc; cbn [foldM length].
  - apply tracks_ret.
  - apply (tracks_counts _ _ _ (g + length l * g) (a + length l * a)); [lia | lia |].
    apply tracks_bind; [apply F | exact IH].
Qed.

Lemma list_sum_constant (A : Type) (n : nat) (l : list A) :
  list_sum (map (fun _ => n) l) = (length l * n)%nat.
Proof.
  induction l as [|x l IH]; [reflexivity|].
  rewrite map_cons, list_sum_cons, IH. cbn [length]. lia.
Qed.

(** One subprocess for the stats of a commit, whatever it answers. *)
Lemma tracks_get_commit_stats (self : GitWeeklyReport) (commit_hash : str) :
  tracks (get_commit_stats self commit_hash)
         (get_commit_stats (host := counted host) self commit_hash) 1 0.
Proof.
  intros w t stats w'. unfold get_commit_stats, try_except, bind, lift.
  cbn [subprocess_run counted fst snd].
  destruct (subprocess_run (git_show_cmd self commit_hash) w) as [[stdout|e] w1].
  - destruct (scan_stat_lines zero_stats (split NL (strip stdout))) as [s|e].
    + intros E. now injection E as <- <-.
    + destruct (is_CalledProcessError e); [|discriminate].
      unfold ret. intros E. now injection E as <- <-.
  - destruct (is_CalledProcessError e); [|discriminate].
    unfold ret. intros E. now injection E as <- <-.
Qed.

(** One HTTP call for a rewrite when there is a credential, none without. *)
Lemma tracks_enhance_commit_message (self : LLMEnhancer) (message : str) :
  tracks (enhance_commit_message self message)
         (enhance_commit_message (host := counted host) self message)
         0 (if truthy (api_key self) then 1 else 0).
Proof.
  intros w t text w'. unfold enhance_commit_message.
  destruct (truthy (api_key self)); cbn [negb].
  - unfold try_except, bind, lift, Exception, ret.
    cbn [requests_post counted fst snd].
    destruct (requests_post (enhance_request self message) w) as [[r|e] w1].
    + destruct (status_code r =? 200)%Z.
      * destruct (completion_text r); intros E; now injection E as <- <-.
      * intros E; now injection E as <- <-.
    + intros E; now injection E as <- <-.
  - unfold ret. intros E. injection E as <- <-. now rewrite spend_nothing.
Qed.

Lemma tracks_generate_summary (self : LLMEnhancer) (commits : list CommitRecord) :
  tracks (generate_summary self commits)
         (generate_summary (host := counted host) self commits)
         0 (if negb (truthy (api_key self)) || is_empty commits then 0 else 1).
Proof.
  intros w t text w'. unfold generate_summary.
  destruct (negb (truthy (api_key self)) || is_empty commits).
  - unfold ret. intros E. injection E as <- <-. now rewrite spend_nothing.
  - unfold try_except, bind, lift, Exception, ret.
    cbn [requests_post counted fst snd].
    destruct (requests_post (summary_request self commits) w) as [[r|e] w1].
    + destruct (status_code r =? 200)%Z.
      * destruct (completion_text r); intros E; now injection E as <- <-.
      * intros E; now injection E as <- <-.
    + intros E; now injection E as <- <-.
Qed.

(** The calls the enhancer of [self] makes per message. *)
Lemma tracks_enhance_commit_messages (self : GitWeeklyReport) (commits : list CommitRecord) :
  tracks (if use_llm self then enhance_commit_messages self commits else ret commits)
         (if use_llm self
          then enhance_commit_messages (host := counted host) self commits
          else ret commits)
         0 (api_calls_due self (length commits) - api_calls_due self 0).
Proof.
  unfold api_calls_due, enhance_commit_messages.
  destruct (use_llm self); [destruct (llm self) as [enhancer|]|];
    try (cbn [Nat.sub]; apply tracks_ret).
  eapply tracks_counts; [| |apply tracks_mapM with
      (g := fun _ => 0%nat)
      (a := fun _ => if truthy (api_key enhancer) then 1%nat else 0%nat)].
  - apply list_sum_zero.
  - rewrite list_sum_constant. destruct (truthy (api_key enhancer)); lia.
  - intros c. eapply tracks_counts; [| |apply tracks_bind;
      [apply tracks_enhance_commit_message | intros m; apply tracks_ret]]; lia.
Qed.

Lemma tracks_total_stats (self : GitWeeklyReport) (commits : list CommitRecord) :
  tracks (total_stats self commits)
         (total_stats (host := counted host) self commits) (length commits) 0.
Proof.
  unfold total_stats.
  eapply tracks_counts; [| |apply tracks_foldM with (g := 1%nat) (a := 0%nat)]; try lia.
  intros [[files ins] dels] c.
  eapply tracks_counts; [| |apply tracks_bind;
    [apply tracks_get_commit_stats | intros s; apply tracks_ret]]; lia.
Qed.

Lemma tracks_summary_lines (self : GitWeeklyReport) (commits : list CommitRecord) :
  commits <> [] ->
  tracks (summary_lines self commits)
         (summary_lines (host := counted host) self commits) 0 (api_calls_due self 0).
Proof.
  intros NE. unfold api_calls_due, summary_lines.
  destruct (use_llm self); [destruct (llm self) as [enhancer|]|]; try apply tracks_ret.
  eapply tracks_counts; [| |apply tracks_bind;
    [apply tracks_generate_summary | intros s; apply tracks_ret]]; [lia|].
  destruct commits; [congruence|]. cbn [is_empty]. rewrite orb_false_r.
  destruct (truthy (api_key enhancer)); reflexivity.
Qed.

Lemma tracks_date_lines (self : GitWeeklyReport) (d : buckets) (key : str) :
  tracks (date_lines self d key)
         (date_lines (host := counted host) self d key) (length (get d key)) 0.
Proof.
  unfold date_lines.
  eapply tracks_counts; [| |apply tracks_bind;
    [apply tracks_mapM with (g := fun _ => 1%nat) (a := fun _ => 0%nat)
    | intros lines; apply tracks_ret]].
  - rewrite list_sum_constant. lia.
  - rewrite list_sum_zero. lia.
  - intros c. eapply tracks_counts; [| |apply tracks_bind;
      [apply tracks_get_commit_stats | intros s; apply tracks_ret]]; lia.
Qed.

Lemma tracks_date_section (self : GitWeeklyReport) (d : buckets) :
  tracks (date_section self d)
         (date_section (host := counted host) self d)
         (list_sum (map (fun key => length (get d key)) (sorted_reverse (map fst d)))) 0.
Proof.
  unfold date_section.
  eapply tracks_counts; [| |apply tracks_bind;
    [apply tracks_mapM with (g := fun key => length (get d key)) (a := fun _ => 0%nat)
    | intros groups; apply tracks_ret]].
  - lia.
  - rewrite list_sum_zero. lia.
  - intros key. apply tracks_date_lines.
Qed.

Lemma descending_distinct (keys : list str) : descending keys -> NoDup keys.
Proof.
  unfold descending. induction 1 as [|k keys S IH F]; constructor; [|exact IH].
  intros I. rewrite Forall_forall in F. apply F in I. now rewrite str_ltb_irrefl in I.
Qed.

(** The sizes of the buckets add up to the number of commits, when every
    commit has its key among the keys. *)
Lemma bucket_sizes_sum_in (f : CommitRecord -> str) (keys : list str)
    (commits : list CommitRecord) :
  NoDup keys -> (forall c, In c commits -> In (f c) keys) ->
  list_sum (map (fun k => length (filter (fun c => str_eqb (f c) k) commits)) keys)
  = length commits.
Proof.
  intros ND Hf. induction commits as [|c commits IH].
  - cbn [filter length]. apply list_sum_zero.
  - change (length (c :: commits)) with (1 + length commits)%nat.
    rewrite <- IH by (intros c' I; apply Hf; now right).
    rewrite <- (one_bucket_counts (f c) keys ND (Hf c (or_introl eq_refl))).
    rewrite <- list_sum_add. f_equal. apply map_ext. intros k.
    cbn [filter]. destruct (str_eqb (f c) k); reflexivity.
Qed.

(** Every commit is under exactly one date. *)
Lemma date_group_sizes (commits : list CommitRecord) :
  list_sum (map (fun key => length (get (group_by_date commits) key))
                (sorted_reverse (map fst (group_by_date commits))))
  = length commits.
Proof.
  destruct (sorted_dates_spec commits) as (D & K).
  destruct (group_by_date_spec commits) as (_ & _ & G).
  rewrite (map_ext _ (fun key => length (filter (fun c => str_eqb (date c) key) commits)))
    by (intros key; now rewrite G).
  apply bucket_sizes_sum_in; [now apply descending_distinct|].
  intros c I. apply K. now apply in_map.
Qed.

Lemma tracks_generate_report (self : GitWeeklyReport) (commits : list CommitRecord) :
  commits <> [] ->
  tracks (generate_report self commits)
         (generate_report (host := counted host) self commits)
         (2 * length commits) (api_calls_due self (length commits)).
Proof.
  intros NE w t report w'. unfold generate_report.
  replace (is_empty commits) with false by (now destruct commits).
  rename commits into cs.
  unfold bind at 1 5.
  destruct ((if use_llm self then enhance_commit_messages self cs else ret cs) w)
    as [[enh|e] w1] eqn:E0; [|discriminate].
  rewrite (tracks_enhance_commit_messages self cs _ t _ _ E0).
  assert (L : length enh = length cs).
  { destruct (use_llm self).
    - destruct (enhance_commit_messages_returns self cs w) as (out & w0 & E & F).
      rewrite E in E0. injection E0 as <- _.
      symmetry. apply (Forall2_length F).
    - now injection E0 as <- _. }
  assert (NEe : enh <> []) by (intros ->; destruct cs; [congruence | discriminate]).
  unfold bind at 1 4.
  destruct (total_stats self enh w1) as [[[[files ins] dels]|e] w2] eqn:E1; [|discriminate].
  rewrite (tracks_total_stats self enh _ _ _ _ E1).
  unfold bind at 1 3.
  destruct (summary_lines self enh w2) as [[summary|e] w3] eqn:E2; [|discriminate].
  rewrite (tracks_summary_lines self enh NEe _ _ _ _ E2).
  unfold bind at 1 2.
  destruct (date_section self (group_by_date enh) w3) as [[dates|e] w4] eqn:E3;
    [|discriminate].
  rewrite (tracks_date_section self (group_by_date enh) _ _ _ _ E3).
  unfold ret. intros E. injection E as <- <-.
  rewrite date_group_sizes, !spend_spend, L. do 3 f_equal.
  - lia.
  - unfold api_calls_due.
    destruct (use_llm self); [destruct (llm self) as [enhancer|]|]; try reflexivity.
    destruct (truthy (api_key enhancer)); lia.
Qed.

End Counting.

Section CallCounts.

Context {U : Unicode} {W : Type} {host : Host W}.

(** X5.  What a report costs.  When [generate_report] returns, the same run
    over the counting host returns the same report and world, and has made
    nothing for an empty list; for [n] commits it has started [2 * n]
    subprocesses (every commit's stats are fetched twice, for the totals
    and for its date line) and made [n + 1] HTTP calls when enhancement is
    on with a credential (one per message, one for the summary), none
    otherwise. *)
Theorem generate_report_call_counts (self : GitWeeklyReport) (commits : list CommitRecord)
    (w : W) (t : tally) (report : str) (w' : W) :
  generate_report self commits w = (Ok report, w') ->
  generate_report (host := counted host) self commits (w, t)
  = (Ok report,
     (w', if is_empty commits then t
          else spend t (2 * length commits)
                 (match use_llm self, llm self with
                  | true, Some enhancer =>
                    if truthy (api_key enhancer) then length commits + 1 else 0
                  | _, _ => 0
                  end))).
Proof.
  intros E. destruct commits as [|c commits].
  - cbn [is_empty]. unfold generate_report in *. cbn [is_empty] in *.
    unfold ret in *. now injection E as <- <-.
  - cbn [is_empty].
    apply (tracks_generate_report self (c :: commits)); [discriminate | exact E].
Qed.

End CallCounts.

(** X5 at work: two commits, enhancement on with a credential: four
    subprocesses and three HTTP calls. *)
Lemma generate_report_call_counts_witness :
  exists report,
    generate_report (U := ascii_tables)
      (host := counted (Examples.answering_host (Examples.chat_completion (lit "已润色"))))
      (Examples.enhancing (Some (lit "sk-1"))) Examples.scenario
      (0%nat, {| git_calls := 0; api_calls := 0 |})
    = (Ok report, (3%nat, {| git_calls := 4; api_calls := 3 |})).
Proof.
  destruct (generate_report (U := ascii_tables)
              (host := Examples.answering_host (Examples.chat_completion (lit "已润色")))
              (Examples.enhancing (Some (lit "sk-1"))) Examples.scenario 0%nat)
    as [[report|e] w'] eqn:E.
  - exists report.
    rewrite (generate_report_call_counts _ _ _ {| git_calls := 0; api_calls := 0 |} _ _ E).
    vm_compute in E. injection E as _ <-. reflexivity.
  - vm_compute in E. discriminate.
Defined.

(** ** The command line *)

Section CommandLineFacts.

Context {U : Unicode} {W : Type} {host : Host W} {shell : Shell W}
        {terminal : Terminal W}.

Lemma truthy_or_else (a b : option str) :
  truthy (or_else a b) = truthy a || truthy b.
Proof. unfold or_else. destruct (truthy a) eqn:A; [exact A | reflexivity]. Qed.

Lemma GitWeeklyReport_init_returns (repo : str) (with_llm : bool)
    (key author_name : option str) (w : W) :
  GitWeeklyReport_init repo with_llm key author_name w
  = (Ok {| repo_path := repo; use_llm := with_llm;
           llm := if with_llm
                  then Some {| api_key := or_else key (os_getenv (lit "OPENROUTER_API_KEY") w);
                               model := default_model;
                               base_url := lit "https://openrouter.ai/api/v1/chat/completions" |}
                  else None;
           report_author := author_name |}, w).
Proof. unfold GitWeeklyReport_init. destruct with_llm; reflexivity. Qed.

(** X10.  The credential check of [main].  Outside the author mode, with
    [--use-llm] and no credential, neither a non-empty [--api-key] nor a
    non-empty [OPENROUTER_API_KEY], [main] prints the two lines of its
    error message and returns: nothing is fetched, no report is written.
    With a credential it prints the model line and goes on to fetch and
    report; without [--use-llm] it goes on at once. *)
Theorem main_checks_credential (args : Args) (w : W) :
  arg_list_authors args = false ->
  (arg_use_llm args = true ->
   truthy (arg_api_key args) = false ->
   truthy (os_getenv (lit "OPENROUTER_API_KEY") w) = false ->
   main args w
   = (print (lit "错误: 使用 LLM 功能需要提供 OpenRouter API Key") ;;
      print (lit "请通过 --api-key 参数或环境变量 OPENROUTER_API_KEY 设置")) w)
  /\ (arg_use_llm args = true ->
      truthy (arg_api_key args) = true
      \/ truthy (os_getenv (lit "OPENROUTER_API_KEY") w) = true ->
      exists generator,
        GitWeeklyReport_init (arg_repo args) true (arg_api_key args) (arg_author args) w
        = (Ok generator, w)
        /\ main args w
           = (print (lit "使用 LLM 模型: " ++ arg_model args) ;;
              fetch_and_report args generator) w)
  /\ (arg_use_llm args = false ->
      main args w
      = fetch_and_report args
          {| repo_path := arg_repo args; use_llm := false; llm := None;
             report_author := arg_author args |} w).
Proof.
  intros L. unfold main. rewrite L. split; [|split].
  - intros -> K E. unfold bind at 1. rewrite GitWeeklyReport_init_returns.
    now rewrite truthy_or_else, K, E.
  - intros -> K. eexists. split; [apply GitWeeklyReport_init_returns|].
    unfold bind at 1. rewrite GitWeeklyReport_init_returns.
    rewrite truthy_or_else. now destruct K as [-> | ->]; rewrite ?orb_true_r.
  - intros ->. unfold bind at 1. now rewrite GitWeeklyReport_init_returns.
Qed.

(** X12.  The [--model] option.  The enhancer [main] builds always carries
    the default model, and so does every request made with it: the option
    is printed in the model line and read nowhere else.  Fetching and
    reporting do not depend on it, and without [--use-llm], or in the
    author mode, neither does [main]. *)
Theorem model_option_is_only_printed (args : Args) (m : str) (w : W) :
  (forall generator w' enhancer message commits,
     GitWeeklyReport_init (arg_repo args) (arg_use_llm args) (arg_api_key args)
       (arg_author args) w = (Ok generator, w') ->
     llm generator = Some enhancer ->
     model enhancer = default_model
     /\ json_model (enhance_request enhancer message) = default_model
     /\ json_model (summary_request enhancer commits) = default_model)
  /\ (forall generator, fetch_and_report (with_model m args) generator w
                        = fetch_and_report args generator w)
  /\ (arg_use_llm args = false \/ arg_list_authors args = true ->
      main (with_model m args) w = main args w).
Proof.
  split; [|split].
  - intros generator w' enhancer message commits.
    rewrite GitWeeklyReport_init_returns. intros [= <- _]. cbn [llm].
    destruct (arg_use_llm args); [|discriminate].
    intros [= <-]. repeat split.
  - intros generator. reflexivity.
  - unfold main. cbn [with_model arg_repo arg_use_llm arg_api_key arg_author arg_list_authors].
    intros [-> | ->].
    + reflexivity.
    + unfold bind at 1. rewrite GitWeeklyReport_init_returns. symmetry.
      unfold bind at 1. now rewrite GitWeeklyReport_init_returns.
Qed.

End CommandLineFacts.

Section AuthorMode.

Context {U : Unicode} {host : Host (list str)} {shell : Shell (list str)}.

Lemma print_authors_records (authors : list str) (i : nat) (w : list str) :
  print_authors (terminal := Machines.recording_terminal) i authors w
  = (Ok tt, w ++ numbered i authors).
Proof.
  revert i w; induction authors as [|a authors IH]; intros i w.
  - unfold numbered. cbn. now rewrite app_nil_r.
  - cbn [print_authors]. unfold bind. cbn [print Machines.recording_terminal].
    rewrite IH. unfold numbered. cbn [length seq combine map fst snd].
    now rewrite <- app_assoc.
Qed.

(** X11.  The author mode of [main].  With [--list-authors], over a
    terminal that records what is printed, [main] prints the title of the
    list and then the authors [get_all_authors] finds, one per line and
    numbered from 1 in ascending order of the names; when the shell fails
    or prints no name it prints that no author was found.  Nothing else is
    printed, and of all the options only [--repo] matters. *)
Theorem main_lists_authors (args : Args) (self : GitWeeklyReport) (w : list str) :
  arg_list_authors args = true ->
  repo_path self = arg_repo args ->
  (forall stdout w',
     shell_run (join (lit " ") (authors_cmd self)) (arg_repo args) w = (Ok stdout, w') ->
     main (terminal := Machines.recording_terminal) args w
     = (Ok tt,
        w' ++ author_listing
                (sorted (set_list (flat_map author_of_line (split NL (strip stdout)))))))
  /\ (forall w',
        shell_run (join (lit " ") (authors_cmd self)) (arg_repo args) w
        = (Raise CalledProcessError, w') ->
        main (terminal := Machines.recording_terminal) args w
        = (Ok tt, w' ++ [lit "未找到作者信息"]))
  /\ (forall args',
        arg_list_authors args' = true -> arg_repo args' = arg_repo args ->
        main (terminal := Machines.recording_terminal) args' w
        = main (terminal := Machines.recording_terminal) args w).
Proof.
  intros L R.
  assert (Run : forall a : Args,
            arg_list_authors a = true -> arg_repo a = arg_repo args ->
            main (terminal := Machines.recording_terminal) a w
            = (authors <- get_all_authors self ;;
               if is_empty authors
               then print (Terminal := Machines.recording_terminal) (lit "未找到作者信息")
               else print (Terminal := Machines.recording_terminal) (lit "仓库中的作者列表:") ;;
                    print_authors (terminal := Machines.recording_terminal) 1 authors) w).
  { intros a La Ra. unfold main. rewrite La. unfold bind at 1.
    rewrite GitWeeklyReport_init_returns. unfold bind.
    unfold get_all_authors, authors_cmd. cbn [repo_path]. now rewrite Ra, R. }
  split; [|split].
  - intros stdout w' E. rewrite (Run args L eq_refl).
    unfold bind at 1. unfold get_all_authors, try_except, bind at 1.
    rewrite R, E. unfold ret, author_listing.
    destruct (sorted _) as [|a authors]; cbn [is_empty].
    + reflexivity.
    + unfold bind. cbn [print Machines.recording_terminal].
      rewrite print_authors_records. now rewrite <- app_assoc.
  - intros w' E. rewrite (Run args L eq_refl).
    unfold bind at 1. unfold get_all_authors, try_except, bind at 1.
    rewrite R, E. reflexivity.
  - intros args' L' R'. now rewrite (Run args' L' R'), (Run args L eq_refl).
Qed.

End AuthorMode.

(** X10 at work: [--use-llm] on a machine without a credential. *)
Lemma main_checks_credential_witness :
  main (U := ascii_tables) (host := Machines.bare_host) (shell := Machines.bare_shell)
    (terminal := Machines.recording_terminal) (CommandLines.use_llm_args None) []
  = (Ok tt,
     [ lit "错误: 使用 LLM 功能需要提供 OpenRouter API Key";
       lit "请通过 --api-key 参数或环境变量 OPENROUTER_API_KEY 设置" ]).
Proof.
  destruct (main_checks_credential (U := ascii_tables) (host := Machines.bare_host)
              (shell := Machines.bare_shell) (terminal := Machines.recording_terminal)
              (CommandLines.use_llm_args None) [] eq_refl) as (gate & _).
  rewrite (gate eq_refl eq_refl eq_refl). vm_compute. reflexivity.
Defined.

(** X11 at work: three lines of two authors. *)
Lemma main_lists_authors_witness :
  main (U := ascii_tables) (host := Machines.bare_host)
    (shell := CommandLines.telling_shell (lit "Bob
Alice
Bob
"))
    (terminal := Machines.recording_terminal) CommandLines.list_authors_args []
  = (Ok tt, [lit "仓库中的作者列表:"; lit "  1. Alice"; lit "  2. Bob"]).
Proof.
  destruct (main_lists_authors (U := ascii_tables) (host := Machines.bare_host)
              (shell := CommandLines.telling_shell (lit "Bob
Alice
Bob
"))
              CommandLines.list_authors_args (Examples.plain None) [] eq_refl eq_refl)
    as (lists & _).
  rewrite (lists (lit "Bob
Alice
Bob
") [] eq_refl).
  vm_compute. reflexivity.
Defined.

(** ** The numbers of a report *)

Section Numbers.

Context {U : Unicode} {W : Type} {host : Host W}.

Lemma total_app (field : CommitStats -> Z) (a b : list CommitStats) :
  total field (a ++ b) = (total field a + total field b)%Z.
Proof.
  unfold total. induction a as [|s a IH]; [reflexivity|].
  cbn [app map fold_right]. rewrite IH. lia.
Qed.

(** One key among distinct keys is met by exactly one of them. *)
Lemma one_bucket_weighs (key : str) (keys : list str) (v : Z) :
  NoDup keys -> In key keys ->
  fold_right Z.add 0%Z (map (fun k => if str_eqb key k then v else 0%Z) keys) = v.
Proof.
  induction keys as [|k keys IH]; intros ND I; [destruct I|].
  inversion ND as [|? ? NI ND']; subst. cbn [map fold_right].
  destruct (str_eqb key k) eqn:E.
  - apply str_eqb_eq in E; subst k.
    assert (Z : fold_right Z.add 0%Z
                  (map (fun k => if str_eqb key k then v else 0%Z) keys) = 0%Z).
    { clear IH ND ND' I. induction keys as [|k keys IH]; [reflexivity|].
      cbn [map fold_right]. destruct (str_eqb key k) eqn:E.
      - apply str_eqb_eq in E; subst k. exfalso. apply NI. now left.
      - rewrite IH; [reflexivity | intros I; apply NI; now right]. }
    rewrite Z. lia.
  - destruct I as [-> | I]; [now rewrite str_eqb_refl in E|].
    now rewrite IH.
Qed.

Lemma sum_add (A : Type) (a b : A -> Z) (l : list A) :
  fold_right Z.add 0%Z (map (fun k => a k + b k)%Z l)
  = (fold_right Z.add 0%Z (map a l) + fold_right Z.add 0%Z (map b l))%Z.
Proof.
  induction l as [|x l IH]; [reflexivity|].
  cbn [map fold_right]. rewrite IH. lia.
Qed.

(** Summing group by group is summing over the commits. *)
Lemma grouped_total (field : CommitStats -> Z) (stats_of : CommitRecord -> CommitStats)
    (keys : list str) (commits : list CommitRecord) :
  NoDup keys -> (forall c, In c commits -> In (date c) keys) ->
  fold_right Z.add 0%Z
    (map (fun key =>
            total field
              (map stats_of (filter (fun c => str_eqb (date c) key) commits)))
         keys)
  = total field (map stats_of commits).
Proof.
  intros ND Hd. induction commits as [|c commits IH].
  - cbn [filter map]. induction keys as [|k keys IHk]; [reflexivity|].
    inversion ND; subst. cbn [map fold_right]. now rewrite IHk.
  - unfold total at 2. cbn [map fold_right]. fold (total field (map stats_of commits)).
    rewrite <- IH by (intros c' I; apply Hd; now right).
    rewrite <- (one_bucket_weighs (date c) keys (field (stats_of c)) ND
                  (Hd c (or_introl eq_refl))) at 1.
    rewrite <- sum_add. f_equal. apply map_ext. intros k.
    cbn [filter]. destruct (str_eqb (date c) k); reflexivity.
Qed.

Section Steady.

Variable self : GitWeeklyReport.
Variable stats_of : str -> CommitStats.
Hypothesis steady : forall h w, fst (get_commit_stats self h w) = Ok (stats_of h).

Lemma get_commit_stats_steady (h : str) (w : W) :
  exists w', get_commit_stats self h w = (Ok (stats_of h), w').
Proof.
  pose proof (steady h w) as S.
  destruct (get_commit_stats self h w) as [r w']. cbn [fst] in S. subst r. now exists w'.
Qed.

Lemma mapM_stats_steady (commits : list CommitRecord) (w : W) :
  exists w', mapM (fun commit => get_commit_stats self (hash commit)) commits w
             = (Ok (map (fun c => stats_of (hash c)) commits), w').
Proof.
  revert w; induction commits as [|c commits IH]; intros w; [now exists w|].
  cbn [mapM map]. unfold bind at 1.
  destruct (get_commit_stats_steady (hash c) w) as (w1 & ->).
  unfold bind. destruct (IH w1) as (w2 & ->). now exists w2.
Qed.

Lemma date_lines_steady (d : buckets) (key : str) (w : W) :
  exists w',
    date_lines self d key w
    = (Ok (date_group_lines (key, map (fun c => (c, stats_of (hash c))) (get d key))), w').
Proof.
  unfold date_lines, bind at 1.
  assert (L : forall commits w0,
            exists w',
              mapM (fun commit => stats <- get_commit_stats self (hash commit) ;;
                                  ret (date_commit_line commit stats)) commits w0
              = (Ok (map (fun c => date_commit_line c (stats_of (hash c))) commits), w')).
  { induction commits as [|c commits IH]; intros w0; [now exists w0|].
    cbn [mapM map]. unfold bind in *.
    destruct (get_commit_stats_steady (hash c) w0) as (w1 & ->). unfold ret at 1.
    destruct (IH w1) as (w2 & ->). now exists w2. }
  destruct (L (get d key) w) as (w' & ->). exists w'. unfold ret, date_group_lines.
  cbn [fst snd]. now rewrite map_map.
Qed.

Lemma date_section_steady (d : buckets) (w : W) :
  exists w',
    date_section self d w
    = (Ok ([lit "## 📅 每日详情"; []]
             ++ flat_map date_group_lines
                  (map (fun key => (key, map (fun c => (c, stats_of (hash c))) (get d key)))
                       (sorted_reverse (map fst d)))), w').
Proof.
  unfold date_section, bind.
  assert (L : forall keys w0,
            exists w',
              mapM (date_lines self d) keys w0
              = (Ok (map (fun key =>
                            date_group_lines
                              (key, map (fun c => (c, stats_of (hash c))) (get d key)))
                         keys), w')).
  { induction keys as [|k keys IH]; intros w0; [now exists w0|].
    cbn [mapM map]. unfold bind at 1.
    destruct (date_lines_steady d k w0) as (w1 & ->).
    unfold bind. destruct (IH w1) as (w2 & ->). now exists w2. }
  destruct (L (sorted_reverse (map fst d)) w) as (w' & ->). exists w'. unfold ret.
  do 3 f_equal. rewrite flat_map_concat_map, map_map. reflexivity.
Qed.

End Steady.

(** When [git] answers by the command alone, every hash has its stats. *)
Lemma steady_stats (self : GitWeeklyReport) (answer : list str -> result str) :
  git_runs -> git_answers answer ->
  exists stats_of, forall h w, fst (get_commit_stats self h w) = Ok (stats_of h).
Proof.
  intros G A.
  exists (fun h =>
            match answer (git_show_cmd self h) with
            | Ok stdout =>
              match scan_stat_lines zero_stats (split NL (strip stdout)) with
              | Ok stats => stats
              | Raise _ => zero_stats
              end
            | Raise _ => zero_stats
            end).
  intros h w. rewrite <- (A (git_show_cmd self h) w).
  unfold get_commit_stats, try_except, bind, lift.
  destruct (subprocess_run (git_show_cmd self h) w) as [[stdout|e] w'] eqn:R; cbn [fst].
  - destruct (scan_stat_lines_total (split NL (strip stdout)) zero_stats
                (stat_lines_readable stdout (proj2 G _ _ _ _ _ R)) zero_stats_non_negative)
      as (stats & -> & _). reflexivity.
  - now rewrite (proj1 G _ _ _ _ R).
Qed.

(** X14.  The numbers of a report agree.  The stats of every commit are
    fetched twice, for the totals and for its date line.  When [git] runs
    and answers by the command alone, each hash has one record of stats,
    the date lines show the record of their commit, and each total of the
    overview is the sum over the commits, which is also the sum of what
    the date lines show, group by group. *)
Theorem report_numbers_agree (self : GitWeeklyReport) (commits : list CommitRecord)
    (w : W) (answer : list str -> result str) :
  commits <> [] -> git_runs -> git_answers answer ->
  exists stats_of enhanced w1 before groups w',
    (forall h w0, fst (get_commit_stats self h w0) = Ok (stats_of h))
    /\ (if use_llm self then enhance_commit_messages self commits else ret commits) w
       = (Ok enhanced, w1)
    /\ groups
       = map (fun key =>
                (key, map (fun c => (c, stats_of (hash c)))
                          (filter (fun c => str_eqb (date c) key) enhanced)))
             (sorted_reverse (map fst (group_by_date enhanced)))
    /\ generate_report self commits w
       = (Ok (join [NL]
                (before
                   ++ overview_lines (length commits)
                        (total files_changed (map snd (flat_map snd groups)))
                        (total insertions (map snd (flat_map snd groups)))
                        (total deletions (map snd (flat_map snd groups)))
                   ++ category_section self (categorize_commits enhanced)
                   ++ [lit "## 📅 每日详情"; []]
                   ++ flat_map date_group_lines groups)), w')
    /\ (forall field,
          total field (map snd (flat_map snd groups))
          = total field (map (fun c => stats_of (hash c)) enhanced)).
Proof.
  intros NE G A.
  destruct (steady_stats self answer G A) as (stats_of & S).
  destruct (generate_report_anatomy self commits w NE G)
    as (enhanced & w1 & stats & w2 & summary & w3 & dates & w4
        & E0 & _ & E1 & _ & _ & _ & E3 & R).
  destruct (mapM_stats_steady self stats_of S enhanced w1) as (w2' & E1').
  rewrite E1' in E1. injection E1 as <- _.
  destruct (date_section_steady self stats_of S (group_by_date enhanced) w3) as (w4' & E3').
  rewrite E3' in E3. injection E3 as <- _.
  destruct (group_by_date_spec enhanced) as (_ & _ & Gt).
  destruct (sorted_dates_spec enhanced) as (D & K).
  assert (Sums : forall field,
            total field
              (map snd
                 (flat_map snd
                    (map (fun key =>
                            (key, map (fun c => (c, stats_of (hash c)))
                                      (filter (fun c => str_eqb (date c) key) enhanced)))
                         (sorted_reverse (map fst (group_by_date enhanced))))))
            = total field (map (fun c => stats_of (hash c)) enhanced)).
  { intros field.
    rewrite <- (grouped_total field (fun c => stats_of (hash c))
                  (sorted_reverse (map fst (group_by_date enhanced))) enhanced
                  (descending_distinct _ D))
      by (intros c I; apply K; now apply in_map).
    generalize (sorted_reverse (map fst (group_by_date enhanced))) as keys.
    induction keys as [|k keys IH]; [reflexivity|].
    cbn [map flat_map snd fold_right]. rewrite map_app, total_app, IH.
    now rewrite map_map. }
  eexists stats_of, enhanced, w1, (heading_lines self enhanced ++ summary), _, w4.
  split; [exact S|]. split; [exact E0|]. split; [reflexivity|]. split; [|exact Sums].
  rewrite R, !Sums, <- !app_assoc.
  rewrite (map_ext _ _ (fun key => f_equal (fun l => (key, map _ l)) (Gt key))).
  reflexivity.
Qed.

End Numbers.

Lemma offline_host_git_answers (stat_output : str) :
  git_answers (host := Examples.offline_host stat_output) (fun _ => Ok stat_output).
Proof. intros cmd w. reflexivity. Qed.

(** X14 at work: the scenario on a machine whose [git] gives every commit
    three files; the totals are the sums of the date lines. *)
Lemma report_numbers_agree_witness :
  exists (stats_of : str -> CommitStats)
         (groups : list (str * list (CommitRecord * CommitStats))),
    map snd (flat_map snd groups)
    = map (fun c => stats_of (hash c)) Examples.scenario
    /\ total files_changed (map snd (flat_map snd groups)) = 6%Z.
Proof.
  destruct (report_numbers_agree (U := ascii_tables)
              (host := Examples.offline_host (lit " 3 files changed
"))
              (Examples.plain None) Examples.scenario tt
              (fun _ => Ok (lit " 3 files changed
")))
    as (stats_of & enhanced & w1 & before & groups & w' & S & E0 & Gr & _ & Sums).
  - discriminate.
  - apply offline_host_git_runs, short_readable. vm_compute. discriminate.
  - apply offline_host_git_answers.
  - exists stats_of, groups. injection E0 as <- _. split.
    + rewrite Gr. vm_compute. reflexivity.
    + rewrite Sums.
      pose proof (S (lit "a1") tt) as Sa. pose proof (S (lit "b2") tt) as Sb.
      vm_compute in Sa, Sb. injection Sa as Sa. injection Sb as Sb.
      vm_compute. rewrite <- Sa, <- Sb. reflexivity.
Defined.
